(** * Dial-In: the Holley Sniper datalog parser and its segment analysis

    A shallow embedding of [src/dlz_parser.py] and the properties its
    specification states about it.

    Conventions of the embedding:
    - a Python [str] is a list of Unicode code points ([pystr]);
    - a Python [bytes] is a [list byte];
    - a Python [float] is an IEEE-754 binary64 value, represented by
      [spec_float] with the operations of [SpecFloat] at precision 53 and
      maximal exponent 1024 (round to nearest, ties to even);
    - a [dict] keyed by strings is a [gmap];
    - code that may raise returns a [result]; [try]/[except] is written
      out where the source has it. *)

From Stdlib Require Import ZArith NArith List Bool Lia.
From Stdlib Require Import Strings.String Strings.Ascii Strings.Byte.
From Stdlib Require Import DecimalString Sorting.Sorted.
From Stdlib Require Import Floats.SpecFloat.
From stdpp Require Import base option list gmap.

Local Open Scope nat_scope.

(** ** Python strings *)

Module PyStr.

Abbreviation pystr := (list N).

(** A Rocq string literal read as a Python string (one code point per
    character; only used with ASCII literals). *)
Definition u (s : string) : pystr :=
  List.map N_of_ascii (list_ascii_of_string s).

Definition COMMA : N := 44%N.
Definition TAB : N := 9%N.
Definition NEWLINE : N := 10%N.
Definition CR : N := 13%N.
Definition QUOTE : N := 34%N.
Definition SPACE : N := 32%N.
Definition UNDERSCORE : N := 95%N.
Definition SLASH : N := 47%N.

(** [c.isspace()] for one code point: the white-space characters of the
    Unicode database. *)
Definition isspace (c : N) : bool :=
  ((9 <=? c) && (c <=? 13) || (28 <=? c) && (c <=? 32)
   || (c =? 133) || (c =? 160) || (c =? 5760)
   || (8192 <=? c) && (c <=? 8202) || (c =? 8232) || (c =? 8233)
   || (c =? 8239) || (c =? 8287) || (c =? 12288))%N.

(** [str.lower()] on one code point.  The mapping is that of Python for
    U+0000 to U+00FF (ASCII and Latin-1 capitals).  A code point above
    U+00FF is left as it is, which is not the mapping of Python for the
    cased letters there: what is proved of the case mapping is stated for
    texts of code points up to U+00FF. *)
Definition lower_char (c : N) : N :=
  (if (65 <=? c) && (c <=? 90)
      || (192 <=? c) && (c <=? 222) && negb (c =? 215)
   then c + 32 else c)%N.

Definition lower (s : pystr) : pystr := List.map lower_char s.

(** [s.lstrip(chars)], [s.rstrip(chars)], [s.strip(chars)] for a set of
    characters given by its membership test. *)
Fixpoint lstrip_by (p : N -> bool) (s : pystr) : pystr :=
  match s with
  | [] => []
  | c :: rest => if p c then lstrip_by p rest else s
  end.

Definition rstrip_by (p : N -> bool) (s : pystr) : pystr :=
  rev (lstrip_by p (rev s)).

Definition strip_by (p : N -> bool) (s : pystr) : pystr :=
  rstrip_by p (lstrip_by p s).

(** [s.strip()] *)
Definition strip (s : pystr) : pystr := strip_by isspace s.

(** [s.strip(q)] with [q] the double quote. *)
Definition strip_quotes (s : pystr) : pystr := strip_by (N.eqb QUOTE) s.

(** [s.split(sep)] for a separator of one character. *)
Fixpoint split (sep : N) (s : pystr) : list pystr :=
  match s with
  | [] => [[]]
  | c :: rest =>
      if (c =? sep)%N then [] :: split sep rest
      else match split sep rest with
           | [] => [[c]]
           | w :: ws => (c :: w) :: ws
           end
  end.

(** [sep.join(parts)] *)
Fixpoint join (sep : pystr) (parts : list pystr) : pystr :=
  match parts with
  | [] => []
  | [w] => w
  | w :: ws => w ++ sep ++ join sep ws
  end.

(** [c in s] *)
Definition contains (c : N) (s : pystr) : bool := existsb (N.eqb c) s.

(** [s.replace(a, b)] for single characters. *)
Definition replace (a b : N) (s : pystr) : pystr :=
  List.map (fun c => if (c =? a)%N then b else c) s.

Definition pystr_eqb (a b : pystr) : bool := bool_decide (a = b).

(** [s.endswith(suffix)] *)
Definition endswith (s suffix : pystr) : bool :=
  pystr_eqb (skipn (length s - length suffix) s) suffix
  && (length suffix <=? length s).

(** [os.path.basename] (POSIX): what follows the last slash. *)
Definition basename (p : pystr) : pystr :=
  List.last (split SLASH p) [].

(** [str(n)] for a natural number. *)
Definition str_nat (n : nat) : pystr :=
  u (DecimalString.NilZero.string_of_uint (Nat.to_uint n)).

End PyStr.
Export PyStr.

(** ** Python floats *)

Module PyFloat.

Abbreviation float := spec_float.

#[global] Instance float_eq_dec : EqDecision float.
Proof. solve_decision. Defined.

Definition prec : Z := 53%Z.
Definition emax : Z := 1024%Z.

(** The double nearest to an integer. *)
Definition of_Z (z : Z) : float := binary_normalize prec emax z 0 false.

Definition zero : float := S754_zero false.

Definition add : float -> float -> float := SFadd prec emax.
Definition div : float -> float -> float := SFdiv prec emax.

(** [x < y], [x <= y], [x == y]; all false when an operand is NaN. *)
Definition ltb : float -> float -> bool := SFltb.
Definition leb : float -> float -> bool := SFleb.
Definition eqb : float -> float -> bool := SFeqb.
Definition gtb (x y : float) : bool := SFltb y x.
Definition geb (x y : float) : bool := SFleb y x.

(** [bool(x)]: a float is false exactly when it compares equal to zero
    (NaN is true). *)
Definition truthy (x : float) : bool := negb (eqb x zero).

(** The decimal literal [n / 10^k], correctly rounded; exact for
    numerators and powers of ten below [2^53]. *)
Definition dec (n : Z) (k : nat) : float :=
  div (of_Z n) (of_Z (10 ^ Z.of_nat k)).

(** [sum(xs)] for a list of floats: left to right from the integer 0. *)
Definition sum (xs : list float) : float := fold_left add xs zero.

(** [max(xs)] on a non-empty sequence: the running maximum is replaced
    only by an item that compares strictly greater. *)
Definition max_from (x : float) (xs : list float) : float :=
  fold_left (fun m y => if gtb y m then y else m) xs x.

(** A single-precision bit pattern, read as the double of the same value
    (what [struct.unpack('<f', ...)] hands to Python). *)
Definition of_bits32 (w : N) : float :=
  let s := N.testbit w 31 in
  let e := N.land (N.shiftr w 23) 255 in
  let m := N.land w 8388607 in
  if (e =? 255)%N then
    if (m =? 0)%N then S754_infinity s else S754_nan
  else if (e =? 0)%N then
    binary_normalize prec emax (cond_Zopp s (Z.of_N m)) (-149) s
  else
    binary_normalize prec emax (cond_Zopp s (Z.of_N (m + 8388608)))
                     (Z.of_N e - 150) s.

Definition sub : float -> float -> float := SFsub prec emax.
Definition abs : float -> float := SFabs.

(** [min(xs)] on a non-empty sequence: the running minimum is replaced
    only by an item that compares strictly less. *)
Definition min_from (x : float) (xs : list float) : float :=
  fold_left (fun m y => if ltb y m then y else m) xs x.

(** [max(a, b)] of two arguments: [b] when it compares greater, else [a]. *)
Definition max2 (a b : float) : float := if gtb b a then b else a.

End PyFloat.
Export PyFloat.

(** ** Exceptions of the built-in operations *)

(** What the arithmetic and the sequence operations of the analysis
    methods can raise. *)
Inductive raised : Type :=
  | IndexError          (* a list index out of range *)
  | EmptySequence       (* the ValueError of min() or max() of nothing *)
  | ZeroDivisionError
  | OverflowError       (* int() of an infinity *)
  | NaNConversion       (* the ValueError of int() of a NaN *)
  | EnrichmentError.    (* what analyze_acceleration_enrichment raised *)

#[global] Instance raised_eq_dec : EqDecision raised.
Proof. solve_decision. Defined.

#[global] Instance raised_ret : MRet (Datatypes.sum raised) :=
  fun A x => inr x.

#[global] Instance raised_bind : MBind (Datatypes.sum raised) :=
  fun A B k m => match m with inl e => inl e | inr x => k x end.

(** An operation whose [None] stands for the exception [e]. *)
Definition or_raise {A : Type} (e : raised) (o : option A) : raised + A :=
  match o with
  | Some x => inr x
  | None => inl e
  end.

(** [x / y] on floats. *)
Definition truediv (x y : float) : raised + float :=
  match y with
  | S754_zero _ => inl ZeroDivisionError
  | _ => inr (div x y)
  end.

(** [x / n] for a float and a length: the integer is converted to a float,
    which is zero for the integer 0 only. *)
Definition truediv_len (x : float) (n : nat) : raised + float :=
  match n with
  | 0 => inl ZeroDivisionError
  | S _ => inr (div x (of_Z (Z.of_nat n)))
  end.

(** [int(x)]: the float cut toward zero. *)
Definition py_int (x : float) : raised + Z :=
  match x with
  | S754_zero _ => inr 0%Z
  | S754_infinity _ => inl OverflowError
  | S754_nan => inl NaNConversion
  | S754_finite s m e =>
      let magnitude :=
        (if 0 <=? e then Z.pos m * 2 ^ e else Z.pos m / 2 ^ (- e))%Z in
      inr (if s then (- magnitude)%Z else magnitude)
  end.

(** ** [struct.unpack_from('<f', data, offset)] *)

Abbreviation bytes := (list byte).

Definition le_bits32 (b0 b1 b2 b3 : byte) : N :=
  (Byte.to_N b0 + 256 * (Byte.to_N b1 + 256 * (Byte.to_N b2 + 256 * Byte.to_N b3)))%N.

(** [None] stands for [struct.error]: fewer than four bytes remain at
    [offset]. *)
Definition unpack_from_f (data : bytes) (offset : nat) : option float :=
  match firstn 4 (skipn offset data) with
  | [b0; b1; b2; b3] => Some (of_bits32 (le_bits32 b0 b1 b2 b3))
  | _ => None
  end.

(** ** The channel catalog *)

Definition SNIPER_CHANNELS_keys : list pystr :=
  List.map u
    [ "timestamp_ms"; "rpm"; "map_kpa"; "tps_pct"; "coolant_temp_f"; "iat_f";
      "afr"; "target_afr"; "fuel_flow_lbhr"; "inj_pw_ms"; "ign_timing_deg";
      "battery_v"; "cl_comp_pct"; "learn_pct"; "ae_active"; "iac_counts";
      "vss_mph"; "fuel_pressure_psi"; "cl_status"; "tps_roc"; "map_roc" ]%string.

(** ** Exceptions *)

(** The exceptions the modelled code can meet, with their message. *)
Inductive exn : Type :=
  | OSError (msg : pystr)
  | ValueError (msg : pystr).

(** [str(e)] *)
Definition str_exn (e : exn) : pystr :=
  match e with
  | OSError msg => msg
  | ValueError msg => msg
  end.

(** ** [csv.writer] with the default dialect *)

Module Csv.

(** A field is quoted when it holds the delimiter, the quote character or
    a character of the line terminator. *)
Definition needs_quote (s : pystr) : bool :=
  existsb (fun c => (c =? COMMA) || (c =? QUOTE) || (c =? CR) || (c =? NEWLINE))%N s.

(** Inside a quoted field every quote character is doubled. *)
Definition escape (s : pystr) : pystr :=
  flat_map (fun c => if (c =? QUOTE)%N then [QUOTE; QUOTE] else [c]) s.

Definition field (s : pystr) : pystr :=
  if needs_quote s then [QUOTE] ++ escape s ++ [QUOTE] else s.

(** [writer.writerow(fields)]: the fields joined by commas and ended by
    CR LF; a row that would be empty for holding one empty field is
    written as a pair of quotes. *)
Definition writerow (fields : list pystr) : pystr :=
  match fields with
  | [[]] => [QUOTE; QUOTE; CR; NEWLINE]
  | _ => join [COMMA] (List.map field fields) ++ [CR; NEWLINE]
  end.

End Csv.

(** ** [class DatalogRecord] *)

Module DatalogRecord.

Record t : Type := Build { data : gmap pystr float }.

#[global] Instance eq_dec : EqDecision t.
Proof. solve_decision. Defined.

(** [get(self, key, default=None)]; Rocq's [None] is Python's [None]. *)
Definition get (self : t) (key : pystr) (default : option float) : option float :=
  match data self !! key with
  | Some v => Some v
  | None => default
  end.

(** The value a caller holds after [rec.get(key, d)] with a float [d]. *)
Definition get_or (self : t) (key : pystr) (d : float) : float :=
  match get self key (Some d) with
  | Some v => v
  | None => d
  end.

(** [__getattr__]: attribute access to a channel raises [AttributeError]
    when the channel is absent. *)
Definition getattr (self : t) (name : pystr) : option float :=
  data self !! name.

End DatalogRecord.

(** ** [class SniperDatalog] *)

Module SniperDatalog.

Record t : Type := Build {
  records : list DatalogRecord.t;
  channels : list pystr;
  sample_rate_hz : float;
  metadata : gmap pystr nat;
  filename : pystr;
  parse_errors : list pystr
}.

#[global] Instance eq_dec : EqDecision t.
Proof. solve_decision. Defined.

(** [__init__] (the file name is assigned by every caller right after). *)
Definition init : t :=
  {| records := []; channels := []; sample_rate_hz := of_Z 10;
     metadata := ∅; filename := []; parse_errors := [] |}.

Definition set_filename (d : t) (f : pystr) : t :=
  {| records := records d; channels := channels d;
     sample_rate_hz := sample_rate_hz d; metadata := metadata d;
     filename := f; parse_errors := parse_errors d |}.

Definition set_channels (d : t) (c : list pystr) : t :=
  {| records := records d; channels := c;
     sample_rate_hz := sample_rate_hz d; metadata := metadata d;
     filename := filename d; parse_errors := parse_errors d |}.

Definition set_records (d : t) (r : list DatalogRecord.t) : t :=
  {| records := r; channels := channels d;
     sample_rate_hz := sample_rate_hz d; metadata := metadata d;
     filename := filename d; parse_errors := parse_errors d |}.

Definition set_metadata (d : t) (m : gmap pystr nat) : t :=
  {| records := records d; channels := channels d;
     sample_rate_hz := sample_rate_hz d; metadata := m;
     filename := filename d; parse_errors := parse_errors d |}.

Definition append_error (d : t) (msg : pystr) : t :=
  {| records := records d; channels := channels d;
     sample_rate_hz := sample_rate_hz d; metadata := metadata d;
     filename := filename d; parse_errors := parse_errors d ++ [msg] |}.

Definition append_record (d : t) (r : DatalogRecord.t) : t :=
  set_records d (records d ++ [r]).

Definition get_channel_data (self : t) (channel : pystr) : list float :=
  List.map (fun r => DatalogRecord.get_or r channel zero) (records self).

(** *** [get_wot_runs] *)

(** The loop variables of [get_wot_runs]. *)
Record wot_state : Type := WotState {
  runs : list (nat * nat);
  in_wot : bool;
  start_idx : nat
}.

(** One iteration of [for i, rec in enumerate(self.records)]. *)
Definition wot_step (tps_threshold : float) (st : wot_state)
    (i : nat) (rec : DatalogRecord.t) : wot_state :=
  let tps := DatalogRecord.get_or rec (u "tps_pct") zero in
  if geb tps tps_threshold && negb (in_wot st) then
    {| runs := runs st; in_wot := true; start_idx := i |}
  else if ltb tps tps_threshold && in_wot st then
    {| runs := if 3 <? i - start_idx st
               then runs st ++ [(start_idx st, i)] else runs st;
       in_wot := false; start_idx := start_idx st |}
  else st.

Fixpoint wot_loop (tps_threshold : float) (st : wot_state) (i : nat)
    (recs : list DatalogRecord.t) : wot_state :=
  match recs with
  | [] => st
  | rec :: rest =>
      wot_loop tps_threshold (wot_step tps_threshold st i rec) (S i) rest
  end.

Definition get_wot_runs (self : t) (tps_threshold : float) : list (nat * nat) :=
  let st := wot_loop tps_threshold
              {| runs := []; in_wot := false; start_idx := 0 |}
              0 (records self) in
  if in_wot st && (3 <? length (records self) - start_idx st)
  then runs st ++ [(start_idx st, length (records self) - 1)]
  else runs st.

(** *** [analyze_acceleration_enrichment] *)

(** [[f(self.records[j]) for j in range(a, b)]]; [None] stands for the
    [IndexError] of an index outside the list. *)
Definition comprehension {A : Type} (recs : list DatalogRecord.t)
    (f : DatalogRecord.t -> A) (a b : nat) : option (list A) :=
  mapM (fun j => f <$> recs !! j) (seq a (b - a)).

(** [max(...)]; [None] stands for the [ValueError] of an empty sequence. *)
Definition py_max (xs : list float) : option float :=
  match xs with
  | [] => None
  | x :: rest => Some (max_from x rest)
  end.

(** An entry of the [ae_events] list. *)
Record ae_event : Type := AeEvent {
  ev_start : nat;
  ev_end : nat;
  duration_samples : nat;
  peak_tps_roc : float;
  afr_during : list float
}.

Record ae_state : Type := AeState {
  ae_acc : list ae_event;
  ae_active : bool;
  ae_start_idx : nat
}.

Definition AFR_DEFAULT : float := dec 147 1.   (* 14.7 *)
Definition LEAN_LIMIT : float := of_Z 14.      (* 14.0 *)
Definition RICH_LIMIT : float := dec 115 1.    (* 11.5 *)

(** One iteration of the detection loop; [recs] is [self.records]. *)
Definition ae_step (recs : list DatalogRecord.t) (st : ae_state)
    (i : nat) (rec : DatalogRecord.t) : option ae_state :=
  let flag := truthy (DatalogRecord.get_or rec (u "ae_active") zero) in
  if flag && negb (ae_active st) then
    Some {| ae_acc := ae_acc st; ae_active := true; ae_start_idx := i |}
  else if negb flag && ae_active st then
    rocs ← comprehension recs
              (fun r => DatalogRecord.get_or r (u "tps_roc") zero)
              (ae_start_idx st) i;
    peak ← py_max rocs;
    afrs ← comprehension recs
              (fun r => DatalogRecord.get_or r (u "afr") AFR_DEFAULT)
              (ae_start_idx st) (Nat.min (i + 10) (length recs));
    Some {| ae_acc := ae_acc st ++
                      [ {| ev_start := ae_start_idx st; ev_end := i;
                           duration_samples := i - ae_start_idx st;
                           peak_tps_roc := peak; afr_during := afrs |} ];
            ae_active := false; ae_start_idx := ae_start_idx st |}
  else Some st.

Fixpoint ae_loop (recs : list DatalogRecord.t) (st : ae_state) (i : nat)
    (rest : list DatalogRecord.t) : option ae_state :=
  match rest with
  | [] => Some st
  | rec :: rest' =>
      st' ← ae_step recs st i rec;
      ae_loop recs st' (S i) rest'
  end.

(** The first loop of the method: the complete list of detected events. *)
Definition ae_detect (self : t) : option (list ae_event) :=
  st ← ae_loop (records self)
         {| ae_acc := []; ae_active := false; ae_start_idx := 0 |}
         0 (records self);
  Some (ae_acc st).

(** [avg_afr] of one event. *)
Definition avg_afr (trace : list float) : float :=
  match trace with
  | [] => AFR_DEFAULT
  | _ => div (sum trace) (of_Z (Z.of_nat (length trace)))
  end.

(** The second loop: the pair [(lean_ae_events, rich_ae_events)]. *)
Definition ae_count_step (c : nat * nat) (event : ae_event) : nat * nat :=
  let a := avg_afr (afr_during event) in
  if gtb a LEAN_LIMIT then (S (fst c), snd c)
  else if ltb a RICH_LIMIT then (fst c, S (snd c))
  else c.

Definition ae_count (events : list ae_event) : nat * nat :=
  fold_left ae_count_step events (0, 0).

Record ae_analysis : Type := AeAnalysis {
  total_ae_events : nat;
  lean_ae_events : nat;
  rich_ae_events : nat;
  ae_events : list ae_event
}.

Definition analyze_acceleration_enrichment (self : t) : option ae_analysis :=
  events ← ae_detect self;
  let c := ae_count events in
  Some {| total_ae_events := length events;
          lean_ae_events := fst c;
          rich_ae_events := snd c;
          ae_events := take 20 events |}.

(** *** [duration_seconds], [max_rpm], [max_tps] *)

Definition duration_seconds (self : t) : raised + float :=
  match records self with
  | [] => inr zero
  | _ :: _ =>
      truediv (of_Z (Z.of_nat (length (records self))))
              (max2 (sample_rate_hz self) (of_Z 1))
  end.

(** [max((r.get(channel, 0) for r in self.records), default=0)] *)
Definition max_channel (self : t) (channel : pystr) : float :=
  match List.map (fun r => DatalogRecord.get_or r channel zero) (records self) with
  | [] => zero
  | x :: rest => max_from x rest
  end.

Definition max_rpm (self : t) : float := max_channel self (u "rpm").
Definition max_tps (self : t) : float := max_channel self (u "tps_pct").

(** *** [analyze_wot_afr] *)

(** An entry of the [wot_runs] list of the analysis. *)
Record wot_result : Type := WotResult {
  w_start_idx : nat;
  w_end_idx : nat;
  w_avg_afr : float;
  w_min_afr : float;
  w_max_afr : float;
  w_avg_target : float;
  w_peak_rpm : float;
  w_afr_deviation : float;
  w_lean_spikes : nat;
  w_rich_spots : nat
}.

(** [sum(xs) / len(xs)] *)
Definition mean (xs : list float) : raised + float :=
  truediv_len (sum xs) (length xs).

(** [min(xs)]; [None] stands for the [ValueError] of an empty sequence. *)
Definition py_min (xs : list float) : option float :=
  match xs with
  | [] => None
  | x :: rest => Some (min_from x rest)
  end.

(** [sum(1 for a in xs if test(a))] *)
Definition count_if (test : float -> bool) (xs : list float) : nat :=
  length (List.filter test xs).

(** The body of [for start, end in wot_runs]. *)
Definition wot_run_result (recs : list DatalogRecord.t) (results : list wot_result)
    (run : nat * nat) : raised + list wot_result :=
  let '(start, end_) := run in
  afr_values ← or_raise IndexError
                 (comprehension recs
                    (fun r => DatalogRecord.get_or r (u "afr") AFR_DEFAULT)
                    start end_);
  target_values ← or_raise IndexError
                    (comprehension recs
                       (fun r => DatalogRecord.get_or r (u "target_afr") (dec 128 1))
                       start end_);
  rpm_values ← or_raise IndexError
                 (comprehension recs
                    (fun r => DatalogRecord.get_or r (u "rpm") zero) start end_);
  match afr_values with
  | [] => inr results
  | _ :: _ =>
      avg_afr ← mean afr_values;
      min_afr ← or_raise EmptySequence (py_min afr_values);
      max_afr ← or_raise EmptySequence (py_max afr_values);
      avg_target ← mean target_values;
      peak_rpm ← or_raise EmptySequence (py_max rpm_values);
      afr_deviation ←
        truediv_len (sum (List.map (fun at_ => abs (sub (fst at_) (snd at_)))
                                   (combine afr_values target_values)))
                    (length afr_values);
      inr (results ++
           [ {| w_start_idx := start; w_end_idx := end_;
                w_avg_afr := avg_afr; w_min_afr := min_afr; w_max_afr := max_afr;
                w_avg_target := avg_target; w_peak_rpm := peak_rpm;
                w_afr_deviation := afr_deviation;
                w_lean_spikes := count_if (fun a => gtb a LEAN_LIMIT) afr_values;
                w_rich_spots := count_if (fun a => ltb a RICH_LIMIT) afr_values |} ])
  end.

Fixpoint wot_results_loop (recs : list DatalogRecord.t) (runs : list (nat * nat))
    (results : list wot_result) : raised + list wot_result :=
  match runs with
  | [] => inr results
  | run :: rest =>
      results' ← wot_run_result recs results run;
      wot_results_loop recs rest results'
  end.

Record wot_analysis : Type := WotAnalysis {
  wot_runs : list wot_result;
  total_wot_runs : nat;
  overall_avg_afr : float
}.

Definition analyze_wot_afr (self : t) : raised + wot_analysis :=
  results ← wot_results_loop (records self) (get_wot_runs self (of_Z 85)) [];
  overall ← match results with
            | [] => inr zero
            | _ :: _ =>
                truediv_len (sum (List.map w_avg_afr results)) (length results)
            end;
  inr {| wot_runs := results;
         total_wot_runs := length results;
         overall_avg_afr := overall |}.

(** *** [analyze_idle] *)

Definition is_idle (r : DatalogRecord.t) : bool :=
  gtb (DatalogRecord.get_or r (u "rpm") zero) (of_Z 400)
  && ltb (DatalogRecord.get_or r (u "rpm") zero) (of_Z 1200)
  && ltb (DatalogRecord.get_or r (u "tps_pct") zero) (of_Z 5).

(** The result with [has_idle_data] true. *)
Record idle_data : Type := IdleData {
  i_avg_rpm : float;
  i_rpm_variance : float;
  i_avg_afr : float;
  i_afr_variance : float;
  i_avg_map : float;
  i_map_variance : float;
  idle_samples : nat
}.

(** [max(xs) - min(xs)] *)
Definition spread (xs : list float) : raised + float :=
  hi ← or_raise EmptySequence (py_max xs);
  lo ← or_raise EmptySequence (py_min xs);
  inr (sub hi lo).

(** [inr None] is the result [{has_idle_data: False}]. *)
Definition analyze_idle (self : t) : raised + option idle_data :=
  let idle_records := List.filter is_idle (records self) in
  match idle_records with
  | [] => inr None
  | _ :: _ =>
      let rpms :=
        List.map (fun r => DatalogRecord.get_or r (u "rpm") zero) idle_records in
      let afrs :=
        List.map (fun r => DatalogRecord.get_or r (u "afr") AFR_DEFAULT) idle_records in
      let maps :=
        List.map (fun r => DatalogRecord.get_or r (u "map_kpa") zero) idle_records in
      avg_rpm ← mean rpms;
      rpm_variance ← spread rpms;
      avg_afr ← mean afrs;
      afr_variance ← spread afrs;
      avg_map ← mean maps;
      map_variance ← spread maps;
      inr (Some {| i_avg_rpm := avg_rpm; i_rpm_variance := rpm_variance;
                   i_avg_afr := avg_afr; i_afr_variance := afr_variance;
                   i_avg_map := avg_map; i_map_variance := map_variance;
                   idle_samples := length idle_records |})
  end.

(** *** [analyze_timing] *)

Definition above_500 (r : DatalogRecord.t) : bool :=
  gtb (DatalogRecord.get_or r (u "rpm") zero) (of_Z 500).

(** [(int(rpm) // 500) * 500] *)
Definition rpm_band (rpm : float) : raised + Z :=
  n ← py_int rpm;
  inr (n / 500 * 500)%Z.

(** [for timing, rpm in zip(timing_data, rpm_data)] *)
Fixpoint band_loop (pairs : list (float * float))
    (timing_by_rpm : gmap Z (list float)) : raised + gmap Z (list float) :=
  match pairs with
  | [] => inr timing_by_rpm
  | (timing, rpm) :: rest =>
      band ← rpm_band rpm;
      let timings :=
        match timing_by_rpm !! band with
        | Some l => l
        | None => []
        end in
      band_loop rest (<[ band := timings ++ [timing] ]> timing_by_rpm)
  end.

Record band_summary : Type := BandSummary {
  b_avg : float;
  b_min : float;
  b_max : float
}.

(** The value stored for one band. *)
Definition summarize (timings : list float) : raised + band_summary :=
  avg ← mean timings;
  lo ← or_raise EmptySequence (py_min timings);
  hi ← or_raise EmptySequence (py_max timings);
  inr {| b_avg := avg; b_min := lo; b_max := hi |}.

(** [for rpm_band, timings in timing_by_rpm.items()].  Every exception of
    the body is that of an empty [timings], met first at the division, so
    the order in which the bands are visited does not show in the result. *)
Fixpoint summary_loop (items : list (Z * list float))
    (timing_summary : gmap Z band_summary) : raised + gmap Z band_summary :=
  match items with
  | [] => inr timing_summary
  | (band, timings) :: rest =>
      s ← summarize timings;
      summary_loop rest (<[ band := s ]> timing_summary)
  end.

(** The result with [has_timing_data] true. *)
Record timing_data : Type := TimingData {
  t_overall_avg : float;
  t_overall_max : float;
  t_overall_min : float;
  by_rpm_band : gmap Z band_summary
}.

(** [inr None] is the result [{has_timing_data: False}]. *)
Definition analyze_timing (self : t) : raised + option timing_data :=
  let timings :=
    List.map (fun r => DatalogRecord.get_or r (u "ign_timing_deg") zero)
             (List.filter above_500 (records self)) in
  let rpm_data :=
    List.map (fun r => DatalogRecord.get_or r (u "rpm") zero)
             (List.filter above_500 (records self)) in
  match timings with
  | [] => inr None
  | _ :: _ =>
      timing_by_rpm ← band_loop (combine timings rpm_data) ∅;
      timing_summary ← summary_loop (map_to_list timing_by_rpm) ∅;
      overall_avg ← mean timings;
      overall_max ← or_raise EmptySequence (py_max timings);
      overall_min ← or_raise EmptySequence (py_min timings);
      inr (Some {| t_overall_avg := overall_avg;
                   t_overall_max := overall_max;
                   t_overall_min := overall_min;
                   by_rpm_band := timing_summary |})
  end.

(** *** [get_full_analysis] *)

Record full_analysis : Type := FullAnalysis {
  f_file : pystr;
  f_duration_sec : float;
  f_sample_rate : float;
  f_total_records : nat;
  f_max_rpm : float;
  f_max_tps : float;
  f_wot_analysis : wot_analysis;
  f_ae_analysis : ae_analysis;
  f_idle_analysis : option idle_data;
  f_timing_analysis : option timing_data;
  f_metadata : gmap pystr nat
}.

Definition get_full_analysis (self : t) : raised + full_analysis :=
  duration_sec ← duration_seconds self;
  wot ← analyze_wot_afr self;
  ae ← or_raise EnrichmentError (analyze_acceleration_enrichment self);
  idle ← analyze_idle self;
  timing ← analyze_timing self;
  inr {| f_file := filename self;
         f_duration_sec := duration_sec;
         f_sample_rate := sample_rate_hz self;
         f_total_records := length (records self);
         f_max_rpm := max_rpm self;
         f_max_tps := max_tps self;
         f_wot_analysis := wot;
         f_ae_analysis := ae;
         f_idle_analysis := idle;
         f_timing_analysis := timing;
         f_metadata := metadata self |}.

(** *** [to_csv] *)

Section ToCsv.

(** [str(x)] of a float, as [csv.writer] applies it to a cell. *)
Variable float_str : float -> pystr.

(** The file as [to_csv] meets it: what [open(filepath, 'w', newline='')]
    raises, what [f.write(line)] raises on a file that holds [text] so far
    (the [UnicodeEncodeError] of a character the encoding of the file
    lacks, an [OSError]), and what closing the file raises; [None] when the
    call succeeds. *)
Variable file_open : pystr -> option exn.
Variable file_write : pystr -> pystr -> option exn.
Variable file_close : pystr -> option exn.

(** The row [DictWriter.writerow(rec.data)] builds with
    [fieldnames = self.channels]: a key outside the field names raises
    [ValueError] (its message, which goes on to list the keys, is cut
    short here); a field name the record lacks is written as the empty
    string. *)
Definition dict_writerow (fieldnames : list pystr) (rec : DatalogRecord.t)
    : exn + pystr :=
  if bool_decide (Forall (fun k => k ∈ fieldnames)
                         (map_to_list (DatalogRecord.data rec)).*1)
  then inr (Csv.writerow
              (List.map (fun key =>
                           match DatalogRecord.data rec !! key with
                           | Some v => float_str v
                           | None => []
                           end) fieldnames))
  else inl (ValueError (u "dict contains fields not in fieldnames")).

(** [for rec in self.records: writer.writerow(rec.data)] on a file that
    holds [text]: the text the file holds when the loop ends or is left,
    and the exception that left it. *)
Fixpoint write_rows (fieldnames : list pystr) (recs : list DatalogRecord.t)
    (text : pystr) : pystr * option exn :=
  match recs with
  | [] => (text, None)
  | rec :: rest =>
      match dict_writerow fieldnames rec with
      | inl e => (text, Some e)
      | inr line =>
          match file_write text line with
          | Some e => (text, Some e)
          | None => write_rows fieldnames rest (text ++ line)
          end
      end
  end.

(** [inr None] when the method returns without opening the file,
    [inr (Some text)] when it returns after writing [text], [inl] when it
    raises.  Leaving the [with] block closes the file, also when the block
    raised, and an exception of the closing is the one that is seen. *)
Definition to_csv (self : t) (filepath : pystr) : exn + option pystr :=
  match records self with
  | [] => inr None
  | _ :: _ =>
      match file_open filepath with
      | Some e => inl e
      | None =>
          let header := Csv.writerow (channels self) in
          let '(text, raised) :=
            match file_write [] header with
            | Some e => ([], Some e)
            | None => write_rows (channels self) (records self) header
            end in
          match file_close text, raised with
          | Some e, _ => inl e
          | None, Some e => inl e
          | None, None => inr (Some text)
          end
      end
  end.

End ToCsv.

End SniperDatalog.

(** ** [_parse_text_datalog] *)

(** The synonym table of the text parser: its entries, and the dictionary. *)
Definition column_pairs : list (pystr * pystr) :=
    (List.map (fun p => (u (fst p), u (snd p)))
      [ ("rpm", "rpm"); ("engine rpm", "rpm"); ("eng rpm", "rpm");
        ("map", "map_kpa"); ("map kpa", "map_kpa");
        ("manifold pressure", "map_kpa");
        ("tps", "tps_pct"); ("tps %", "tps_pct"); ("throttle", "tps_pct");
        ("clt", "coolant_temp_f"); ("coolant", "coolant_temp_f");
        ("ect", "coolant_temp_f");
        ("iat", "iat_f"); ("intake temp", "iat_f");
        ("afr", "afr"); ("air fuel", "afr"); ("wbo2", "afr"); ("a/f", "afr");
        ("target afr", "target_afr"); ("tgt afr", "target_afr");
        ("fuel flow", "fuel_flow_lbhr"); ("fuel", "fuel_flow_lbhr");
        ("pw", "inj_pw_ms"); ("pulse width", "inj_pw_ms");
        ("injpw", "inj_pw_ms");
        ("timing", "ign_timing_deg"); ("spark", "ign_timing_deg");
        ("ign timing", "ign_timing_deg");
        ("battery", "battery_v"); ("batt", "battery_v"); ("bat v", "battery_v");
        ("cl comp", "cl_comp_pct"); ("clc", "cl_comp_pct");
        ("learn", "learn_pct");
        ("ae", "ae_active"); ("accel enrich", "ae_active");
        ("iac", "iac_counts");
        ("speed", "vss_mph"); ("vss", "vss_mph"); ("mph", "vss_mph");
        ("fp", "fuel_pressure_psi"); ("fuel pres", "fuel_pressure_psi");
        ("time", "timestamp_ms") ]%string).

Definition column_map : gmap pystr pystr := list_to_map column_pairs.

Section TextParser.

(** [float(s)] on a string; [None] stands for [ValueError]. *)
Variable py_float : pystr -> option float.

(** The body of [for col in columns]. *)
Definition map_column (col : pystr) : pystr :=
  let col_lower := strip (lower col) in
  match column_map !! col_lower with
  | Some mapped => mapped
  | None => replace SPACE UNDERSCORE col_lower
  end.

(** [float(val.strip().strip(q))], 0.0 on [ValueError]. *)
Definition parse_field (val : pystr) : float :=
  match py_float (strip_quotes (strip val)) with
  | Some x => x
  | None => zero
  end.

(** [for col_name, val in zip(mapped_columns, values)] *)
Definition build_record (mapped_columns values : list pystr) : DatalogRecord.t :=
  DatalogRecord.Build
    (fold_left (fun record_data cv => <[ fst cv := parse_field (snd cv) ]> record_data)
               (combine mapped_columns values) ∅).

(** The body of [for line in lines[1:]]. *)
Definition text_row (delimiter : N) (mapped_columns : list pystr)
    (datalog : SniperDatalog.t) (line : pystr) : SniperDatalog.t :=
  let values := split delimiter line in
  if negb (length values =? length mapped_columns) then datalog
  else SniperDatalog.append_record datalog (build_record mapped_columns values).

Definition _parse_text_datalog (text filepath : pystr) : SniperDatalog.t :=
  let datalog := SniperDatalog.set_filename SniperDatalog.init (basename filepath) in
  let lines := split NEWLINE (strip text) in
  if length lines <? 2 then datalog
  else
    match lines with
    | [] => datalog
    | header :: rest =>
        let delimiter := if contains COMMA header then COMMA else TAB in
        let columns :=
          List.map (fun c => strip_quotes (strip c)) (split delimiter header) in
        let mapped_columns := List.map map_column columns in
        let datalog := SniperDatalog.set_channels datalog mapped_columns in
        fold_left (text_row delimiter mapped_columns) rest datalog
    end.

End TextParser.

(** ** Decoding with a count of the attempts *)

(** A computation that calls [struct.unpack_from]: its value and the number
    of calls it made. *)
Record Dec (A : Type) : Type := MkDec { dec_val : A; dec_calls : nat }.

Arguments MkDec {A} _ _.
Arguments dec_val {A} _.
Arguments dec_calls {A} _.

#[global] Instance Dec_ret : MRet Dec := fun A a => MkDec a 0.

#[global] Instance Dec_bind : MBind Dec := fun A B f m =>
  let r := f (dec_val m) in MkDec (dec_val r) (dec_calls m + dec_calls r).

(** One call of [struct.unpack_from('<f', data, offset)]. *)
Definition unpack (data : bytes) (offset : nat) : Dec (option float) :=
  MkDec (unpack_from_f data offset) 1.

(** ** [_parse_binary_datalog] *)

(** The [while offset < min(len(data), 256)] scan for header candidates
    (its result is not used afterwards). *)
Fixpoint header_scan (data : bytes) (offsets : list nat)
    (header_candidates : list (nat * float)) : Dec (list (nat * float)) :=
  match offsets with
  | [] => mret header_candidates
  | offset :: rest =>
      r ← unpack data offset;
      header_scan data rest
        (match r with
         | Some val =>
             if ltb zero val && ltb val (of_Z 10000)
             then header_candidates ++ [(offset, val)]
             else header_candidates
         | None => header_candidates
         end)
  end.

(** [for ch in range(num_channels)]: the floats of one row, [None] when an
    [unpack_from] failed ([rows_valid = False; break]). *)
Fixpoint read_row (data : bytes) (row_offset : nat) (chs : list nat)
    (row_vals : list float) : Dec (option (list float)) :=
  match chs with
  | [] => mret (Some row_vals)
  | ch :: rest =>
      r ← unpack data (row_offset + ch * 4);
      match r with
      | Some val => read_row data row_offset rest (row_vals ++ [val])
      | None => mret None
      end
  end.

Definition has_rpm_like (row_vals : list float) : bool :=
  existsb (fun v => leb zero v && leb v (of_Z 8000)) (take 4 row_vals).

Definition has_map_like (row_vals : list float) : bool :=
  existsb (fun v => leb (of_Z 10) v && leb v (of_Z 250)) (take 8 row_vals).

(** [for row_idx in range(10)]: the pair [(rows_valid, test_rows)]. *)
Fixpoint test_rows_loop (data : bytes) (start_offset row_size num_channels : nat)
    (row_idxs : list nat) (test_rows : list (list float))
    : Dec (bool * list (list float)) :=
  match row_idxs with
  | [] => mret (true, test_rows)
  | row_idx :: rest =>
      let row_offset := start_offset + row_idx * row_size in
      r ← read_row data row_offset (seq 0 num_channels) [];
      match r with
      | None => mret (false, test_rows)
      | Some row_vals =>
          if has_rpm_like row_vals && has_map_like row_vals
          then test_rows_loop data start_offset row_size num_channels rest
                 (test_rows ++ [row_vals])
          else mret (false, test_rows)
      end
  end.

(** [for ch_idx, ch_name in enumerate(channel_names)] *)
Fixpoint decode_record (data : bytes) (row_offset : nat)
    (named : list (nat * pystr)) (record_data : gmap pystr float)
    : Dec (gmap pystr float) :=
  match named with
  | [] => mret record_data
  | (ch_idx, ch_name) :: rest =>
      r ← unpack data (row_offset + ch_idx * 4);
      decode_record data row_offset rest
        (<[ ch_name := match r with Some val => val | None => zero end ]>
           record_data)
  end.

(** [for row_idx in range(total_rows)] *)
Fixpoint decode_rows (data : bytes) (start_offset row_size : nat)
    (channel_names : list pystr) (row_idxs : list nat)
    (datalog : SniperDatalog.t) : Dec SniperDatalog.t :=
  match row_idxs with
  | [] => mret datalog
  | row_idx :: rest =>
      let row_offset := start_offset + row_idx * row_size in
      if length data <? row_offset + row_size then mret datalog
      else
        record_data ← decode_record data row_offset
                        (combine (seq 0 (length channel_names)) channel_names) ∅;
        decode_rows data start_offset row_size channel_names rest
          (SniperDatalog.append_record datalog (DatalogRecord.Build record_data))
  end.

(** [for num_channels in [12, 16, 20, 24, 28, 32]]; the flag tells whether
    the function returned from inside the loop. *)
Fixpoint channels_loop (data : bytes) (start_offset : nat)
    (counts : list nat) (datalog : SniperDatalog.t)
    : Dec (SniperDatalog.t * bool) :=
  match counts with
  | [] => mret (datalog, false)
  | num_channels :: rest =>
      let row_size := num_channels * 4 in
      if length data <? start_offset + row_size * 10
      then channels_loop data start_offset rest datalog
      else
        '(rows_valid, test_rows) ←
          test_rows_loop data start_offset row_size num_channels (seq 0 10) [];
        if rows_valid && (5 <=? length test_rows) then
          let channel_names := take num_channels SNIPER_CHANNELS_keys in
          let datalog := SniperDatalog.set_channels datalog channel_names in
          let total_rows := (length data - start_offset) / row_size in
          datalog ← decode_rows data start_offset row_size channel_names
                      (seq 0 total_rows) datalog;
          match SniperDatalog.records datalog with
          | _ :: _ => mret (datalog, true)
          | [] => channels_loop data start_offset rest datalog
          end
        else channels_loop data start_offset rest datalog
  end.

Definition CHANNEL_COUNTS : list nat := [12; 16; 20; 24; 28; 32].

(** [for start_offset in range(64, min(len(data), 512))] *)
Fixpoint offsets_loop (data : bytes) (starts : list nat)
    (datalog : SniperDatalog.t) : Dec (SniperDatalog.t * bool) :=
  match starts with
  | [] => mret (datalog, false)
  | start_offset :: rest =>
      '(datalog, returned) ← channels_loop data start_offset CHANNEL_COUNTS datalog;
      if (returned : bool) then mret (datalog, true)
      else offsets_loop data rest datalog
  end.

(** Every [unpack_from] of the body sits in its own [try], and nothing else
    in the body raises, so the handler of the enclosing [try] is never
    entered and has no counterpart here. *)
Definition _parse_binary_datalog (data : bytes) (filepath : pystr)
    : Dec SniperDatalog.t :=
  let datalog := SniperDatalog.set_filename SniperDatalog.init (basename filepath) in
  if length data <? 64 then mret datalog
  else
    header_candidates ← header_scan data (seq 0 (Nat.min (length data) 256)) [];
    '(datalog, _) ← offsets_loop data (seq 64 (Nat.min (length data) 512 - 64)) datalog;
    mret datalog.

(** ** [_extract_from_raw] *)

(** [range(0, stop, 4)] *)
Definition range4 (stop : nat) : list nat :=
  List.map (fun k => 4 * k) (seq 0 ((stop + 3) / 4)).

(** [for i in range(0, len(data) - 4, 4)] *)
Fixpoint raw_scan (data : bytes) (offsets : list nat)
    (floats_found : list float) : Dec (list float) :=
  match offsets with
  | [] => mret floats_found
  | i :: rest =>
      r ← unpack data i;
      raw_scan data rest
        (match r with
         | Some val =>
             if ltb (of_Z (-1000)) val && ltb val (of_Z 10000) && eqb val val
             then floats_found ++ [val]
             else floats_found
         | None => floats_found
         end)
  end.

Definition _extract_from_raw (data : bytes) (filepath : pystr)
    : Dec SniperDatalog.t :=
  let datalog := SniperDatalog.set_filename SniperDatalog.init (basename filepath) in
  let datalog := SniperDatalog.set_channels datalog SNIPER_CHANNELS_keys in
  floats_found ← raw_scan data (range4 (length data - 4)) [];
  mret (match floats_found with
        | [] => datalog
        | _ :: _ =>
            SniperDatalog.set_metadata datalog
              (<[ u "file_size_bytes" := length data ]>
                 (<[ u "raw_floats_found" := length floats_found ]>
                    (SniperDatalog.metadata datalog)))
        end).

(** ** [bytes.decode('utf-8', errors='replace')] *)

Definition REPLACEMENT : N := 65533%N.

Definition is_cont (b : N) : bool := ((128 <=? b) && (b <=? 191))%N.

(** The second byte a lead byte of a three- or four-byte sequence admits. *)
Definition second_ok (b0 b1 : N) : bool :=
  (is_cont b1
   && negb ((b0 =? 224) && (b1 <? 160))
   && negb ((b0 =? 237) && (160 <=? b1))
   && negb ((b0 =? 240) && (b1 <? 144))
   && negb ((b0 =? 244) && (144 <=? b1)))%N.

(** Well-formed sequences yield their code point; an ill-formed one yields
    U+FFFD for its longest well-formed prefix (one byte at least) and
    decoding resumes after it. *)
Fixpoint utf8_decode (bs : list N) : pystr :=
  match bs with
  | [] => []
  | b0 :: r0 =>
      if (b0 <? 128)%N then b0 :: utf8_decode r0
      else if ((b0 <? 194) || (245 <=? b0))%N then REPLACEMENT :: utf8_decode r0
      else if (b0 <? 224)%N then
        match r0 with
        | [] => [REPLACEMENT]
        | b1 :: r1 =>
            if is_cont b1
            then ((b0 - 192) * 64 + (b1 - 128))%N :: utf8_decode r1
            else REPLACEMENT :: utf8_decode r0
        end
      else
        match r0 with
        | [] => [REPLACEMENT]
        | b1 :: r1 =>
            if negb (second_ok b0 b1) then REPLACEMENT :: utf8_decode r0
            else
              match r1 with
              | [] => [REPLACEMENT]
              | b2 :: r2 =>
                  if negb (is_cont b2) then REPLACEMENT :: utf8_decode r1
                  else if (b0 <? 240)%N then
                    ((b0 - 224) * 4096 + (b1 - 128) * 64 + (b2 - 128))%N
                      :: utf8_decode r2
                  else
                    match r2 with
                    | [] => [REPLACEMENT]
                    | b3 :: r3 =>
                        if is_cont b3
                        then ((b0 - 240) * 262144 + (b1 - 128) * 4096
                              + (b2 - 128) * 64 + (b3 - 128))%N
                               :: utf8_decode r3
                        else REPLACEMENT :: utf8_decode r2
                    end
              end
        end
  end.

Definition decode_utf8_replace (data : bytes) : pystr :=
  utf8_decode (List.map Byte.to_N data).

(** ** [parse_dlz_file] *)

(** What a call leaves behind: the object it returns, and the other
    [SniperDatalog] objects the name [datalog] was bound to on the way, in
    the state the call left them. *)
Record outcome : Type := Outcome {
  returned : SniperDatalog.t;
  dropped : list SniperDatalog.t
}.

Definition try_except {A : Type} (body : exn + A) (handler : exn -> exn + A)
    : exn + A :=
  match body with
  | inl e => handler e
  | inr a => inr a
  end.

Definition has_records (d : SniperDatalog.t) : bool :=
  match SniperDatalog.records d with
  | [] => false
  | _ :: _ => true
  end.

Definition unparsed_note (raw_data : bytes) : pystr :=
  u "Could not fully parse proprietary DLZ format. " ++
  u "File size: " ++ str_nat (length raw_data) ++ u " bytes. " ++
  u "For best results, export from Holley software as CSV.".

Section Pipeline.

(** [zlib.decompress(data, wbits)]; [None] stands for [zlib.error]. *)
Variable zlib_decompress : Z -> bytes -> option bytes.

(** [float(s)]; [None] stands for [ValueError]. *)
Variable py_float : pystr -> option float.

(** The decompression step of the [try] block. *)
Definition decompress (filepath : pystr) (raw_data : bytes) : bytes :=
  if endswith (lower filepath) (u ".dlz") then
    match zlib_decompress 15 raw_data with
    | Some d => d
    | None =>
        match zlib_decompress (-15) raw_data with
        | Some d => d
        | None => raw_data
        end
    end
  else raw_data.

(** [fs filepath] is what [open(filepath, 'rb')] and [f.read()] give: the
    bytes of the file or the exception raised.  It is the only statement of
    the [try] block that can raise, and [datalog] is then still the object
    created on entry. *)
Definition parse_dlz_file (fs : pystr -> exn + bytes) (filepath : pystr)
    : exn + outcome :=
  let datalog0 := SniperDatalog.set_filename SniperDatalog.init (basename filepath) in
  try_except
    (match fs filepath with
     | inl e => inl e
     | inr raw_data =>
         let decompressed := decompress filepath raw_data in
         let text_data := decode_utf8_replace decompressed in
         let text_tried :=
           contains COMMA (take 500 text_data) || contains TAB (take 500 text_data) in
         let datalog1 := _parse_text_datalog py_float text_data filepath in
         if text_tried && has_records datalog1
         then inr {| returned := datalog1; dropped := [datalog0] |}
         else
           let seen := if text_tried then [datalog0; datalog1] else [datalog0] in
           let datalog2 := dec_val (_parse_binary_datalog decompressed filepath) in
           if has_records datalog2
           then inr {| returned := datalog2; dropped := seen |}
           else
             (* the note goes to the object of the binary parser ... *)
             let datalog2 := SniperDatalog.append_error datalog2 (unparsed_note raw_data) in
             (* ... and the name is bound anew *)
             let datalog3 := dec_val (_extract_from_raw decompressed filepath) in
             inr {| returned := datalog3; dropped := seen ++ [datalog2] |}
     end)
    (fun e =>
       inr {| returned := SniperDatalog.append_error datalog0
                            (u "Error reading file: " ++ str_exn e);
              dropped := [] |}).

End Pipeline.

(** Records that carry only a throttle position, for the examples. *)
Definition tps_record (z : Z) : DatalogRecord.t :=
  DatalogRecord.Build {[ u "tps_pct" := of_Z z ]}.

Definition tps_log (zs : list Z) : SniperDatalog.t :=
  SniperDatalog.set_records SniperDatalog.init (List.map tps_record zs).

(** Records that carry only an [ae_active] flag and an [afr] reading. *)
Definition ae_record (flag : Z) (afr : float) : DatalogRecord.t :=
  DatalogRecord.Build (<[ u "ae_active" := of_Z flag ]> {[ u "afr" := afr ]}).

Definition ae_log (l : list (Z * float)) : SniperDatalog.t :=
  SniperDatalog.set_records SniperDatalog.init
    (List.map (fun p => ae_record (fst p) (snd p)) l).

(** ** Vocabulary of the acceleration-enrichment properties *)

Section AE_vocabulary.

Import SniperDatalog.

(** Truth value of a record's [ae_active] channel, as the loop reads it. *)
Definition ae_flag (r : DatalogRecord.t) : bool :=
  truthy (DatalogRecord.get_or r (u "ae_active") zero).

(** Number of falling edges of a flag sequence read from state [active]. *)
Fixpoint falling_edges (active : bool) (flags : list bool) : nat :=
  match flags with
  | [] => 0
  | f :: fs => (if negb f && active then 1 else 0) + falling_edges f fs
  end.

(** What holds of every entry appended while scanning below index [bound]. *)
Definition ae_event_ok (recs : list DatalogRecord.t) (bound : nat)
    (ev : ae_event) : Prop :=
  ev_start ev < ev_end ev /\ ev_end ev < bound
  /\ duration_samples ev = ev_end ev - ev_start ev
  /\ length (afr_during ev)
     = Nat.min (ev_end ev + 10) (length recs) - ev_start ev.




Definition open_ae_log : t :=
  ae_log [(0, of_Z 14); (1, of_Z 13); (0, of_Z 13); (1, of_Z 12); (1, of_Z 12)]%Z.

(** 21 pulses of the flag, one sample each. *)
Definition pulsed_ae_log : t :=
  ae_log (List.concat (List.repeat [(1, of_Z 13); (0, of_Z 13)]%Z 21)).

End AE_vocabulary.

(** ** Vocabulary of the WOT-run properties *)

(** Segments listed in ascending order, each ending before the next starts. *)
Definition segments_sorted (runs : list (nat * nat)) : Prop :=
  forall (j k : nat) (r1 r2 : nat * nat),
    j < k -> runs !! j = Some r1 -> runs !! k = Some r2 -> snd r1 < fst r2.

(** Length of a segment read as the half-open range [[start, end)], the
    reading under which a run closed by a below-threshold sample covers
    exactly its own samples and under which [analyze_wot_afr] slices. *)
Definition segment_length (r : nat * nat) : nat := snd r - fst r.

(** ** Reference instances of the Python built-ins, for the closed examples

    The theorems below hold for every [py_float], [float_str] and
    [zlib_decompress]; the closed examples need concrete ones. *)

Definition digit_value (c : N) : option Z :=
  if ((48 <=? c) && (c <=? 57))%N then Some (Z.of_N (c - 48)) else None.

(** The integer a run of decimal digits denotes; [None] when a character is
    not a digit. *)
Fixpoint digits_value (acc : Z) (s : pystr) : option Z :=
  match s with
  | [] => Some acc
  | c :: rest =>
      match digit_value c with
      | Some d => digits_value (10 * acc + d) rest
      | None => None
      end
  end.

(** [float(s)] on plain decimal literals: an optional sign, then digits
    with at most one point among them, 15 digits at most in all (so that
    the quotient is the correctly rounded value).  Every other string is
    refused, which departs from Python on the literals not covered
    (exponents, infinities, NaN, underscores, longer digit strings). *)
Definition float_of_plain_decimal (s : pystr) : option float :=
  let '(neg, body) :=
    match s with
    | 45%N :: rest => (true, rest)
    | 43%N :: rest => (false, rest)
    | _ => (false, s)
    end in
  match split 46 body with
  | [ip] =>
      if bool_decide (ip = []) || (15 <? length ip) then None
      else n ← digits_value 0 ip;
           Some (if neg then SFopp (of_Z n) else of_Z n)
  | [ip; fp] =>
      if bool_decide (ip ++ fp = []) || (15 <? length ip + length fp) then None
      else n ← digits_value 0 (ip ++ fp);
           Some (if neg then SFopp (dec n (length fp)) else dec n (length fp))
  | _ => None
  end.

(** [round(m * 2^e * 10^j)] to the nearest integer, ties to even. *)
Definition scaled_round (m : positive) (e : Z) (j : nat) : Z :=
  let num := (Z.pos m * 10 ^ Z.of_nat j)%Z in
  if (0 <=? e)%Z then (num * 2 ^ e)%Z
  else
    let den := (2 ^ (- e))%Z in
    let q := (num / den)%Z in
    let r := (num mod den)%Z in
    match (2 * r ?= den)%Z with
    | Lt => q
    | Gt => (q + 1)%Z
    | Eq => if Z.even q then q else (q + 1)%Z
    end.

(** The digits of [n] with a point before the last [j] of them. *)
Definition fixed_text (n : Z) (j : nat) : pystr :=
  let ds := str_nat (Z.to_nat n) in
  let ds := List.repeat 48%N (S j - length ds) ++ ds in
  let ip := take (length ds - j) ds in
  let fp := drop (length ds - j) ds in
  ip ++ [46%N] ++ (match fp with [] => [48%N] | _ => fp end).

(** The fewest decimals, 16 at most, whose nearest decimal reads back as the
    float. *)
Fixpoint shortest_fixed (m : positive) (e : Z) (j fuel : nat) : option pystr :=
  match fuel with
  | 0 => None
  | S fuel' =>
      let n := scaled_round m e j in
      if (n <? 2 ^ 53)%Z
         && bool_decide (dec n j = S754_finite false m e)
      then Some (fixed_text n j)
      else shortest_fixed m e (S j) fuel'
  end.

(** [str(x)] for a float whose shortest text is in fixed notation with at
    most 16 decimals, for the zeros, the infinities and NaN.  On every
    other float the result is the empty string, which is not Python's. *)
Definition float_str_fixed (x : float) : pystr :=
  match x with
  | S754_zero s => if s then u "-0.0" else u "0.0"
  | S754_infinity s => if s then u "-inf" else u "inf"
  | S754_nan => u "nan"
  | S754_finite s m e =>
      match shortest_fixed m e 0 17 with
      | Some t => if s then 45%N :: t else t
      | None => []
      end
  end.

(** A [zlib.decompress] that rejects every input. *)
Definition zlib_rejects (wbits : Z) (data : bytes) : option bytes := None.

(** File systems: one where every path holds [content], one where no path
    can be opened. *)
Definition fs_with (content : bytes) (path : pystr) : exn + bytes :=
  inr content.

Definition fs_without (path : pystr) : exn + bytes :=
  inl (OSError (u "[Errno 2] No such file or directory")).


(** A file that every path opens and that takes every write. *)
Definition opens_any (path : pystr) : option exn := None.
Definition writes_any (text line : pystr) : option exn := None.
Definition closes_any (text : pystr) : option exn := None.
(** ** Vocabulary of the binary-recovery properties *)

(** The floats of row [r] of a layout, [None] when the buffer ends before
    the row does. *)
Definition row_floats (data : bytes) (off nc r : nat) : option (list float) :=
  mapM (fun c => unpack_from_f data (off + r * (nc * 4) + c * 4)) (seq 0 nc).

Definition in_range (lo hi : Z) (v : float) : bool :=
  leb (of_Z lo) v && leb v (of_Z hi).

(** A row is plausible when one of its first 4 floats is in 0..8000 and one
    of its first 8 floats is in 10..250. *)
Definition row_plausible (row : list float) : bool :=
  existsb (in_range 0 8000) (take 4 row) && existsb (in_range 10 250) (take 8 row).

(** A candidate validates when the region holds 10 full rows and each of
    the first 10 rows is plausible. *)
Definition candidate_validates (data : bytes) (c : nat * nat) : bool :=
  (fst c + snd c * 4 * 10 <=? length data)
  && forallb (fun r => match row_floats data (fst c) (snd c) r with
                       | Some row => row_plausible row
                       | None => false
                       end) (seq 0 10).

(** The candidates in search order: offsets 64..511 (below the length of
    the buffer) outside, channel counts inside. *)
Definition candidates (data : bytes) : list (nat * nat) :=
  flat_map (fun off => List.map (pair off) CHANNEL_COUNTS)
           (seq 64 (Nat.min (length data) 512 - 64)).

(** The datalog decoded with a given layout: the first [nc] catalog names
    as channels, one record per full row from [off] on. *)
Definition layout_datalog (data : bytes) (filepath : pystr) (c : nat * nat)
    : SniperDatalog.t :=
  let names := take (snd c) SNIPER_CHANNELS_keys in
  dec_val
    (decode_rows data (fst c) (snd c * 4) names
       (seq 0 ((length data - fst c) / (snd c * 4)))
       (SniperDatalog.set_channels
          (SniperDatalog.set_filename SniperDatalog.init (basename filepath))
          names)).

(** The single-precision pattern of 100.0 and of 1e9, little-endian. *)
Definition F100 : bytes := [x00; x00; xc8; x42]%byte.
Definition F1E9 : bytes := [x28; x6b; x6e; x4e]%byte.

(** A buffer of 64 header bytes and 10 rows of 16 floats, each row holding
    100.0 first and 1e9 in the other 15 places: at offset 64 the count 12
    fails on its second row, the count 16 validates. *)
Definition sixteen_channel_buffer : bytes :=
  List.repeat x00%byte 64
  ++ List.concat (List.repeat (F100 ++ List.concat (List.repeat F1E9 15)) 10).

(** ** Vocabulary of the raw-extraction properties *)

Definition is_finite (v : float) : bool :=
  match v with
  | S754_zero _ | S754_finite _ _ _ => true
  | S754_infinity _ | S754_nan => false
  end.

(** Finite and strictly between -1000 and 10000. *)
Definition raw_plausible (v : float) : bool :=
  is_finite v && ltb (of_Z (-1000)) v && ltb v (of_Z 10000).

(** The float at [i] is decodable and plausible. *)
Definition raw_hit (data : bytes) (i : nat) : bool :=
  match unpack_from_f data i with
  | Some v => raw_plausible v
  | None => false
  end.

(** The single-precision pattern of 1.0 and of 2.0, little-endian. *)
Definition F1 : bytes := [x00; x00; x80; x3f]%byte.
Definition F2 : bytes := [x00; x00; x00; x40]%byte.

(** ** Vocabulary of the export round trip *)

(** A cell text that [csv.writer] leaves unquoted and that survives
    stripping: not empty, no white space, no comma, no quote. *)
Definition plain_cell (s : pystr) : bool :=
  negb (bool_decide (s = []))
  && forallb (fun c => negb (isspace c || (c =? COMMA) || (c =? QUOTE))%N) s.

(** No channel name holds a double quote. *)
Definition quote_free (d : SniperDatalog.t) : Prop :=
  Forall (fun name => contains QUOTE name = false) (SniperDatalog.channels d).

(** [str] writes every value of the datalog as a plain cell that [float]
    reads back as the same value. *)
Definition numbers_round_trip (float_str : float -> pystr)
    (py_float : pystr -> option float) (d : SniperDatalog.t) : Prop :=
  Forall (fun r =>
            map_Forall (fun (_ : pystr) v =>
                          plain_cell (float_str v) = true
                          /\ py_float (float_str v) = Some v)
                       (DatalogRecord.data r))
         (SniperDatalog.records d).

(** The text a row of fields is written as, without its line end. *)
Definition row_text (fields : list pystr) : pystr :=
  match fields with
  | [[]] => [QUOTE; QUOTE]
  | _ => join [COMMA] (List.map Csv.field fields)
  end.

(** [parts] with [w] appended to its last element. *)
Fixpoint app_last (parts : list pystr) (w : pystr) : list pystr :=
  match parts with
  | [] => []
  | [p] => [p ++ w]
  | p :: ps => p :: app_last ps w
  end.

(** The lines of a text written with CR LF line ends and split at LF after
    stripping: every line but the last keeps its CR. *)
Fixpoint crlf_lines (texts : list pystr) : list pystr :=
  match texts with
  | [] => []
  | [t] => [t]
  | t :: ts => (t ++ [CR]) :: crlf_lines ts
  end.

(** Only code points up to U+00FF, the range on which [lower] is the
    [str.lower] of Python. *)
Definition latin1 (s : pystr) : bool := forallb (fun c => (c <=? 255)%N) s.

(** The header line of a text, as the text parser takes it. *)
Definition header_line (text : pystr) : pystr :=
  hd [] (split NEWLINE (strip text)).

(** What the text parser guarantees of a channel name. *)
Definition name_ok (name : pystr) : Prop :=
  contains COMMA name = false
  /\ contains NEWLINE name = false
  /\ strip name = name
  /\ map_column name = name.

(** The boolean form of [name_ok], with the absence of tabs and spaces. *)
Definition name_okb (name : pystr) : bool :=
  negb (contains COMMA name) && negb (contains NEWLINE name)
  && negb (contains TAB name)
  && pystr_eqb (strip name) name && pystr_eqb (map_column name) name.

(** The datalog the text parser builds from channel names and records. *)
Definition parsed_datalog (names : list pystr) (recs : list DatalogRecord.t)
    (filepath : pystr) : SniperDatalog.t :=
  {| SniperDatalog.records := recs; SniperDatalog.channels := names;
     SniperDatalog.sample_rate_hz := of_Z 10; SniperDatalog.metadata := ∅;
     SniperDatalog.filename := basename filepath;
     SniperDatalog.parse_errors := [] |}.

(** A character is clear of [p] at the head, at the end of a string. *)
Definition head_clear (p : N -> bool) (s : pystr) : Prop :=
  exists x rest, s = x :: rest /\ p x = false.

Definition last_clear (p : N -> bool) (s : pystr) : Prop :=
  exists init y, s = init ++ [y] /\ p y = false.

(** The trailer a line or a field can carry after splitting at LF. *)
Definition cr_or_none (w : pystr) : Prop := w = [] \/ w = [CR].

(** The text a CSV export is written as, from the texts of its rows. *)
Definition crlf_text (texts : list pystr) : pystr :=
  concat (List.map (fun t => t ++ [CR; NEWLINE]) texts).

(** The cells [DictWriter] writes for a record. *)
Definition record_cells (float_str : float -> pystr) (names : list pystr)
    (r : DatalogRecord.t) : list pystr :=
  List.map (fun key => match DatalogRecord.data r !! key with
                       | Some v => float_str v
                       | None => []
                       end) names.

(** A record with exactly the channel names as keys, whose values are
    written as plain cells that read back as themselves. *)
Definition record_ok (float_str : float -> pystr)
    (py_float : pystr -> option float) (names : list pystr)
    (r : DatalogRecord.t) : Prop :=
  (forall key, is_Some (DatalogRecord.data r !! key) <-> key ∈ names)
  /\ map_Forall (fun (_ : pystr) v =>
                   plain_cell (float_str v) = true
                   /\ py_float (float_str v) = Some v)
                (DatalogRecord.data r).

(** The text of a header field: a lone empty name is written as two quotes. *)
Definition header_field (names : list pystr) (name : pystr) : pystr :=
  if bool_decide (names = [[]]) then [QUOTE; QUOTE] else Csv.field name.

(** The text: a, quote, b, comma, c, LF, 1, comma, 2 (a quote inside a
    column name); and a text whose only data line
    has the wrong number of fields. *)
Definition quoted_name_text : pystr :=
  [97; 34; 98; 44; 99; 10; 49; 44; 50]%N.

Definition short_row_text : pystr := u "a,b" ++ [NEWLINE] ++ u "1".

Definition sample_csv_text : pystr :=
  u "RPM,Eng RPM, AFR ,my col" ++ [NEWLINE] ++
  u "850,851,14.7,3" ++ [NEWLINE] ++
  u "900,901,13.2,4.5" ++ [NEWLINE] ++
  u "bad" ++ [NEWLINE].

(** The datalogs parsed from the two texts, with the reference built-ins,
    and the text the first is exported as: quote, a, quote, quote, b,
    quote, comma, c, CR, LF, then 1.0, comma, 2.0, CR, LF. *)
Definition quoted_name_log : SniperDatalog.t :=
  _parse_text_datalog float_of_plain_decimal quoted_name_text (u "log.csv").

Definition quoted_name_export : pystr :=
  [34; 97; 34; 34; 98; 34; 44; 99; 13; 10]%N ++ u "1.0,2.0" ++ [CR; NEWLINE].

Definition short_row_log : SniperDatalog.t :=
  _parse_text_datalog float_of_plain_decimal short_row_text (u "log.csv").

Definition sample_csv_log : SniperDatalog.t :=
  _parse_text_datalog float_of_plain_decimal sample_csv_text (u "log.csv").


(** The text [sample_csv_log] is exported as. *)
Definition sample_csv_export : pystr :=
  crlf_text
    (row_text (SniperDatalog.channels sample_csv_log)
     :: List.map (fun r => row_text (record_cells float_str_fixed
                                      (SniperDatalog.channels sample_csv_log) r))
                 (SniperDatalog.records sample_csv_log)).
(** ** Vocabulary of the run and event properties *)

(** The throttle reading [get_wot_runs] takes from a record. *)
Definition tps_of (r : DatalogRecord.t) : float :=
  DatalogRecord.get_or r (u "tps_pct") zero.

(** What a reported segment [(start, end)] says of the samples: the sample
    at [start] is at or above the threshold and the one before it is not;
    no sample from [start] up to [end] compares below the threshold; and
    either the sample at [end] is below the threshold, or [end] is the last
    index and that sample is not below it either. *)
Definition wot_run_sound (recs : list DatalogRecord.t) (thr : float)
    (run : nat * nat) : Prop :=
  (exists r, recs !! fst run = Some r /\ geb (tps_of r) thr = true)
  /\ (forall i r, fst run <= i < snd run -> recs !! i = Some r ->
      ltb (tps_of r) thr = false)
  /\ (forall r, 0 < fst run -> recs !! (fst run - 1) = Some r ->
      geb (tps_of r) thr = false)
  /\ ((exists r, recs !! snd run = Some r /\ ltb (tps_of r) thr = true)
      \/ (snd run = length recs - 1
          /\ forall r, recs !! snd run = Some r -> ltb (tps_of r) thr = false)).

(** The index range of an enrichment event. *)
Definition ev_range (ev : SniperDatalog.ae_event) : nat * nat :=
  (SniperDatalog.ev_start ev, SniperDatalog.ev_end ev).

(** What an entry of [ae_events] says of the samples: the flag is set on
    every sample from [start] up to [end], clear at [end] and clear just
    before [start]; the peak is the maximum of [tps_roc] over the event and
    the trace is the [afr] channel from [start] to 10 samples past [end],
    cut at the end of the data. *)
Definition ae_event_exact (recs : list DatalogRecord.t)
    (ev : SniperDatalog.ae_event) : Prop :=
  let start := SniperDatalog.ev_start ev in
  let end_ := SniperDatalog.ev_end ev in
  start < end_ < length recs
  /\ SniperDatalog.duration_samples ev = end_ - start
  /\ (forall i r, start <= i < end_ -> recs !! i = Some r -> ae_flag r = true)
  /\ (exists r, recs !! end_ = Some r /\ ae_flag r = false)
  /\ (forall r, 0 < start -> recs !! (start - 1) = Some r -> ae_flag r = false)
  /\ SniperDatalog.py_max
       ((fun r => DatalogRecord.get_or r (u "tps_roc") zero)
          <$> take (end_ - start) (drop start recs))
     = Some (SniperDatalog.peak_tps_roc ev)
  /\ SniperDatalog.afr_during ev
     = (fun r => DatalogRecord.get_or r (u "afr") SniperDatalog.AFR_DEFAULT)
         <$> take (Nat.min (end_ + 10) (length recs) - start) (drop start recs).

Section RunInvariants.

Import SniperDatalog.

(** The invariant of the loop of [get_wot_runs] before the record at
    index [i], on the samples. *)
Definition wot_samples_inv (recs : list DatalogRecord.t) (thr : float)
    (st : wot_state) (i : nat) : Prop :=
  Forall (fun run =>
            (exists r, recs !! fst run = Some r /\ geb (tps_of r) thr = true)
            /\ (forall j r, fst run <= j < snd run -> recs !! j = Some r ->
                ltb (tps_of r) thr = false)
            /\ (forall r, 0 < fst run -> recs !! (fst run - 1) = Some r ->
                geb (tps_of r) thr = false)
            /\ (exists r, recs !! snd run = Some r /\ ltb (tps_of r) thr = true))
         (runs st)
  /\ (in_wot st = true ->
      start_idx st < i
      /\ (exists r, recs !! start_idx st = Some r /\ geb (tps_of r) thr = true)
      /\ (forall j r, start_idx st <= j < i -> recs !! j = Some r ->
          ltb (tps_of r) thr = false)
      /\ (forall r, 0 < start_idx st -> recs !! (start_idx st - 1) = Some r ->
          geb (tps_of r) thr = false))
  /\ (in_wot st = false ->
      forall r, 0 < i -> recs !! (i - 1) = Some r -> geb (tps_of r) thr = false).

(** The invariant of the detection loop of
    [analyze_acceleration_enrichment] before the record at index [i]. *)
Definition ae_samples_inv (recs : list DatalogRecord.t) (st : ae_state)
    (i : nat) : Prop :=
  Forall (ae_event_exact recs) (ae_acc st)
  /\ segments_sorted (ev_range <$> ae_acc st)
  /\ Forall (fun ev => ev_end ev < (if ae_active st then ae_start_idx st else i))
            (ae_acc st)
  /\ (ae_active st = true ->
      ae_start_idx st < i
      /\ (forall j r, ae_start_idx st <= j < i -> recs !! j = Some r ->
          ae_flag r = true)
      /\ (forall r, 0 < ae_start_idx st -> recs !! (ae_start_idx st - 1) = Some r ->
          ae_flag r = false))
  /\ (ae_active st = false ->
      forall r, 0 < i -> recs !! (i - 1) = Some r -> ae_flag r = false).

End RunInvariants.
(** ** Vocabulary of the analysis properties *)

Section AnalysisVocabulary.

Import SniperDatalog.

Definition rpm_of (r : DatalogRecord.t) : float :=
  DatalogRecord.get_or r (u "rpm") zero.

Definition afr_of (r : DatalogRecord.t) : float :=
  DatalogRecord.get_or r (u "afr") AFR_DEFAULT.

Definition timing_of (r : DatalogRecord.t) : float :=
  DatalogRecord.get_or r (u "ign_timing_deg") zero.

Definition PLUS_INFINITY : float := S754_infinity false.

Definition is_nan (x : float) : bool :=
  match x with
  | S754_nan => true
  | _ => false
  end.

(** The samples of a half-open index range. *)
Definition samples (recs : list DatalogRecord.t) (start end_ : nat)
    : list DatalogRecord.t :=
  take (end_ - start) (drop start recs).

(** What an entry of [wot_runs] says: it covers the samples from
    [start_idx] up to, not including, [end_idx]; its average and peak are
    taken over these; no sample is counted both as a lean spike and as a
    rich spot. *)
Definition wot_result_ok (recs : list DatalogRecord.t) (w : wot_result) : Prop :=
  w_start_idx w < w_end_idx w < length recs
  /\ mean (afr_of <$> samples recs (w_start_idx w) (w_end_idx w))
     = inr (w_avg_afr w)
  /\ py_max (rpm_of <$> samples recs (w_start_idx w) (w_end_idx w))
     = Some (w_peak_rpm w)
  /\ w_lean_spikes w + w_rich_spots w <= w_end_idx w - w_start_idx w.

Definition w_range (w : wot_result) : nat * nat := (w_start_idx w, w_end_idx w).

(** The record belongs to the rpm band [band]. *)
Definition in_band (band : Z) (r : DatalogRecord.t) : bool :=
  match rpm_band (rpm_of r) with
  | inr b => (b =? band)%Z
  | inl _ => false
  end.

(** The timing readings of the records above 500 rpm that fall in [band],
    in the order of the log. *)
Definition timing_group (self : t) (band : Z) : list float :=
  timing_of <$> List.filter (fun r => above_500 r && in_band band r) (records self).

(** A band's list after more readings [g] were appended to it. *)
Definition grouped (old : option (list float)) (g : list float)
    : option (list float) :=
  match g with
  | [] => old
  | _ :: _ => Some (default [] old ++ g)
  end.

(** The summary stored for a band with the readings [g]; none for an
    empty [g]. *)
Definition summary_value (g : list float) : option band_summary :=
  match summarize g with
  | inr s => Some s
  | inl _ => None
  end.

(** Records that carry an engine speed and an ignition timing. *)
Definition timing_record (rpm timing : float) : DatalogRecord.t :=
  DatalogRecord.Build (<[ u "rpm" := rpm ]> {[ u "ign_timing_deg" := timing ]}).

Definition timing_log (l : list (float * float)) : t :=
  set_records init (List.map (fun p => timing_record (fst p) (snd p)) l).

Definition sample_timing_log : t :=
  timing_log [(of_Z 900, of_Z 12); (of_Z 2600, of_Z 28); (of_Z 450, of_Z 10);
              (of_Z 2999, of_Z 30); (of_Z 3000, of_Z 32)].

(** The single-precision pattern of +infinity, little-endian. *)
Definition FINF : bytes := [x00; x00; x80; x7f]%byte.

(** A buffer of 64 header bytes and 10 rows of 12 floats, each row holding
    100.0 first, +infinity in the place of the engine speed and 100.0 in
    the other places. *)
Definition infinite_rpm_buffer : bytes :=
  List.repeat x00%byte 64
  ++ List.concat
       (List.repeat (F100 ++ FINF ++ List.concat (List.repeat F100 10)) 10).

End AnalysisVocabulary.

(** ** Vocabulary of the export and pipeline properties *)

(** Every key of the record is one of the names. *)
Definition keys_within (names : list pystr) (r : DatalogRecord.t) : Prop :=
  forall key, is_Some (DatalogRecord.data r !! key) -> key ∈ names.

(** The text [to_csv] writes: the header row, then one row per record. *)
Definition csv_export (float_str : float -> pystr) (d : SniperDatalog.t) : pystr :=
  Csv.writerow (SniperDatalog.channels d)
  ++ concat (List.map
               (fun r => Csv.writerow (record_cells float_str
                                         (SniperDatalog.channels d) r))
               (SniperDatalog.records d)).

(** What holds of every datalog [parse_dlz_file] returns. *)
Definition well_formed (filepath : pystr) (d : SniperDatalog.t) : Prop :=
  SniperDatalog.filename d = basename filepath
  /\ SniperDatalog.sample_rate_hz d = of_Z 10
  /\ Forall (fun r => forall key,
               is_Some (DatalogRecord.data r !! key)
               <-> key ∈ SniperDatalog.channels d)
            (SniperDatalog.records d).

(** The floats of Python: the members of the double-precision format. *)
Definition is_double (x : float) : bool := valid_binary prec emax x.
(* ===================================================================== *)
(** * Properties *)
(* ===================================================================== *)

(** ** Channel lookup on a record *)

Definition empty_record : DatalogRecord.t := DatalogRecord.Build ∅.

(** C5, as stated, fails: on a record without the channel, [get] called
    without a default returns Python's [None], not 0.0. *)
Lemma get_absent_without_default :
  DatalogRecord.data empty_record !! u "rpm" = None
  /\ DatalogRecord.get empty_record (u "rpm") None <> Some zero.
Proof. split; [reflexivity | discriminate]. Qed.

(** C5, amended: for a channel absent from the record, [get] returns the
    default its caller passed ([None] when omitted) and never fails;
    [get_channel_data] passes 0.0, so it yields 0.0 at every record that
    lacks the channel. *)
Theorem get_absent_returns_default
    (self : SniperDatalog.t) (r : DatalogRecord.t) (key : pystr)
    (default : option float) (i : nat) :
  DatalogRecord.data r !! key = None ->
  SniperDatalog.records self !! i = Some r ->
  DatalogRecord.get r key default = default
  /\ SniperDatalog.get_channel_data self key !! i = Some zero.
Proof.
  intros Habs Hi. split.
  - unfold DatalogRecord.get. now rewrite Habs.
  - unfold SniperDatalog.get_channel_data.
    change (List.map ?f ?l) with (f <$> l).
    rewrite list_lookup_fmap, Hi. simpl.
    unfold DatalogRecord.get_or, DatalogRecord.get. now rewrite Habs.
Qed.

Lemma get_absent_returns_default_witness :
  DatalogRecord.get (tps_record 90) (u "afr") (Some (dec 147 1)) = Some (dec 147 1)
  /\ SniperDatalog.get_channel_data (tps_log [90]%Z) (u "afr") !! 0 = Some zero.
Proof.
  apply (get_absent_returns_default (tps_log [90]%Z) (tps_record 90) (u "afr")
           (Some (dec 147 1)) 0); reflexivity.
Defined.

Example ae_example :
  SniperDatalog.analyze_acceleration_enrichment
    (ae_log [(0, of_Z 14); (1, of_Z 14); (1, of_Z 14); (0, of_Z 14)]%Z)
  = Some {| SniperDatalog.total_ae_events := 1;
            SniperDatalog.lean_ae_events := 0;
            SniperDatalog.rich_ae_events := 0;
            SniperDatalog.ae_events :=
              [ {| SniperDatalog.ev_start := 1; SniperDatalog.ev_end := 3;
                   SniperDatalog.duration_samples := 2;
                   SniperDatalog.peak_tps_roc := zero;
                   SniperDatalog.afr_during := [of_Z 14; of_Z 14; of_Z 14] |} ] |}.
Proof. vm_compute. reflexivity. Qed.

(** ** Acceleration-enrichment analysis *)

Section AE.

Import SniperDatalog.

Lemma comprehension_slice {A : Type} (recs : list DatalogRecord.t)
    (f : DatalogRecord.t -> A) (a b : nat) :
  b <= length recs ->
  comprehension recs f a b = Some (f <$> take (b - a) (drop a recs)).
Proof.
  intros Hb. unfold comprehension.
  assert (Hn : b - a = 0 \/ a + (b - a) <= length recs) by lia.
  revert Hn. generalize (b - a). intros n. revert a. clear Hb.
  induction n as [|n IH]; intros a Hn; [reflexivity|].
  destruct Hn as [Hn|Hn]; [discriminate|].
  destruct (lookup_lt_is_Some_2 recs a) as [r Hr]; [lia|].
  rewrite (drop_S _ _ _ Hr). cbn [seq mapM]. rewrite Hr. cbn.
  rewrite IH by (right; lia). reflexivity.
Qed.

Lemma last_cons_any {A : Type} (x : A) (l : list A) (d d' : A) :
  List.last (x :: l) d = List.last (x :: l) d'.
Proof.
  revert x. induction l as [|y l IH]; intros x; [reflexivity|].
  change (List.last (y :: l) d = List.last (y :: l) d'). apply IH.
Qed.

Lemma falling_edges_app (active : bool) (l1 l2 : list bool) :
  falling_edges active (l1 ++ l2)
  = falling_edges active l1 + falling_edges (List.last l1 active) l2.
Proof.
  revert active. induction l1 as [|f l1 IH]; intros active; [reflexivity|].
  cbn [app falling_edges]. rewrite IH.
  destruct l1 as [|g l1]; [cbn; lia|].
  rewrite (last_cons_any g l1 f active).
  change (List.last (f :: g :: l1) active) with (List.last (g :: l1) active).
  lia.
Qed.

Lemma falling_edges_all_set (active : bool) (l : list bool) :
  Forall (fun f => f = true) l -> falling_edges active l = 0.
Proof.
  intros H. revert active. induction H as [|f l Hf _ IH]; intros active;
    [reflexivity|].
  subst f. cbn. apply IH.
Qed.

Lemma ae_event_ok_mono recs b b' ev :
  b <= b' -> ae_event_ok recs b ev -> ae_event_ok recs b' ev.
Proof. unfold ae_event_ok. intuition lia. Qed.

Lemma ae_step_inv (recs done rest : list DatalogRecord.t)
    (rec : DatalogRecord.t) (st : ae_state) :
  recs = done ++ rec :: rest ->
  (ae_active st = true -> ae_start_idx st < length done) ->
  Forall (ae_event_ok recs (length done)) (ae_acc st) ->
  exists st',
    ae_step recs st (length done) rec = Some st'
    /\ ae_active st' = ae_flag rec
    /\ (ae_active st' = true -> ae_start_idx st' < S (length done))
    /\ Forall (ae_event_ok recs (S (length done))) (ae_acc st')
    /\ length (ae_acc st')
       = length (ae_acc st)
         + (if negb (ae_flag rec) && ae_active st then 1 else 0).
Proof.
  intros Hrecs Hact Hok.
  assert (Hlen : length done < length recs).
  { subst recs. rewrite length_app. cbn. lia. }
  assert (Hok' : Forall (ae_event_ok recs (S (length done))) (ae_acc st)).
  { eapply Forall_impl; [exact Hok|]. intros ev. apply ae_event_ok_mono. lia. }
  unfold ae_step. fold (ae_flag rec).
  destruct (ae_flag rec) eqn:Hf, (ae_active st) eqn:Ha; cbn [andb negb].
  - exists st. rewrite Ha.
    split_and!; [reflexivity | reflexivity | | exact Hok' | lia].
    intros _. specialize (Hact eq_refl). lia.
  - eexists. split; [reflexivity|]. cbn.
    split_and!; [reflexivity | lia | exact Hok' | lia].
  - specialize (Hact eq_refl).
    rewrite !comprehension_slice by lia.
    destruct (take (length done - ae_start_idx st) (drop (ae_start_idx st) recs))
      as [|r0 rs] eqn:Hslice.
    { apply (f_equal length) in Hslice. rewrite length_take, length_drop in Hslice.
      cbn in Hslice. lia. }
    cbn. eexists. split; [reflexivity|]. cbn.
    split_and!; [reflexivity | discriminate | | rewrite length_app; cbn; lia].
    apply Forall_app. split; [exact Hok'|]. constructor; [|constructor].
    unfold ae_event_ok. cbn. rewrite length_fmap, length_take, length_drop.
    lia.
  - exists st. rewrite Ha.
    split_and!; [reflexivity | reflexivity | discriminate | exact Hok' | lia].
Qed.

Lemma ae_loop_inv (recs : list DatalogRecord.t) :
  forall (rest done extra : list DatalogRecord.t) (st : ae_state),
  recs = done ++ rest ++ extra ->
  (ae_active st = true -> ae_start_idx st < length done) ->
  Forall (ae_event_ok recs (length done)) (ae_acc st) ->
  exists st',
    ae_loop recs st (length done) rest = Some st'
    /\ ae_active st' = List.last (List.map ae_flag rest) (ae_active st)
    /\ (ae_active st' = true -> ae_start_idx st' < length done + length rest)
    /\ Forall (ae_event_ok recs (length done + length rest)) (ae_acc st')
    /\ length (ae_acc st')
       = length (ae_acc st)
         + falling_edges (ae_active st) (List.map ae_flag rest).
Proof.
  induction rest as [|rec rest IH]; intros done extra st Hrecs Hact Hok.
  - exists st. cbn. rewrite !Nat.add_0_r. auto.
  - cbn [app] in Hrecs.
    destruct (ae_step_inv recs done (rest ++ extra) rec st Hrecs Hact Hok)
      as (st1 & Hstep & Hfl & Hact1 & Hok1 & Hlen1).
    cbn [ae_loop]. rewrite Hstep. cbn.
    destruct (IH (done ++ [rec]) extra st1) as (st' & Hloop & Hfl' & Hact' & Hok' & Hlen').
    + rewrite Hrecs, <- app_assoc. reflexivity.
    + rewrite length_app. cbn. intros H. specialize (Hact1 H). lia.
    + rewrite length_app. cbn. rewrite Nat.add_1_r. exact Hok1.
    + rewrite length_app in *. cbn [length] in *.
      rewrite Nat.add_1_r in Hloop. exists st'. split; [exact Hloop|].
      cbn [List.map falling_edges length].
      replace (length done + S (length rest)) with (length done + 1 + length rest) by lia.
      repeat split; auto.
      * rewrite Hfl', Hfl. destruct (List.map ae_flag rest) as [|g fl];
          [reflexivity|]. apply last_cons_any.
      * rewrite Hlen', Hlen1, Hfl. lia.
Qed.

(** The detection loop never raises, and its outcome is this. *)
Lemma ae_detect_spec (self : t) :
  exists events,
    ae_detect self = Some events
    /\ length events = falling_edges false (List.map ae_flag (records self))
    /\ Forall (ae_event_ok (records self) (length (records self))) events.
Proof.
  unfold ae_detect.
  destruct (ae_loop_inv (records self) (records self) [] []
              {| ae_acc := []; ae_active := false; ae_start_idx := 0 |})
    as (st & Hloop & _ & _ & Hok & Hlen).
  - rewrite app_nil_r. reflexivity.
  - discriminate.
  - constructor.
  - cbn in Hloop. rewrite Hloop. cbn. exists (ae_acc st). split; [reflexivity|].
    split; [exact Hlen | exact Hok].
Qed.

Lemma ae_loop_app (recs l1 l2 : list DatalogRecord.t) :
  forall (st : ae_state) (i : nat),
  ae_loop recs st i (l1 ++ l2)
  = st' ← ae_loop recs st i l1; ae_loop recs st' (i + length l1) l2.
Proof.
  induction l1 as [|rec l1 IH]; intros st i; cbn [app ae_loop length].
  - cbn. now rewrite Nat.add_0_r.
  - destruct (ae_step recs st i rec) as [st1|]; cbn; [|reflexivity].
    rewrite IH. now replace (S i + length l1) with (i + S (length l1)) by lia.
Qed.

(** Scanning a stretch where the flag stays set appends nothing. *)
Lemma ae_loop_all_set (recs tail : list DatalogRecord.t) :
  Forall (fun r => ae_flag r = true) tail ->
  forall (st : ae_state) (i : nat),
  exists st', ae_loop recs st i tail = Some st' /\ ae_acc st' = ae_acc st.
Proof.
  induction 1 as [|rec tail Hrec _ IH]; intros st i; cbn [ae_loop].
  - now exists st.
  - unfold ae_step. fold (ae_flag rec). rewrite Hrec. cbn [andb negb].
    destruct (ae_active st); cbn.
    + apply IH.
    + destruct (IH {| ae_acc := ae_acc st; ae_active := true; ae_start_idx := i |}
                  (S i)) as (st' & H1 & H2).
      exists st'. split; [exact H1 | exact H2].
Qed.

(** Order facts on doubles of one sign and one exponent. *)
Lemma SFltb_same_exponent (x : float) (m1 m2 : positive) (e : Z) :
  (m1 < m2)%positive ->
  SFltb x (S754_finite false m1 e) = true ->
  SFltb (S754_finite false m2 e) x = false.
Proof.
  intros Hm. unfold SFltb.
  destruct x as [s|s| |s m ex]; try (destruct s); try reflexivity;
    try discriminate.
  unfold SFcompare.
  rewrite (Z.compare_antisym ex e).
  destruct (Z.compare_spec ex e) as [He|He|He]; cbn [CompOpp];
    try reflexivity; try discriminate.
  rewrite !Pos.compare_cont_spec. cbn [Pos.switch_Eq].
  destruct (Pos.compare_spec m m1), (Pos.compare_spec m2 m);
    try lia; try reflexivity; try discriminate.
Qed.


Lemma RICH_LIMIT_bits : RICH_LIMIT = S754_finite false 6473924464345088 (-49).
Proof. vm_compute. reflexivity. Qed.

Lemma LEAN_LIMIT_bits : LEAN_LIMIT = S754_finite false 7881299347898368 (-49).
Proof. vm_compute. reflexivity. Qed.

Lemma rich_excludes_lean (x : float) :
  ltb x RICH_LIMIT = true -> gtb x LEAN_LIMIT = false.
Proof.
  unfold ltb, gtb. rewrite RICH_LIMIT_bits, LEAN_LIMIT_bits.
  apply SFltb_same_exponent. reflexivity.
Qed.





(** C9: a stretch of records with the flag set that runs to the end of the
    log adds no event: the analysis reports as many events as for the log
    cut before the stretch, and every detected event ends before it; a WOT
    run open at end-of-data is, by contrast, reported. *)
Theorem ae_open_event_discarded (self : t) (pre tail : list DatalogRecord.t) :
  records self = pre ++ tail ->
  tail <> [] ->
  Forall (fun r => ae_flag r = true) tail ->
  (exists events res cut,
     ae_detect self = Some events
     /\ analyze_acceleration_enrichment self = Some res
     /\ analyze_acceleration_enrichment (set_records self pre) = Some cut
     /\ total_ae_events res = length events
     /\ total_ae_events res = total_ae_events cut
     /\ ae_events res = take 20 events
     /\ Forall (fun ev => ev_end ev < length pre) events)
  /\ get_wot_runs (tps_log [90; 90; 90; 90; 90]%Z) (of_Z 85) = [(0, 4)].
Proof.
  intros Hrecs _ Htail. split; [|vm_compute; reflexivity].
  destruct (ae_detect_spec self) as (events & Hdet & Hlen & _).
  destruct (ae_detect_spec (set_records self pre)) as (events' & Hdet' & Hlen' & _).
  exists events. do 2 eexists. unfold analyze_acceleration_enrichment.
  rewrite Hdet, Hdet'. cbn.
  split_and!; [reflexivity | reflexivity | reflexivity | reflexivity | | reflexivity |].
  - rewrite Hlen, Hlen', Hrecs.
    change (records (set_records self pre)) with pre.
    rewrite map_app, falling_edges_app.
    rewrite (falling_edges_all_set _ (List.map ae_flag tail)); [cbn [total_ae_events]; lia|].
    clear -Htail. induction Htail; constructor; auto.
  - unfold ae_detect in Hdet. rewrite Hrecs in Hdet at 2.
    rewrite ae_loop_app in Hdet.
    destruct (ae_loop_inv (records self) pre [] tail
                {| ae_acc := []; ae_active := false; ae_start_idx := 0 |})
      as (st1 & Hloop & _ & _ & Hok & _);
      [exact Hrecs | discriminate | constructor |].
    cbn [length] in Hloop. rewrite Hloop in Hdet. cbn in Hdet.
    destruct (ae_loop_all_set (records self) tail Htail st1 (length pre))
      as (st2 & Hloop2 & Hacc).
    rewrite Hloop2 in Hdet. cbn in Hdet. injection Hdet as <-.
    rewrite Hacc. eapply Forall_impl; [exact Hok|].
    intros ev (_ & H2 & _). cbn in H2. exact H2.
Qed.

Lemma ae_open_event_discarded_witness :
  (exists events res cut,
     ae_detect open_ae_log = Some events
     /\ analyze_acceleration_enrichment open_ae_log = Some res
     /\ analyze_acceleration_enrichment
          (set_records open_ae_log (take 3 (records open_ae_log))) = Some cut
     /\ total_ae_events res = length events
     /\ total_ae_events res = total_ae_events cut
     /\ ae_events res = take 20 events
     /\ Forall (fun ev => ev_end ev < length (take 3 (records open_ae_log))) events)
  /\ get_wot_runs (tps_log [90; 90; 90; 90; 90]%Z) (of_Z 85) = [(0, 4)].
Proof.
  apply (ae_open_event_discarded open_ae_log
           (take 3 (records open_ae_log)) (drop 3 (records open_ae_log))).
  - reflexivity.
  - discriminate.
  - repeat constructor.
Defined.

(** C10: [total_ae_events] counts every detected event, [ae_events] holds
    the first 20 of them at most, and is strictly shorter than the total
    once more than 20 were detected. *)
Theorem ae_events_capped (self : t) :
  exists res events,
    analyze_acceleration_enrichment self = Some res
    /\ ae_detect self = Some events
    /\ total_ae_events res = length events
    /\ ae_events res = take 20 events
    /\ length (ae_events res) = Nat.min 20 (total_ae_events res)
    /\ (20 < total_ae_events res ->
        length (ae_events res) < total_ae_events res).
Proof.
  destruct (ae_detect_spec self) as (events & Hdet & _).
  unfold analyze_acceleration_enrichment. rewrite Hdet. cbn.
  eexists. exists events. split_and!; try reflexivity.
  - cbn. now rewrite length_take.
  - cbn. rewrite length_take. lia.
Qed.

Lemma ae_events_capped_witness :
  exists res events,
    analyze_acceleration_enrichment pulsed_ae_log = Some res
    /\ ae_detect pulsed_ae_log = Some events
    /\ total_ae_events res = 21
    /\ length (ae_events res) = 20
    /\ length (ae_events res) < total_ae_events res.
Proof.
  destruct (ae_events_capped pulsed_ae_log)
    as (res & events & Hres & Hdet & Htot & _ & Hlen & Hlt).
  assert (H21 : total_ae_events res = 21).
  { assert (Hc : total_ae_events <$> analyze_acceleration_enrichment pulsed_ae_log
                 = Some 21) by (vm_compute; reflexivity).
    rewrite Hres in Hc. now injection Hc. }
  exists res, events. split_and!; auto.
  - rewrite Hlen, H21. reflexivity.
  - apply Hlt. rewrite H21. lia.
Defined.

End AE.

(** ** WOT run detection *)

Section WOT.

Import SniperDatalog.

Lemma segments_sorted_snoc (runs : list (nat * nat)) (r : nat * nat) :
  segments_sorted runs ->
  Forall (fun r' => snd r' < fst r) runs ->
  segments_sorted (runs ++ [r]).
Proof.
  intros Hs Hall j k r1 r2 Hjk Hj Hk.
  destruct (decide (k < length runs)) as [Hlt|Hge].
  - rewrite lookup_app_l in Hj by lia. rewrite lookup_app_l in Hk by lia.
    exact (Hs j k r1 r2 Hjk Hj Hk).
  - assert (Hkl : k = length runs).
    { apply lookup_lt_Some in Hk. rewrite length_app in Hk. cbn in Hk. lia. }
    subst k. rewrite lookup_app_l in Hj by lia.
    rewrite lookup_app_r, Nat.sub_diag in Hk by lia. cbn in Hk.
    injection Hk as <-.
    rewrite Forall_lookup in Hall. exact (Hall _ _ Hj).
Qed.

(** The loop invariant of [get_wot_runs] before the record at index [i]. *)
Definition wot_inv (st : wot_state) (i : nat) : Prop :=
  segments_sorted (runs st)
  /\ Forall (fun r => fst r + 3 < snd r) (runs st)
  /\ (in_wot st = true -> start_idx st < i)
  /\ Forall (fun r => snd r < (if in_wot st then start_idx st else i)) (runs st).

Lemma wot_step_inv (thr : float) (st : wot_state) (i : nat)
    (rec : DatalogRecord.t) :
  wot_inv st i -> wot_inv (wot_step thr st i rec) (S i).
Proof.
  intros (Hs & Hlen & Hst & Hb). unfold wot_step.
  destruct (geb _ thr && negb (in_wot st)) eqn:Hrise.
  - apply andb_prop in Hrise as [_ Hin]. apply negb_true_iff in Hin.
    rewrite Hin in Hb. unfold wot_inv. cbn [runs in_wot start_idx].
    split_and!; [exact Hs | exact Hlen | lia | exact Hb].
  - destruct (ltb _ thr && in_wot st) eqn:Hfall.
    + apply andb_prop in Hfall as [_ Hin]. rewrite Hin in Hb.
      specialize (Hst Hin). unfold wot_inv.
      destruct (3 <? i - start_idx st) eqn:Hmin; cbn [runs in_wot start_idx].
      * apply Nat.ltb_lt in Hmin. split_and!.
        -- apply segments_sorted_snoc; [exact Hs | exact Hb].
        -- apply Forall_app. split; [exact Hlen|].
           constructor; [cbn; lia | constructor].
        -- discriminate.
        -- apply Forall_app. split.
           ++ eapply Forall_impl; [exact Hb|]. cbn. intros; lia.
           ++ constructor; [cbn; lia | constructor].
      * split_and!; [exact Hs | exact Hlen | discriminate |].
        eapply Forall_impl; [exact Hb|]. cbn. intros; lia.
    + unfold wot_inv. split_and!; [exact Hs | exact Hlen | |].
      * intros H. specialize (Hst H). lia.
      * destruct (in_wot st); [exact Hb|].
        eapply Forall_impl; [exact Hb|]. cbn. intros; lia.
Qed.

Lemma wot_loop_inv (thr : float) (recs : list DatalogRecord.t) :
  forall (st : wot_state) (i : nat),
  wot_inv st i ->
  wot_inv (wot_loop thr st i recs) (i + length recs).
Proof.
  induction recs as [|rec recs IH]; intros st i Hinv; cbn [wot_loop length].
  - now rewrite Nat.add_0_r.
  - replace (i + S (length recs)) with (S i + length recs) by lia.
    apply IH, wot_step_inv, Hinv.
Qed.

(** What does hold of every result of [get_wot_runs]: the segments are in
    ascending order and pairwise disjoint; a segment closed by a sample
    below the threshold spans more than 3 indices; the segment of a run
    still open at the end ends at the last index and comes from more than 3
    samples. *)
Lemma get_wot_runs_segments (self : t) (thr : float) :
  segments_sorted (get_wot_runs self thr)
  /\ Forall (fun r =>
       snd r < length (records self)
       /\ (3 < segment_length r
           \/ (snd r = length (records self) - 1
               /\ 3 < length (records self) - fst r)))
     (get_wot_runs self thr).
Proof.
  unfold get_wot_runs.
  pose proof (wot_loop_inv thr (records self)
                {| runs := []; in_wot := false; start_idx := 0 |} 0) as Hinv.
  destruct Hinv as (Hs & Hlen & Hst & Hb).
  { unfold wot_inv. cbn. split_and!; try constructor; try discriminate.
    all: try (intros j k r1 r2 _ Hj; discriminate). }
  cbn [Nat.add] in *.
  set (st := wot_loop thr _ 0 (records self)) in *.
  assert (Hold : Forall (fun r =>
       snd r < length (records self)
       /\ (3 < segment_length r
           \/ (snd r = length (records self) - 1
               /\ 3 < length (records self) - fst r))) (runs st)).
  { apply Forall_lookup. intros j r Hj.
    rewrite Forall_lookup in Hlen, Hb.
    specialize (Hlen _ _ Hj). specialize (Hb _ _ Hj). cbn in Hlen, Hb.
    unfold segment_length. destruct (in_wot st) eqn:Hin.
    - specialize (Hst eq_refl). lia.
    - lia. }
  destruct (in_wot st) eqn:Hin; cbn [andb]; [|split; assumption].
  destruct (3 <? length (records self) - start_idx st) eqn:Hmin;
    [|split; assumption].
  apply Nat.ltb_lt in Hmin. split.
  - apply segments_sorted_snoc; [exact Hs | exact Hb].
  - apply Forall_app. split; [exact Hold|].
    constructor; [cbn; lia | constructor].
Qed.

(** C4: the specification's example yields the one segment [(2, 6)], whose
    half-open range covers indices 2 to 5; a run of four samples that is
    still open at the end of the data is reported as [(0, 3)], one short of
    the range the closed form would give, so its length is 3 and not more
    than 3. *)
Theorem wot_trailing_run_one_short :
  get_wot_runs (tps_log [2; 3; 90; 92; 95; 91; 4; 3]%Z) (of_Z 85) = [(2, 6)]
  /\ get_wot_runs (tps_log [90; 90; 90; 90]%Z) (of_Z 85) = [(0, 3)]
  /\ List.map segment_length
       (get_wot_runs (tps_log [90; 90; 90; 90]%Z) (of_Z 85)) = [3]
  /\ get_wot_runs (tps_log [90; 90; 90; 90; 4]%Z) (of_Z 85) = [(0, 4)].
Proof. split_and!; vm_compute; reflexivity. Qed.

End WOT.

(** ** Decode-counting computations *)

Lemma dec_val_ret {A : Type} (a : A) : dec_val (mret a) = a.
Proof. reflexivity. Qed.

Lemma dec_val_bind {A B : Type} (m : Dec A) (f : A -> Dec B) :
  dec_val (m ≫= f) = dec_val (f (dec_val m)).
Proof. reflexivity. Qed.

Lemma dec_calls_bind {A B : Type} (m : Dec A) (f : A -> Dec B) :
  dec_calls (m ≫= f) = dec_calls m + dec_calls (f (dec_val m)).
Proof. reflexivity. Qed.

Lemma unpack_from_f_Some (data : bytes) (i : nat) :
  i + 4 <= length data -> is_Some (unpack_from_f data i).
Proof.
  intros H. unfold unpack_from_f.
  assert (Hl : length (take 4 (drop i data)) = 4)
    by (rewrite length_take, length_drop; lia).
  destruct (take 4 (drop i data)) as [|b0 [|b1 [|b2 [|b3 [|b4 l]]]]];
    try discriminate. eauto.
Qed.

Lemma unpack_from_f_None (data : bytes) (i : nat) :
  length data < i + 4 -> unpack_from_f data i = None.
Proof.
  intros H. unfold unpack_from_f.
  assert (Hl : length (take 4 (drop i data)) < 4)
    by (rewrite length_take, length_drop; lia).
  destruct (take 4 (drop i data)) as [|b0 [|b1 [|b2 [|b3 [|b4 l]]]]];
    try reflexivity. cbn in Hl. lia.
Qed.

(** ** Raw extraction *)

(** The test of the source keeps exactly the finite floats strictly between
    -1000 and 10000. *)
Lemma raw_test_plausible (v : float) :
  ltb (of_Z (-1000)) v && ltb v (of_Z 10000) && eqb v v = raw_plausible v.
Proof.
  unfold raw_plausible.
  destruct v as [s|s| |s m e]; cbn [is_finite andb].
  - rewrite andb_true_r. reflexivity.
  - destruct s; vm_compute; reflexivity.
  - reflexivity.
  - destruct (ltb (of_Z (-1000)) (S754_finite s m e) && ltb (S754_finite s m e) (of_Z 10000));
      [|reflexivity].
    cbn [andb]. unfold eqb, SFeqb, SFcompare.
    destruct s; rewrite Z.compare_refl, Pos.compare_cont_refl; reflexivity.
Qed.

Lemma raw_scan_spec (data : bytes) (offsets : list nat) :
  forall acc,
  dec_val (raw_scan data offsets acc)
  = acc ++ omap (unpack_from_f data) (List.filter (raw_hit data) offsets).
Proof.
  induction offsets as [|i offsets IH]; intros acc; cbn [raw_scan List.filter].
  - cbn. now rewrite app_nil_r.
  - rewrite dec_val_bind, IH. unfold unpack. cbn [dec_val].
    unfold raw_hit at 2.
    destruct (unpack_from_f data i) as [v|] eqn:Hv; [|reflexivity].
    rewrite raw_test_plausible.
    destruct (raw_plausible v); [|reflexivity].
    cbn [omap list_omap]. rewrite Hv. now rewrite <- app_assoc.
Qed.

Lemma elem_of_range4 (stop i : nat) :
  i ∈ range4 stop <-> exists k, i = 4 * k /\ i < stop.
Proof.
  unfold range4. rewrite list_elem_of_In, in_map_iff. split.
  - intros (k & <- & Hk%in_seq). exists k. split; [reflexivity|].
    assert (Hd := Nat.div_mod_eq (stop + 3) 4).
    assert (Hm := Nat.mod_upper_bound (stop + 3) 4). lia.
  - intros (k & -> & Hk). exists k. split; [reflexivity|]. apply in_seq.
    assert (Hd := Nat.div_mod_eq (stop + 3) 4).
    assert (Hm := Nat.mod_upper_bound (stop + 3) 4). lia.
Qed.

Lemma range4_sorted (stop : nat) : StronglySorted lt (range4 stop).
Proof.
  unfold range4.
  enough (H : forall n a, StronglySorted lt (List.map (fun k => 4 * k) (seq a n)))
    by apply H.
  induction n as [|n IH]; intros a; cbn [seq List.map]; constructor.
  - apply IH.
  - apply Forall_forall. intros x Hx. rewrite list_elem_of_In in Hx.
    apply in_map_iff in Hx as (k & <- & Hk%in_seq). lia.
Qed.

Lemma filter_sorted {A : Type} (R : A -> A -> Prop) (p : A -> bool) (l : list A) :
  StronglySorted R l -> StronglySorted R (List.filter p l).
Proof.
  induction 1 as [|x l Hs IH Hall]; cbn; [constructor|].
  destruct (p x); [|exact IH]. constructor; [exact IH|].
  apply Forall_forall. intros y Hy. rewrite list_elem_of_In in Hy.
  apply filter_In in Hy as [Hy _]. rewrite Forall_forall in Hall.
  apply Hall. now apply list_elem_of_In.
Qed.

(** C8, as stated, fails twice: the last aligned word of a buffer is never
    decoded (a buffer that is exactly the float 1.0 yields no metadata, and
    of the two floats 1.0 and 2.0 only one is counted), and the result
    carries the 21 catalog names as its channels. *)
Lemma raw_extraction_skips_and_names :
  raw_hit F1 0 = true
  /\ SniperDatalog.metadata (dec_val (_extract_from_raw F1 (u "log.dl"))) = ∅
  /\ raw_hit (F1 ++ F2) 4 = true
  /\ SniperDatalog.metadata (dec_val (_extract_from_raw (F1 ++ F2) (u "log.dl")))
       !! u "raw_floats_found" = Some 1
  /\ length (SniperDatalog.channels (dec_val (_extract_from_raw [] (u "log.dl"))))
     = 21.
Proof. split_and!; vm_compute; reflexivity. Qed.

(** C8, amended: the fallback always succeeds and builds no record; it
    decodes 4-byte-aligned offsets as little-endian floats and keeps
    exactly the hits among those it decodes, a hit being a finite value
    strictly between -1000 and 10000; every aligned offset that is followed
    by more than 4 bytes is decoded; the metadata hold the number of hits
    and the size of the buffer when there is a hit and nothing otherwise;
    the channel list is the whole catalog. *)
Theorem raw_extraction_summary (data : bytes) (filepath : pystr) :
  exists hits : list nat,
    let d := dec_val (_extract_from_raw data filepath) in
    SniperDatalog.records d = []
    /\ SniperDatalog.parse_errors d = []
    /\ SniperDatalog.channels d = SNIPER_CHANNELS_keys
    /\ SniperDatalog.filename d = basename filepath
    /\ StronglySorted lt hits
    /\ Forall (fun i => (exists k, i = 4 * k) /\ i + 4 <= length data
                        /\ raw_hit data i = true) hits
    /\ (forall k, 4 * k + 4 < length data -> raw_hit data (4 * k) = true ->
        4 * k ∈ hits)
    /\ SniperDatalog.metadata d
       = match hits with
         | [] => ∅
         | _ :: _ => <[ u "file_size_bytes" := length data ]>
                       {[ u "raw_floats_found" := length hits ]}
         end.
Proof.
  exists (List.filter (raw_hit data) (range4 (length data - 4))).
  cbn zeta. unfold _extract_from_raw. rewrite dec_val_bind, raw_scan_spec.
  cbn [app dec_val].
  set (hits := List.filter (raw_hit data) (range4 (length data - 4))).
  assert (Hall : Forall (fun i => (exists k, i = 4 * k) /\ i + 4 <= length data
                                  /\ raw_hit data i = true) hits).
  { apply Forall_forall. intros i Hi. rewrite list_elem_of_In in Hi.
    apply filter_In in Hi as [Hi Hhit]. rewrite <- list_elem_of_In in Hi.
    apply elem_of_range4 in Hi as (k & -> & Hk).
    split_and!; [eauto | lia | exact Hhit]. }
  assert (Hlen : length (omap (unpack_from_f data) hits) = length hits).
  { clear -Hall. induction Hall as [|i l (_ & Hi & _) _ IH]; [reflexivity|].
    cbn. destruct (unpack_from_f_Some data i Hi) as [v ->]. cbn. now rewrite IH. }
  assert (Hmeta : forall d0 : SniperDatalog.t,
    SniperDatalog.metadata d0 = ∅ ->
    SniperDatalog.metadata
      (match omap (unpack_from_f data) hits with
       | [] => d0
       | _ :: _ =>
           SniperDatalog.set_metadata d0
             (<[ u "file_size_bytes" := length data ]>
                (<[ u "raw_floats_found" := length (omap (unpack_from_f data) hits) ]>
                   (SniperDatalog.metadata d0)))
       end)
    = match hits with
      | [] => ∅
      | _ :: _ => <[ u "file_size_bytes" := length data ]>
                    {[ u "raw_floats_found" := length hits ]}
      end).
  { intros d0 Hd0. rewrite Hlen.
    destruct (omap (unpack_from_f data) hits) as [|v vs] eqn:Ho;
      destruct hits as [|h hs]; try discriminate; cbn in *; auto.
    now rewrite Hd0. }
  split_and!.
  - destruct (omap _ hits); reflexivity.
  - destruct (omap _ hits); reflexivity.
  - destruct (omap _ hits); reflexivity.
  - destruct (omap _ hits); reflexivity.
  - apply filter_sorted, range4_sorted.
  - exact Hall.
  - intros k Hk Hhit. apply list_elem_of_In, filter_In.
    split; [|exact Hhit]. apply list_elem_of_In, elem_of_range4.
    exists k. split; [reflexivity | lia].
  - apply Hmeta. reflexivity.
Qed.

(** ** Binary recovery *)

Lemma read_row_spec (data : bytes) (row_offset : nat) (chs : list nat) :
  forall row_vals,
  dec_val (read_row data row_offset chs row_vals)
  = (rest ← mapM (fun c => unpack_from_f data (row_offset + c * 4)) chs;
     Some (row_vals ++ rest)).
Proof.
  induction chs as [|ch chs IH]; intros row_vals; cbn [read_row mapM].
  - cbn. now rewrite app_nil_r.
  - rewrite dec_val_bind. unfold unpack. cbn [dec_val].
    destruct (unpack_from_f data (row_offset + ch * 4)) as [val|]; cbn;
      [|reflexivity].
    rewrite IH.
    destruct (mapM (fun c => unpack_from_f data (row_offset + c * 4)) chs);
      cbn; [|reflexivity].
    now rewrite <- app_assoc.
Qed.

Lemma row_plausible_source (row : list float) :
  has_rpm_like row && has_map_like row = row_plausible row.
Proof. reflexivity. Qed.

Lemma test_rows_loop_spec (data : bytes) (start nc : nat) (row_idxs : list nat) :
  forall test_rows,
  let ok := forallb (fun r => match row_floats data start nc r with
                              | Some row => row_plausible row
                              | None => false
                              end) row_idxs in
  fst (dec_val (test_rows_loop data start (nc * 4) nc row_idxs test_rows)) = ok
  /\ (ok = true ->
      length (snd (dec_val (test_rows_loop data start (nc * 4) nc row_idxs
                              test_rows)))
      = length test_rows + length row_idxs).
Proof.
  induction row_idxs as [|r row_idxs IH]; intros test_rows;
    cbn [test_rows_loop forallb].
  - cbn. split; [reflexivity | intros _; lia].
  - cbn zeta. rewrite dec_val_bind, read_row_spec. cbn [app].
    unfold row_floats.
    destruct (mapM (fun c => unpack_from_f data (start + r * (nc * 4) + c * 4))
                   (seq 0 nc)) as [row|]; cbn [mbind option_bind andb].
    + rewrite row_plausible_source.
      destruct (row_plausible row); cbn [andb].
      * destruct (IH (test_rows ++ [row])) as [H1 H2]. split; [exact H1|].
        intros Hok. rewrite (H2 Hok), length_app. cbn. lia.
      * split; [reflexivity | discriminate].
    + split; [reflexivity | discriminate].
Qed.

Lemma decode_rows_records (data : bytes) (start row_size : nat)
    (names : list pystr) (row_idxs : list nat) :
  forall d,
  exists more,
    SniperDatalog.records (dec_val (decode_rows data start row_size names row_idxs d))
    = SniperDatalog.records d ++ more.
Proof.
  induction row_idxs as [|r row_idxs IH]; intros d; cbn [decode_rows].
  - exists []. cbn. now rewrite app_nil_r.
  - cbn zeta. destruct (length data <? start + r * row_size + row_size).
    + exists []. cbn. now rewrite app_nil_r.
    + rewrite dec_val_bind.
      destruct (IH (SniperDatalog.append_record d
                      (DatalogRecord.Build
                         (dec_val (decode_record data (start + r * row_size)
                                     (combine (seq 0 (length names)) names) ∅)))))
        as [more Hmore].
      rewrite Hmore. cbn [SniperDatalog.append_record SniperDatalog.set_records
                          SniperDatalog.records].
      rewrite <- app_assoc. eauto.
Qed.

(** A layout with room for its 10 test rows decodes to at least one record. *)
Lemma layout_has_records (data : bytes) (filepath : pystr) (c : nat * nat) :
  0 < snd c ->
  fst c + snd c * 4 * 10 <= length data ->
  has_records (layout_datalog data filepath c) = true.
Proof.
  intros Hnc Hroom. unfold layout_datalog, has_records.
  assert (Hrows : 1 <= (length data - fst c) / (snd c * 4)).
  { apply Nat.div_le_lower_bound; lia. }
  destruct ((length data - fst c) / (snd c * 4)) as [|n]; [lia|].
  cbn [seq decode_rows]. cbn zeta.
  destruct (length data <? fst c + 0 * (snd c * 4) + snd c * 4) eqn:Hlt.
  { apply Nat.ltb_lt in Hlt. lia. }
  rewrite dec_val_bind.
  match goal with
  | |- context [decode_rows ?a ?b ?c ?d ?e ?f] =>
      destruct (decode_rows_records a b c d e f) as [more ->]
  end.
  cbn. reflexivity.
Qed.

Lemma find_app {A : Type} (p : A -> bool) (l1 l2 : list A) :
  List.find p (l1 ++ l2)
  = match List.find p l1 with
    | Some x => Some x
    | None => List.find p l2
    end.
Proof.
  induction l1 as [|x l1 IH]; [reflexivity|]. cbn.
  destruct (p x); [reflexivity | exact IH].
Qed.

Lemma find_first {A : Type} (p : A -> bool) (l : list A) (x : A) :
  List.find p l = Some x ->
  p x = true
  /\ exists before after,
       l = before ++ x :: after /\ Forall (fun y => p y = false) before.
Proof.
  induction l as [|y l IH]; [discriminate|]. cbn.
  destruct (p y) eqn:Hy.
  - intros [= ->]. split; [exact Hy|]. exists [], l. split; [reflexivity|constructor].
  - intros H. destruct (IH H) as (Hx & before & after & -> & Hall).
    split; [exact Hx|]. exists (y :: before), after.
    split; [reflexivity | constructor; assumption].
Qed.

Lemma find_none_Forall {A : Type} (p : A -> bool) (l : list A) :
  List.find p l = None -> Forall (fun y => p y = false) l.
Proof.
  induction l as [|y l IH]; [constructor|]. cbn.
  destruct (p y) eqn:Hy; [discriminate|]. intros H. constructor; auto.
Qed.

(** The inner loop, entered with the datalog as created: it returns the
    datalog of the first count that validates at this offset, or leaves the
    datalog as it was. *)
Lemma channels_loop_spec (data : bytes) (filepath : pystr) (start : nat)
    (counts : list nat) :
  Forall (fun nc => 0 < nc) counts ->
  let d0 := SniperDatalog.set_filename SniperDatalog.init (basename filepath) in
  dec_val (channels_loop data start counts d0)
  = match List.find (candidate_validates data) (List.map (pair start) counts) with
    | Some c => (layout_datalog data filepath c, true)
    | None => (d0, false)
    end.
Proof.
  intros Hpos d0. induction Hpos as [|nc counts Hnc _ IH];
    cbn [channels_loop List.map List.find]; [reflexivity|].
  cbn zeta. unfold candidate_validates at 1. cbn [fst snd].
  destruct (length data <? start + nc * 4 * 10) eqn:Hroom.
  - apply Nat.ltb_lt in Hroom.
    destruct (start + nc * 4 * 10 <=? length data) eqn:Hle;
      [apply Nat.leb_le in Hle; lia|].
    cbn [andb]. exact IH.
  - apply Nat.ltb_ge in Hroom.
    destruct (start + nc * 4 * 10 <=? length data) eqn:Hle;
      [|apply Nat.leb_gt in Hle; lia].
    cbn [andb]. rewrite dec_val_bind.
    destruct (test_rows_loop_spec data start nc (seq 0 10) []) as [Hfst Hsnd].
    cbn zeta in Hfst, Hsnd.
    destruct (dec_val (test_rows_loop data start (nc * 4) nc (seq 0 10) []))
      as [rows_valid test_rows].
    cbn [fst snd] in Hfst, Hsnd. rewrite <- Hfst.
    destruct rows_valid; cbn [andb]; [|exact IH].
    rewrite (Hsnd (eq_sym Hfst)). cbn [length Nat.add Nat.leb seq].
    rewrite dec_val_bind.
    pose proof (layout_has_records data filepath (start, nc) Hnc Hroom) as Hrec.
    unfold layout_datalog, has_records in Hrec. cbn [fst snd] in Hrec.
    fold d0 in Hrec. unfold layout_datalog. cbn [fst snd]. fold d0.
    destruct (SniperDatalog.records
                (dec_val (decode_rows data start (nc * 4)
                   (take nc SNIPER_CHANNELS_keys)
                   (seq 0 ((length data - start) / (nc * 4)))
                   (SniperDatalog.set_channels d0 (take nc SNIPER_CHANNELS_keys)))));
      [discriminate | reflexivity].
Qed.

Lemma offsets_loop_spec (data : bytes) (filepath : pystr) (starts : list nat) :
  let d0 := SniperDatalog.set_filename SniperDatalog.init (basename filepath) in
  dec_val (offsets_loop data starts d0)
  = match List.find (candidate_validates data)
            (flat_map (fun off => List.map (pair off) CHANNEL_COUNTS) starts) with
    | Some c => (layout_datalog data filepath c, true)
    | None => (d0, false)
    end.
Proof.
  intros d0. induction starts as [|start starts IH];
    cbn [offsets_loop flat_map]; [reflexivity|].
  rewrite dec_val_bind, find_app.
  pose proof (channels_loop_spec data filepath start CHANNEL_COUNTS) as Hc.
  cbn zeta in Hc. fold d0 in Hc. rewrite Hc by (repeat constructor).
  destruct (List.find (candidate_validates data)
              (List.map (pair start) CHANNEL_COUNTS)) as [c|].
  - reflexivity.
  - exact IH.
Qed.

(** C3: the binary recovery parser returns the datalog decoded with the
    first candidate, in the order offsets 64..511 outside and channel
    counts 12, 16, 20, 24, 28, 32 inside, whose region holds 10 full rows
    and whose first 10 rows each have one of their first 4 floats in
    0..8000 and one of their first 8 floats in 10..250; every candidate
    before it fails that test; when no candidate passes, the result has no
    record. *)
Theorem binary_first_match (data : bytes) (filepath : pystr) :
  let result := dec_val (_parse_binary_datalog data filepath) in
  match List.find (candidate_validates data) (candidates data) with
  | Some c =>
      result = layout_datalog data filepath c
      /\ has_records result = true
      /\ candidate_validates data c = true
      /\ exists before after,
           candidates data = before ++ c :: after
           /\ Forall (fun c' => candidate_validates data c' = false) before
  | None =>
      result = SniperDatalog.set_filename SniperDatalog.init (basename filepath)
      /\ Forall (fun c' => candidate_validates data c' = false) (candidates data)
  end.
Proof.
  cbn zeta. unfold _parse_binary_datalog.
  destruct (length data <? 64) eqn:Hshort.
  - apply Nat.ltb_lt in Hshort. unfold candidates.
    replace (Nat.min (length data) 512 - 64) with 0 by lia. cbn.
    split; [reflexivity | constructor].
  - rewrite !dec_val_bind.
    pose proof (offsets_loop_spec data filepath
                  (seq 64 (Nat.min (length data) 512 - 64))) as Ho.
    cbn zeta in Ho. fold (candidates data) in Ho. rewrite Ho.
    destruct (List.find (candidate_validates data) (candidates data)) as [c|] eqn:Hf.
    + cbn [dec_val mret Dec_ret fst].
      destruct (find_first _ _ _ Hf) as (Hv & before & after & Hsplit & Hall).
      split_and!; [reflexivity | | exact Hv | eauto].
      apply layout_has_records.
      * assert (Hin : c ∈ candidates data)
          by (rewrite Hsplit; apply list_elem_of_In, in_elt).
        unfold candidates in Hin. rewrite list_elem_of_In in Hin.
        apply in_flat_map in Hin as (off & _ & Hin).
        apply in_map_iff in Hin as (nc & <- & Hin). cbn.
        unfold CHANNEL_COUNTS in Hin. cbn in Hin. lia.
      * unfold candidate_validates in Hv. apply andb_prop in Hv as [Hv _].
        now apply Nat.leb_le in Hv.
    + cbn. split; [reflexivity|]. now apply find_none_Forall.
Qed.

(** At offset 64 of the sample buffer the count 12 fails and the count 16
    validates; the parser decodes with the latter. *)
Lemma binary_first_match_witness :
  List.find (candidate_validates sixteen_channel_buffer)
            (candidates sixteen_channel_buffer) = Some (64, 16)
  /\ candidate_validates sixteen_channel_buffer (64, 12) = false
  /\ dec_val (_parse_binary_datalog sixteen_channel_buffer (u "pass.dl"))
     = layout_datalog sixteen_channel_buffer (u "pass.dl") (64, 16)
  /\ length (SniperDatalog.records
               (dec_val (_parse_binary_datalog sixteen_channel_buffer (u "pass.dl"))))
     = 10.
Proof.
  assert (Hf : List.find (candidate_validates sixteen_channel_buffer)
                 (candidates sixteen_channel_buffer) = Some (64, 16))
    by (vm_compute; reflexivity).
  pose proof (binary_first_match sixteen_channel_buffer (u "pass.dl")) as H.
  cbn zeta in H. rewrite Hf in H. destruct H as (Hres & _).
  split_and!; [exact Hf | vm_compute; reflexivity | exact Hres |].
  rewrite Hres. vm_compute. reflexivity.
Defined.

(** ** The parsing pipeline *)

Section PipelineProperties.

Variable zlib_decompress : Z -> bytes -> option bytes.
Variable py_float : pystr -> option float.

Lemma binary_short_buffer (data : bytes) (filepath : pystr) :
  length data < 64 ->
  _parse_binary_datalog data filepath
  = MkDec (SniperDatalog.set_filename SniperDatalog.init (basename filepath)) 0.
Proof.
  intros H. unfold _parse_binary_datalog.
  apply Nat.ltb_lt in H. rewrite H. reflexivity.
Qed.

Lemma extract_from_raw_no_errors (data : bytes) (filepath : pystr) :
  SniperDatalog.parse_errors (dec_val (_extract_from_raw data filepath)) = []
  /\ SniperDatalog.records (dec_val (_extract_from_raw data filepath)) = [].
Proof.
  unfold _extract_from_raw. rewrite dec_val_bind.
  destruct (dec_val (raw_scan data _ [])); split; reflexivity.
Qed.

(** Whenever neither the text parser nor the binary parser delivers a
    record, the note is appended to the object of the binary parser, which
    is then dropped: the object returned is that of the raw extraction and
    its [parse_errors] is empty. *)
Lemma unparsed_note_dropped (fs : pystr -> exn + bytes) (filepath : pystr)
    (raw_data : bytes) :
  fs filepath = inr raw_data ->
  let decompressed := decompress zlib_decompress filepath raw_data in
  let text_data := decode_utf8_replace decompressed in
  (contains COMMA (take 500 text_data) || contains TAB (take 500 text_data))
  && has_records (_parse_text_datalog py_float text_data filepath) = false ->
  has_records (dec_val (_parse_binary_datalog decompressed filepath)) = false ->
  exists o,
    parse_dlz_file zlib_decompress py_float fs filepath = inr o
    /\ returned o = dec_val (_extract_from_raw decompressed filepath)
    /\ SniperDatalog.parse_errors (returned o) = []
    /\ List.last (dropped o) SniperDatalog.init
       = SniperDatalog.append_error
           (dec_val (_parse_binary_datalog decompressed filepath))
           (unparsed_note raw_data).
Proof.
  intros Hfs decompressed text_data Htext Hbin.
  unfold parse_dlz_file. rewrite Hfs. cbn [try_except].
  fold decompressed. fold text_data. rewrite Htext, Hbin.
  eexists. split; [reflexivity|]. cbn [returned dropped].
  split_and!; [reflexivity | apply extract_from_raw_no_errors |].
  rewrite last_last. reflexivity.
Qed.

(** C2: [parse_dlz_file] returns an object for every file system and file
    name and never raises; on a buffer shorter than 64 bytes the binary
    parser returns its fresh datalog after no decoding attempt at all; a
    file that cannot be read yields the fresh datalog with one diagnostic
    string. *)
Theorem parse_dlz_file_total (fs : pystr -> exn + bytes) (filepath : pystr) :
  (exists o, parse_dlz_file zlib_decompress py_float fs filepath = inr o)
  /\ (forall data : bytes, length data < 64 ->
      _parse_binary_datalog data filepath
      = MkDec (SniperDatalog.set_filename SniperDatalog.init (basename filepath)) 0
      /\ SniperDatalog.records (dec_val (_parse_binary_datalog data filepath)) = [])
  /\ (forall e, fs filepath = inl e ->
      exists o,
        parse_dlz_file zlib_decompress py_float fs filepath = inr o
        /\ SniperDatalog.records (returned o) = []
        /\ SniperDatalog.channels (returned o) = []
        /\ SniperDatalog.metadata (returned o) = ∅
        /\ SniperDatalog.parse_errors (returned o)
           = [u "Error reading file: " ++ str_exn e]).
Proof.
  split_and!.
  - unfold parse_dlz_file. destruct (fs filepath) as [e|raw_data];
      cbn [try_except]; [eauto|].
    destruct (_ && has_records (_parse_text_datalog _ _ _)); [eauto|].
    destruct (has_records (dec_val (_parse_binary_datalog _ _))); eauto.
  - intros data Hlen. rewrite (binary_short_buffer data filepath Hlen).
    split; reflexivity.
  - intros e He. unfold parse_dlz_file. rewrite He. cbn [try_except].
    eexists. split; [reflexivity|]. cbn. split_and!; reflexivity.
Qed.

End PipelineProperties.

Lemma parse_dlz_file_total_witness :
  (exists o, parse_dlz_file zlib_rejects float_of_plain_decimal
               (fs_with F1) (u "run.dlz") = inr o)
  /\ dec_calls (_parse_binary_datalog F1 (u "run.dlz")) = 0
  /\ SniperDatalog.records (dec_val (_parse_binary_datalog F1 (u "run.dlz"))) = []
  /\ (exists o,
        parse_dlz_file zlib_rejects float_of_plain_decimal fs_without (u "run.dlz")
        = inr o
        /\ SniperDatalog.records (returned o) = []
        /\ SniperDatalog.parse_errors (returned o)
           = [u "Error reading file: [Errno 2] No such file or directory"]).
Proof.
  destruct (parse_dlz_file_total zlib_rejects float_of_plain_decimal
              (fs_with F1) (u "run.dlz")) as (H1 & H2 & _).
  destruct (parse_dlz_file_total zlib_rejects float_of_plain_decimal
              fs_without (u "run.dlz")) as (_ & _ & H3).
  destruct (H2 F1) as [H2a H2b]; [cbn; lia|].
  destruct (H3 _ eq_refl) as (o & Ho & Hr & _ & _ & He).
  split_and!; [exact H1 | now rewrite H2a | exact H2b |].
  exists o. split_and!; [exact Ho | exact Hr | exact He].
Defined.

(** C1: on an empty file neither parser delivers a record; the returned
    datalog is the raw-extraction result and its [parse_errors] is empty;
    the diagnostic note (file size, advice to export as CSV) sits in the
    dropped object of the binary parser. *)
Theorem unparsed_note_lost_on_empty_file :
  exists o,
    parse_dlz_file zlib_rejects float_of_plain_decimal (fs_with []) (u "run.dl")
    = inr o
    /\ has_records (dec_val (_parse_binary_datalog [] (u "run.dl"))) = false
    /\ returned o = dec_val (_extract_from_raw [] (u "run.dl"))
    /\ SniperDatalog.parse_errors (returned o) = []
    /\ SniperDatalog.parse_errors <$> dropped o
       = [ []; [unparsed_note []] ]
    /\ unparsed_note []
       = u "Could not fully parse proprietary DLZ format. File size: 0 bytes. For best results, export from Holley software as CSV.".
Proof.
  eexists. split; [vm_compute; reflexivity|].
  split_and!; vm_compute; reflexivity.
Qed.

(** ** Strings *)

Section Strings.

Implicit Types (s w : pystr) (c sep : N) (p : N -> bool).

Lemma contains_false c s : contains c s = false <-> c ∉ s.
Proof.
  unfold contains. induction s as [|x s IH]; cbn.
  - split; [intros _; apply not_elem_of_nil | reflexivity].
  - rewrite not_elem_of_cons, orb_false_iff, IH, N.eqb_neq. tauto.
Qed.

Lemma contains_true c s : contains c s = true <-> c ∈ s.
Proof.
  destruct (contains c s) eqn:H.
  - split; [|reflexivity]. intros _. destruct (decide (c ∈ s)) as [|Hn]; [assumption|].
    apply contains_false in Hn. congruence.
  - apply contains_false in H. split; [discriminate | contradiction].
Qed.

Lemma contains_app c s w : contains c (s ++ w) = contains c s || contains c w.
Proof. unfold contains. apply existsb_app. Qed.

Lemma split_nonempty sep s : split sep s <> [].
Proof.
  destruct s as [|c s]; cbn; [discriminate|].
  destruct (c =? sep)%N; [discriminate|]. destruct (split sep s); discriminate.
Qed.

Lemma split_no_sep sep s : sep ∉ s -> split sep s = [s].
Proof.
  induction s as [|c s IH]; intros H; [reflexivity|].
  apply not_elem_of_cons in H as [Hc Hs]. cbn.
  destruct (N.eqb_spec c sep) as [->|_]; [contradiction|].
  now rewrite (IH Hs).
Qed.

Lemma split_cons_sep sep s : split sep (sep :: s) = [] :: split sep s.
Proof. cbn. now rewrite N.eqb_refl. Qed.

Lemma split_app_sep sep s w :
  sep ∉ s -> split sep (s ++ sep :: w) = s :: split sep w.
Proof.
  induction s as [|c s IH]; intros H; cbn [app].
  - apply split_cons_sep.
  - apply not_elem_of_cons in H as [Hc Hs]. cbn.
    destruct (N.eqb_spec c sep) as [->|_]; [contradiction|].
    now rewrite (IH Hs).
Qed.

(** Splitting at [sep] undoes joining with [sep], also with a trailer [w]
    free of [sep] after the last part. *)
Lemma split_join sep (parts : list pystr) w :
  parts <> [] ->
  Forall (fun part => sep ∉ part) parts ->
  sep ∉ w ->
  split sep (join [sep] parts ++ w) = app_last parts w.
Proof.
  intros Hne Hall Hw. induction Hall as [|part parts Hp Hall IH]; [contradiction|].
  destruct parts as [|part' parts].
  - cbn. apply split_no_sep. rewrite elem_of_app. tauto.
  - change (join [sep] (part :: part' :: parts))
      with (part ++ [sep] ++ join [sep] (part' :: parts)).
    change (app_last (part :: part' :: parts) w)
      with (part :: app_last (part' :: parts) w).
    rewrite <- !app_assoc. cbn [app].
    rewrite (split_app_sep _ _ _ Hp). f_equal. apply IH. discriminate.
Qed.

Lemma split_parts sep s :
  Forall (fun part => (sep ∉ part) /\ (forall c, c ∈ part -> c ∈ s)) (split sep s).
Proof.
  induction s as [|c s IH]; cbn.
  - constructor; [|constructor]. split; [apply not_elem_of_nil | auto].
  - destruct (N.eqb_spec c sep) as [->|Hne].
    + constructor.
      * split; [apply not_elem_of_nil | intros c Hc; now apply elem_of_nil in Hc].
      * eapply Forall_impl; [exact IH|]. cbn. intros part [H1 H2].
        split; [exact H1|]. intros c Hc. right. now apply H2.
    + destruct (split sep s) as [|part parts] eqn:Hs;
        [now apply split_nonempty in Hs|].
      apply Forall_cons in IH as [[H1 H2] IH]. constructor.
      * split.
        -- rewrite not_elem_of_cons. split; [congruence | exact H1].
        -- intros c' [->|Hc']%elem_of_cons; [left | right; now apply H2].
      * eapply Forall_impl; [exact IH|]. cbn. intros part' [H1' H2'].
        split; [exact H1'|]. intros c' Hc'. right. now apply H2'.
Qed.

Lemma split_length_sep sep s : sep ∈ s -> 2 <= length (split sep s).
Proof.
  induction s as [|c s IH]; intros H; [now apply elem_of_nil in H|]. cbn.
  destruct (N.eqb_spec c sep) as [->|Hne].
  - cbn. pose proof (split_nonempty sep s). destruct (split sep s); [contradiction|cbn; lia].
  - apply elem_of_cons in H as [->|H]; [contradiction|].
    specialize (IH H). destruct (split sep s); cbn in *; lia.
Qed.

Lemma join_contains_sep sep (part part' : pystr) (parts : list pystr) :
  sep ∈ join [sep] (part :: part' :: parts).
Proof.
  change (join [sep] (part :: part' :: parts))
    with (part ++ [sep] ++ join [sep] (part' :: parts)).
  rewrite !elem_of_app. right. left. apply list_elem_of_singleton. reflexivity.
Qed.

Lemma join_elem c sep (parts : list pystr) :
  c ∈ join [sep] parts -> c = sep \/ exists part, part ∈ parts /\ c ∈ part.
Proof.
  induction parts as [|part parts IH]; [intros H; now apply elem_of_nil in H|].
  destruct parts as [|part' parts].
  - cbn. intros H. right. exists part. split; [left|exact H].
  - change (join [sep] (part :: part' :: parts))
      with (part ++ [sep] ++ join [sep] (part' :: parts)).
    rewrite !elem_of_app. intros [H|[H|H]].
    + right. exists part. split; [left|exact H].
    + left. now apply list_elem_of_singleton in H.
    + destruct (IH H) as [->|(q & Hq & Hc)]; [now left|].
      right. exists q. split; [now right | exact Hc].
Qed.

(** *** Stripping *)

Lemma lstrip_by_elem p s c : c ∈ lstrip_by p s -> c ∈ s.
Proof.
  induction s as [|x s IH]; cbn; [auto|].
  destruct (p x); [|auto]. intros H. right. auto.
Qed.

Lemma lstrip_by_head p s x rest : lstrip_by p s = x :: rest -> p x = false.
Proof.
  induction s as [|y s IH]; cbn; [discriminate|].
  destruct (p y) eqn:Hy; [exact IH|]. intros [= <- _]. exact Hy.
Qed.

Lemma lstrip_by_clear p x rest : p x = false -> lstrip_by p (x :: rest) = x :: rest.
Proof. intros H. cbn. now rewrite H. Qed.

Lemma lstrip_by_all p s : Forall (fun c => p c = true) s -> lstrip_by p s = [].
Proof. induction 1 as [|x s Hx _ IH]; cbn; [reflexivity|]. now rewrite Hx. Qed.

Lemma lstrip_by_app_clear p s x w :
  x ∈ s -> p x = false -> lstrip_by p (s ++ w) = lstrip_by p s ++ w.
Proof.
  induction s as [|y s IH]; intros Hin Hx; [now apply elem_of_nil in Hin|].
  cbn. destruct (p y) eqn:Hy; [|reflexivity].
  apply elem_of_cons in Hin as [->|Hin]; [congruence|]. now apply IH.
Qed.

Lemma rstrip_by_snoc_drop p s c : p c = true -> rstrip_by p (s ++ [c]) = rstrip_by p s.
Proof. intros H. unfold rstrip_by. rewrite rev_unit. cbn. now rewrite H. Qed.

Lemma rstrip_by_snoc_keep p s c : p c = false -> rstrip_by p (s ++ [c]) = s ++ [c].
Proof.
  intros H. unfold rstrip_by. rewrite rev_unit. cbn. rewrite H.
  cbn. now rewrite rev_involutive.
Qed.

Lemma rstrip_by_nil p : rstrip_by p [] = [].
Proof. reflexivity. Qed.

Lemma rstrip_by_app_drop p s w :
  Forall (fun c => p c = true) w -> rstrip_by p (s ++ w) = rstrip_by p s.
Proof.
  induction w as [|c w IH] using rev_ind; intros H; [now rewrite app_nil_r|].
  apply Forall_app in H as [Hw Hc]. apply Forall_cons in Hc as [Hc _].
  rewrite app_assoc, rstrip_by_snoc_drop by exact Hc. now apply IH.
Qed.

(** A string is clear of [p] at both ends. *)
Definition ends_clear p s : Prop :=
  s = [] \/ exists x mid y, (s = [x] /\ p x = false)
                            \/ (s = x :: mid ++ [y] /\ p x = false /\ p y = false).

Lemma ends_clear_first_last p s :
  (forall x rest, s = x :: rest -> p x = false) ->
  (forall y init, s = init ++ [y] -> p y = false) ->
  ends_clear p s.
Proof.
  intros Hf Hl. destruct s as [|x s]; [now left|]. right.
  destruct s as [|z s] using rev_ind.
  - exists x, [], x. left. split; [reflexivity | eapply Hf; reflexivity].
  - exists x, s, z. right. split_and!; [reflexivity | eapply Hf; reflexivity |].
    apply (Hl z (x :: s)). reflexivity.
Qed.

Lemma strip_by_clear p s : ends_clear p s -> strip_by p s = s.
Proof.
  unfold strip_by. intros [->|(x & mid & y & [[-> Hx]|(-> & Hx & Hy)])].
  - reflexivity.
  - rewrite lstrip_by_clear by assumption.
    change [x] with ([] ++ [x]). now apply rstrip_by_snoc_keep.
  - rewrite lstrip_by_clear by assumption.
    change (x :: mid ++ [y]) with ((x :: mid) ++ [y]).
    now apply rstrip_by_snoc_keep.
Qed.

Lemma rstrip_by_spec p s :
  exists w, s = rstrip_by p s ++ w /\ Forall (fun c => p c = true) w
            /\ (forall y init, rstrip_by p s = init ++ [y] -> p y = false).
Proof.
  induction s as [|c s IH] using rev_ind.
  - exists []. split_and!; [reflexivity | constructor |].
    intros y init H. cbn in H. now destruct init.
  - destruct (p c) eqn:Hc.
    + rewrite rstrip_by_snoc_drop by exact Hc.
      destruct IH as (w & Hs & Hw & Hl). exists (w ++ [c]). split_and!.
      * rewrite app_assoc. now rewrite <- Hs.
      * apply Forall_app. split; [exact Hw|]. now constructor.
      * exact Hl.
    + rewrite rstrip_by_snoc_keep by exact Hc. exists []. split_and!.
      * now rewrite app_nil_r.
      * constructor.
      * intros y init H. apply app_inj_tail in H as [_ <-]. exact Hc.
Qed.

Lemma strip_by_ends_clear p s : ends_clear p (strip_by p s).
Proof.
  unfold strip_by. apply ends_clear_first_last.
  - intros x rest H.
    destruct (rstrip_by_spec p (lstrip_by p s)) as (w & Hs & _ & _).
    rewrite H in Hs. cbn in Hs. eapply lstrip_by_head. exact Hs.
  - intros y init H.
    destruct (rstrip_by_spec p (lstrip_by p s)) as (w & _ & _ & Hl).
    eapply Hl. exact H.
Qed.

Lemma strip_by_elem p s c : c ∈ strip_by p s -> c ∈ s.
Proof.
  unfold strip_by. intros H. apply (lstrip_by_elem p).
  destruct (rstrip_by_spec p (lstrip_by p s)) as (w & Hs & _).
  rewrite Hs. apply elem_of_app. now left.
Qed.

Lemma strip_by_idem p s : strip_by p (strip_by p s) = strip_by p s.
Proof. apply strip_by_clear, strip_by_ends_clear. Qed.

(** Appending characters of [p] does not change the stripped string. *)
Lemma strip_by_app_drop p s w :
  Forall (fun c => p c = true) w -> strip_by p (s ++ w) = strip_by p s.
Proof.
  intros Hw. unfold strip_by.
  destruct (decide (Forall (fun c => p c = true) s)) as [Hs|Hs].
  - rewrite !lstrip_by_all; [reflexivity | exact Hs | now apply Forall_app].
  - apply not_Forall_Exists in Hs; [|intros c; apply _].
    apply Exists_exists in Hs as (x & Hx & Hpx).
    apply not_true_is_false in Hpx.
    rewrite (lstrip_by_app_clear p s x w Hx Hpx).
    now apply rstrip_by_app_drop.
Qed.

Lemma strip_by_none p s : Forall (fun c => p c = false) s -> strip_by p s = s.
Proof.
  intros H. apply strip_by_clear, ends_clear_first_last.
  - intros x rest ->. now apply Forall_cons in H as [H _].
  - intros y init ->. apply Forall_app in H as [_ H].
    now apply Forall_cons in H as [H _].
Qed.

(** A string free of [p], between two characters of [p]. *)
Lemma strip_by_wrapped p q s :
  p q = true -> Forall (fun c => p c = false) s ->
  strip_by p (q :: s ++ [q]) = s.
Proof.
  intros Hq Hs. unfold strip_by. cbn [lstrip_by]. rewrite Hq.
  destruct s as [|x s].
  - cbn. now rewrite Hq.
  - apply Forall_cons in Hs as Hs'. destruct Hs' as [Hx _].
    change ((x :: s) ++ [q]) with (x :: (s ++ [q])).
    rewrite lstrip_by_clear by exact Hx.
    change (x :: s ++ [q]) with ((x :: s) ++ [q]).
    rewrite rstrip_by_snoc_drop by exact Hq.
    assert (H := strip_by_none p (x :: s) Hs). unfold strip_by in H.
    rewrite lstrip_by_clear in H by exact Hx. exact H.
Qed.

(** *** Case and character classes *)

Ltac N_decide :=
  repeat match goal with
         | |- context [N.leb ?a ?b] =>
             first [ rewrite (proj2 (N.leb_le a b)) by lia
                   | rewrite (proj2 (N.leb_gt a b)) by lia ]
         | |- context [N.eqb ?a ?b] =>
             first [ rewrite (proj2 (N.eqb_eq a b)) by lia
                   | rewrite (proj2 (N.eqb_neq a b)) by lia ]
         end.

Lemma isspace_false_range c :
  (32 < c < 133 \/ 160 < c < 5760)%N -> isspace c = false.
Proof. intros [H|H]; unfold isspace; N_decide; reflexivity. Qed.

Lemma lower_char_cases c :
  lower_char c = c
  \/ (lower_char c = c + 32 /\ (65 <= c <= 90 \/ 192 <= c <= 222))%N.
Proof.
  unfold lower_char.
  destruct ((65 <=? c) && (c <=? 90)
            || (192 <=? c) && (c <=? 222) && negb (c =? 215))%N eqn:H;
    [right | now left].
  split; [reflexivity|]. apply orb_prop in H as [H|H].
  - apply andb_prop in H as [H1 H2]. apply N.leb_le in H1, H2. lia.
  - apply andb_prop in H as [H _]. apply andb_prop in H as [H1 H2].
    apply N.leb_le in H1, H2. lia.
Qed.

Lemma lower_char_idem c : lower_char (lower_char c) = lower_char c.
Proof.
  destruct (lower_char_cases c) as [Hc|[Hc H]]; rewrite Hc; [exact Hc|].
  unfold lower_char. destruct H; N_decide; reflexivity.
Qed.

Lemma isspace_lower_char c : isspace (lower_char c) = isspace c.
Proof.
  destruct (lower_char_cases c) as [Hc|[Hc H]]; rewrite Hc; [reflexivity|].
  rewrite !isspace_false_range by lia. reflexivity.
Qed.

(** Lower-casing neither creates nor removes a comma, a line feed, a tab
    or a space. *)
Lemma lower_char_keeps c x :
  x = COMMA \/ x = NEWLINE \/ x = TAB \/ x = SPACE ->
  (lower_char c =? x)%N = (c =? x)%N.
Proof.
  intros Hx.
  assert (Hlt : (x < 65)%N)
    by (unfold COMMA, NEWLINE, TAB, SPACE in Hx; lia).
  destruct (lower_char_cases c) as [Hc|[Hc H]]; rewrite Hc; [reflexivity|].
  rewrite (proj2 (N.eqb_neq (c + 32) x)) by lia.
  rewrite (proj2 (N.eqb_neq c x)) by lia. reflexivity.
Qed.

Lemma lower_idem s : lower (lower s) = lower s.
Proof.
  unfold lower. rewrite map_map. apply map_ext. intros c. apply lower_char_idem.
Qed.

Lemma contains_lower x s :
  x = COMMA \/ x = NEWLINE \/ x = TAB \/ x = SPACE ->
  contains x (lower s) = contains x s.
Proof.
  intros Hx. unfold contains, lower. induction s as [|c s IH]; [reflexivity|].
  cbn. rewrite IH. f_equal. rewrite (N.eqb_sym x), (N.eqb_sym x c).
  now apply lower_char_keeps.
Qed.

Lemma lstrip_by_map p (f : N -> N) s :
  (forall c, p (f c) = p c) ->
  lstrip_by p (List.map f s) = List.map f (lstrip_by p s).
Proof.
  intros H. induction s as [|c s IH]; [reflexivity|]. cbn.
  rewrite H. destruct (p c); [exact IH | reflexivity].
Qed.

Lemma strip_by_map p (f : N -> N) s :
  (forall c, p (f c) = p c) ->
  strip_by p (List.map f s) = List.map f (strip_by p s).
Proof.
  intros H. unfold strip_by, rstrip_by.
  rewrite (lstrip_by_map p f s H), <- map_rev, (lstrip_by_map p f _ H), map_rev.
  reflexivity.
Qed.

Lemma strip_lower s : strip (lower s) = lower (strip s).
Proof. apply strip_by_map, isspace_lower_char. Qed.

Lemma lower_replace s :
  lower (replace SPACE UNDERSCORE s) = replace SPACE UNDERSCORE (lower s).
Proof.
  unfold lower, replace. rewrite !map_map. apply map_ext. intros c.
  rewrite (lower_char_keeps c SPACE) by tauto.
  destruct (N.eqb_spec c SPACE); reflexivity.
Qed.

Lemma replace_elem c s :
  c ∈ replace SPACE UNDERSCORE s -> c = UNDERSCORE \/ (c ∈ s /\ c <> SPACE).
Proof.
  unfold replace. rewrite list_elem_of_In, in_map_iff. intros (x & Hx & Hin).
  destruct (N.eqb_spec x SPACE) as [Heq|Hne]; [left; congruence|].
  right. rewrite <- Hx. split; [now apply list_elem_of_In | exact Hne].
Qed.

Lemma replace_no_space s :
  SPACE ∉ s -> replace SPACE UNDERSCORE s = s.
Proof.
  intros H. unfold replace. induction s as [|c s IH]; [reflexivity|].
  apply not_elem_of_cons in H as [Hc Hs]. cbn. rewrite (IH Hs).
  destruct (N.eqb_spec c SPACE); [congruence | reflexivity].
Qed.

Lemma replace_with_space s :
  SPACE ∈ s -> UNDERSCORE ∈ replace SPACE UNDERSCORE s.
Proof.
  intros H. unfold replace. rewrite list_elem_of_In, in_map_iff.
  exists SPACE. split; [reflexivity | now apply list_elem_of_In].
Qed.

Lemma ends_clear_map p (f : N -> N) s :
  (forall c, p c = false -> p (f c) = false) ->
  ends_clear p s -> ends_clear p (List.map f s).
Proof.
  intros H [->|(x & mid & y & [[-> Hx]|(-> & Hx & Hy)])].
  - now left.
  - right. exists (f x), [], (f x). left. split; [reflexivity | auto].
  - right. exists (f x), (List.map f mid), (f y). right.
    split_and!; [|auto|auto]. cbn. now rewrite map_app.
Qed.

End Strings.

(** ** Channel names of the text parser *)

Lemma column_pairs_checked :
  forallb (fun kv => negb (contains UNDERSCORE (fst kv)) && name_okb (snd kv))
          column_pairs = true.
Proof. vm_compute. reflexivity. Qed.

Lemma column_map_entry (key value : pystr) :
  column_map !! key = Some value ->
  (UNDERSCORE ∉ key) /\ name_ok value /\ (TAB ∉ value).
Proof.
  intros H. apply elem_of_list_to_map_2 in H.
  pose proof column_pairs_checked as Hc. rewrite forallb_forall in Hc.
  specialize (Hc (key, value)). rewrite <- list_elem_of_In in Hc.
  specialize (Hc H). cbn [fst snd] in Hc. unfold name_okb, pystr_eqb in Hc.
  rewrite !andb_true_iff in Hc. destruct_and!.
  repeat match goal with
         | H : negb _ = true |- _ => apply negb_true_iff in H
         | H : bool_decide _ = true |- _ => apply bool_decide_eq_true_1 in H
         end.
  split_and!.
  - now apply contains_false.
  - unfold name_ok. split_and!; assumption.
  - now apply contains_false.
Qed.

(** Every name the parser assigns is in normal form: mapping it again
    returns it, it has no white space at its ends and no comma or line
    feed; it has a tab only if the column had one. *)
Lemma map_column_ok (col : pystr) :
  COMMA ∉ col -> NEWLINE ∉ col ->
  name_ok (map_column col) /\ (TAB ∉ col -> TAB ∉ map_column col).
Proof.
  intros Hcomma Hnl. unfold map_column.
  set (cl := strip (lower col)).
  assert (Hcl : forall x, x = COMMA \/ x = NEWLINE \/ x = TAB \/ x = SPACE ->
                          x ∉ col -> x ∉ cl).
  { intros x Hx Hn Hin. apply strip_by_elem in Hin.
    apply contains_true in Hin. rewrite contains_lower in Hin by exact Hx.
    apply contains_true in Hin. contradiction. }
  destruct (column_map !! cl) as [v|] eqn:Hlook.
  { apply column_map_entry in Hlook as (_ & Hok & Htab). auto. }
  set (n := replace SPACE UNDERSCORE cl).
  assert (Hn : forall x, x <> UNDERSCORE -> x ∉ cl -> x ∉ n).
  { intros x Hx Hnot Hin. apply replace_elem in Hin as [->|[Hin _]]; auto. }
  assert (Hstrip : strip n = n).
  { apply strip_by_clear. apply ends_clear_map.
    - intros c Hc. destruct (N.eqb_spec c SPACE); [reflexivity | exact Hc].
    - apply strip_by_ends_clear. }
  assert (Hlower : lower n = n).
  { unfold n, cl. now rewrite lower_replace, <- strip_lower, lower_idem. }
  assert (Hnospace : SPACE ∉ n).
  { intros Hin. apply replace_elem in Hin as [Hu|[_ Hne]]; [discriminate | congruence]. }
  split; [|intros Htab; apply Hn; [discriminate | apply Hcl; auto]].
  unfold name_ok. split_and!.
  - apply contains_false, Hn; [discriminate | apply Hcl; auto].
  - apply contains_false, Hn; [discriminate | apply Hcl; auto].
  - exact Hstrip.
  - unfold map_column. rewrite Hlower, Hstrip.
    destruct (column_map !! n) as [v|] eqn:Hlook'.
    + exfalso. destruct (column_map_entry _ _ Hlook') as (Hund & _).
      destruct (decide (SPACE ∈ cl)) as [Hsp|Hsp].
      * apply Hund. now apply replace_with_space.
      * unfold n in Hlook'. rewrite (replace_no_space _ Hsp) in Hlook'. congruence.
    + now apply replace_no_space.
Qed.

(** On code points up to U+00FF the names stay in that range. *)
Lemma map_column_latin1 (col : pystr) :
  latin1 col = true -> latin1 (map_column col) = true.
Proof.
  intros Hlatin. unfold map_column. set (cl := strip (lower col)).
  assert (Hcl : latin1 cl = true).
  { unfold latin1 in *. rewrite forallb_forall in *. intros c Hc.
    apply list_elem_of_In in Hc. unfold cl in Hc. apply strip_by_elem in Hc.
    apply list_elem_of_In, in_map_iff in Hc as (x & <- & Hx).
    specialize (Hlatin x Hx). apply N.leb_le in Hlatin. apply N.leb_le.
    unfold lower_char. destruct (_ || _) eqn:Hcase; [|exact Hlatin].
    rewrite orb_true_iff, !andb_true_iff, !N.leb_le in Hcase. lia. }
  destruct (column_map !! cl) as [v|] eqn:Hlook.
  - apply elem_of_list_to_map_2 in Hlook.
    assert (Hall : forallb (fun kv => latin1 (snd kv)) column_pairs = true)
      by (vm_compute; reflexivity).
    rewrite forallb_forall in Hall.
    apply (Hall (cl, v)). now apply list_elem_of_In.
  - unfold latin1 in *. rewrite forallb_forall in *. intros c Hc.
    apply in_map_iff in Hc as (x & <- & Hx). specialize (Hcl x Hx).
    destruct (N.eqb_spec x SPACE); [reflexivity | exact Hcl].
Qed.

(** ** Records built from a row *)

Section Records.

Variable py_float : pystr -> option float.

Implicit Types (names values : list pystr) (r : DatalogRecord.t).

Lemma combine_fst {A B : Type} (l : list A) (k : list B) :
  length l <= length k -> (combine l k).*1 = l.
Proof.
  revert k. induction l as [|x l IH]; intros [|y k] H; cbn in *;
    try reflexivity; try lia.
  f_equal. apply IH. lia.
Qed.

Lemma fold_insert_other (f : pystr -> float) (kvs : list (pystr * pystr)) :
  forall (m : gmap pystr float) (key : pystr),
  key ∉ kvs.*1 ->
  fold_left (fun acc kv => <[ fst kv := f (snd kv) ]> acc) kvs m !! key
  = m !! key.
Proof.
  induction kvs as [|[k c] kvs IH]; intros m key Hn; [reflexivity|].
  cbn in Hn. apply not_elem_of_cons in Hn as [Hk Hn].
  cbn [fold_left fst snd]. rewrite (IH _ _ Hn). now apply lookup_insert_ne.
Qed.

Lemma fold_insert_dom (f : pystr -> float) (kvs : list (pystr * pystr)) :
  forall (m : gmap pystr float) (key : pystr),
  is_Some (fold_left (fun acc kv => <[ fst kv := f (snd kv) ]> acc) kvs m !! key)
  <-> key ∈ kvs.*1 \/ is_Some (m !! key).
Proof.
  induction kvs as [|[k c] kvs IH]; intros m key; cbn [fold_left fst snd].
  - cbn. rewrite elem_of_nil. tauto.
  - rewrite IH. cbn. rewrite elem_of_cons.
    destruct (decide (k = key)) as [->|Hne].
    + rewrite lookup_insert_eq. split; [intros [?|?]; auto | intros _; right; eauto].
    + rewrite lookup_insert_ne by exact Hne. split; [tauto|].
      intros [[?|?]|?]; auto. congruence.
Qed.

Lemma fold_insert_same (f : pystr -> float) (kvs : list (pystr * pystr))
    (key : pystr) (v : float) :
  (forall c, (key, c) ∈ kvs -> f c = v) ->
  forall m : gmap pystr float,
  key ∈ kvs.*1 ->
  fold_left (fun acc kv => <[ fst kv := f (snd kv) ]> acc) kvs m !! key = Some v.
Proof.
  intros Hsame. induction kvs as [|[k c] kvs IH]; intros m Hin;
    [now apply elem_of_nil in Hin|].
  cbn [fold_left fst snd].
  destruct (decide (key ∈ kvs.*1)) as [Hk|Hk].
  - apply IH; [|exact Hk]. intros c' Hc'. apply Hsame. now right.
  - rewrite (fold_insert_other _ _ _ _ Hk).
    cbn in Hin. apply elem_of_cons in Hin as [->|Hin]; [|contradiction].
    rewrite lookup_insert_eq. f_equal. apply Hsame. left.
Qed.

(** The keys of a record built from a full row are the channel names. *)
Lemma build_record_dom names values (key : pystr) :
  length values = length names ->
  is_Some (DatalogRecord.data (build_record py_float names values) !! key)
  <-> key ∈ names.
Proof.
  intros Hlen. unfold build_record. cbn [DatalogRecord.data].
  rewrite (fold_insert_dom (parse_field py_float)), combine_fst by lia.
  rewrite lookup_empty. split; [intros [?|[? [=]]]; assumption | auto].
Qed.

(** Reading the cells of a record back gives the record. *)
Lemma build_record_cells names r (cells : list pystr) :
  (forall key, is_Some (DatalogRecord.data r !! key) <-> key ∈ names) ->
  Forall2 (fun key cell =>
             Some (parse_field py_float cell) = DatalogRecord.data r !! key)
          names cells ->
  build_record py_float names cells = r.
Proof.
  intros Hdom Hcells. destruct r as [m]. cbn [DatalogRecord.data] in *.
  unfold build_record. f_equal. apply map_eq. intros key.
  assert (Hfst : (combine names cells).*1 = names)
    by (apply combine_fst; apply Forall2_length in Hcells; lia).
  destruct (decide (key ∈ names)) as [Hin|Hn].
  - apply Hdom in Hin as Hv. destruct Hv as [v Hv]. rewrite Hv.
    apply fold_insert_same; [|now rewrite Hfst].
    intros c Hc. clear Hdom Hfst Hin.
    induction Hcells as [|n c' names cells Hnc _ IH];
      [now apply elem_of_nil in Hc|].
    cbn in Hc. apply elem_of_cons in Hc as [[= <- <-]|Hc]; [|now apply IH].
    rewrite Hv in Hnc. now injection Hnc.
  - rewrite fold_insert_other by now rewrite Hfst.
    rewrite lookup_empty. symmetry. apply eq_None_not_Some.
    intros Hs. apply Hn, Hdom, Hs.
Qed.

Lemma set_records_records (d : SniperDatalog.t) (recs : list DatalogRecord.t) :
  SniperDatalog.records (SniperDatalog.set_records d recs) = recs.
Proof. reflexivity. Qed.

Lemma text_rows_spec (delim : N) names (rest : list pystr) :
  forall d0,
  fold_left (text_row py_float delim names) rest d0
  = SniperDatalog.set_records d0
      (SniperDatalog.records d0
       ++ List.map (build_record py_float names)
            (List.filter (fun values => length values =? length names)
                         (List.map (split delim) rest))).
Proof.
  induction rest as [|line rest IH]; intros d0; cbn [fold_left List.map List.filter].
  - rewrite app_nil_r. now destruct d0.
  - rewrite IH. unfold text_row.
    destruct (length (split delim line) =? length names); cbn [negb].
    + unfold SniperDatalog.append_record, SniperDatalog.set_records.
      cbn [List.map SniperDatalog.records SniperDatalog.channels
           SniperDatalog.sample_rate_hz SniperDatalog.metadata
           SniperDatalog.filename SniperDatalog.parse_errors].
      rewrite <- app_assoc. reflexivity.
    + reflexivity.
Qed.

(** The parser, unfolded: with a header and one line more, the channels
    are the mapped columns and the records come from the lines that have
    as many fields as the header. *)
Lemma parse_text_unfold (text filepath : pystr) :
  match split NEWLINE (strip text) with
  | header :: line :: more =>
      let delim := if contains COMMA header then COMMA else TAB in
      let names :=
        List.map map_column
          (List.map (fun c => strip_quotes (strip c)) (split delim header)) in
      _parse_text_datalog py_float text filepath
      = parsed_datalog names
          (List.map (build_record py_float names)
             (List.filter (fun values => length values =? length names)
                          (List.map (split delim) (line :: more))))
          filepath
  | _ => _parse_text_datalog py_float text filepath = parsed_datalog [] [] filepath
  end.
Proof.
  unfold _parse_text_datalog.
  destruct (split NEWLINE (strip text)) as [|header [|line more]]; try reflexivity.
  cbn [length Nat.ltb Nat.leb]. cbn zeta. rewrite text_rows_spec. reflexivity.
Qed.

End Records.

(** ** The CSV writer *)

Section CsvText.

Implicit Types (s w name cell : pystr) (names cells : list pystr).

Lemma writerow_row_text (fields : list pystr) :
  Csv.writerow fields = row_text fields ++ [CR; NEWLINE].
Proof.
  unfold Csv.writerow, row_text.
  destruct fields as [|[|c f] [|f' fs]]; reflexivity.
Qed.

Lemma plain_cell_chars cell :
  plain_cell cell = true ->
  cell <> []
  /\ Forall (fun c => isspace c = false /\ c <> COMMA /\ c <> QUOTE) cell.
Proof.
  unfold plain_cell. intros [Hne Hall]%andb_prop.
  apply negb_true_iff, bool_decide_eq_false_1 in Hne. split; [exact Hne|].
  rewrite forallb_forall in Hall. apply Forall_forall. intros c Hc.
  apply list_elem_of_In, Hall, negb_true_iff in Hc.
  apply orb_false_iff in Hc as [Hc Hq]. apply orb_false_iff in Hc as [Hs Hcm].
  apply N.eqb_neq in Hq, Hcm. auto.
Qed.

Lemma escape_no_quote s : QUOTE ∉ s -> Csv.escape s = s.
Proof.
  intros H. unfold Csv.escape. induction s as [|c s IH]; [reflexivity|].
  apply not_elem_of_cons in H as [Hc Hs]. cbn.
  destruct (N.eqb_spec c QUOTE); [congruence|]. cbn. now rewrite (IH Hs).
Qed.

Lemma needs_quote_false s :
  Forall (fun c => c <> COMMA /\ c <> QUOTE /\ c <> CR /\ c <> NEWLINE) s ->
  Csv.needs_quote s = false.
Proof.
  unfold Csv.needs_quote. induction 1 as [|c s (H1 & H2 & H3 & H4) _ IH];
    [reflexivity|].
  cbn. rewrite IH.
  rewrite (proj2 (N.eqb_neq c COMMA)), (proj2 (N.eqb_neq c QUOTE)),
    (proj2 (N.eqb_neq c CR)), (proj2 (N.eqb_neq c NEWLINE)) by assumption.
  reflexivity.
Qed.

Lemma field_plain cell : plain_cell cell = true -> Csv.field cell = cell.
Proof.
  intros [_ Hall]%plain_cell_chars. unfold Csv.field.
  rewrite needs_quote_false; [reflexivity|].
  eapply Forall_impl; [exact Hall|]. cbn. intros c (Hs & Hc & Hq).
  split_and!; auto; intros ->; discriminate.
Qed.

Lemma row_text_plain cells :
  Forall (fun cell => plain_cell cell = true) cells ->
  row_text cells = join [COMMA] cells.
Proof.
  intros Hall. unfold row_text.
  assert (Hmap : List.map Csv.field cells = cells).
  { induction Hall as [|c cells Hc _ IH]; [reflexivity|].
    cbn. now rewrite (field_plain _ Hc), IH. }
  rewrite Hmap. destruct cells as [|[|c f] [|f' fs]]; try reflexivity.
  apply Forall_cons in Hall as [Hc _]. discriminate.
Qed.

(** A field is its name, between quotes when the name holds a CR. *)
Lemma field_name name :
  QUOTE ∉ name -> COMMA ∉ name -> NEWLINE ∉ name ->
  Csv.field name = name \/ Csv.field name = QUOTE :: name ++ [QUOTE].
Proof.
  intros Hq _ _. unfold Csv.field.
  destruct (Csv.needs_quote name); [right | now left].
  now rewrite (escape_no_quote _ Hq).
Qed.

Lemma row_text_header names :
  row_text names = join [COMMA] (List.map (header_field names) names).
Proof.
  unfold row_text, header_field.
  destruct (decide (names = [[]])) as [->|Hne]; [reflexivity|].
  rewrite bool_decide_eq_false_2 by exact Hne.
  destruct names as [|[|c f] [|f' fs]]; try reflexivity. contradiction.
Qed.

Lemma header_field_elem names name c :
  QUOTE ∉ name -> COMMA ∉ name -> NEWLINE ∉ name ->
  c ∈ header_field names name -> c = QUOTE \/ c ∈ name.
Proof.
  intros Hq Hc Hn. unfold header_field.
  destruct (bool_decide (names = [[]])).
  - intros H. left. apply elem_of_cons in H as [->|H]; [reflexivity|].
    apply list_elem_of_singleton in H. exact H.
  - destruct (field_name name Hq Hc Hn) as [->| ->]; [now right|].
    rewrite elem_of_cons, elem_of_app, list_elem_of_singleton. tauto.
Qed.

End CsvText.

(** ** Lines and fields of an exported text *)

Section Lines.

Implicit Types (s w t : pystr) (texts parts : list pystr).

Lemma app_last_nil parts : app_last parts [] = parts.
Proof.
  induction parts as [|p [|p' parts] IH]; [reflexivity| |].
  - cbn. now rewrite app_nil_r.
  - change (p :: app_last (p' :: parts) [] = p :: p' :: parts). now rewrite IH.
Qed.

Lemma length_app_last parts w : length (app_last parts w) = length parts.
Proof.
  induction parts as [|p [|p' parts] IH]; [reflexivity..|].
  change (S (length (app_last (p' :: parts) w)) = S (length (p' :: parts))).
  now rewrite IH.
Qed.

Lemma Forall2_app_last {A : Type} (P : A -> pystr -> Prop) (h : A -> pystr)
    (l : list A) w :
  Forall (fun a => P a (h a ++ w) /\ P a (h a)) l ->
  Forall2 P l (app_last (List.map h l) w).
Proof.
  induction 1 as [|a l [Ha Ha'] Hl IH]; [constructor|].
  destruct l as [|b l].
  - cbn. constructor; [exact Ha | constructor].
  - change (Forall2 P (a :: b :: l) (h a :: app_last (List.map h (b :: l)) w)).
    constructor; [exact Ha' | exact IH].
Qed.

Lemma map_app_last {A B : Type} (g : pystr -> B) (h : A -> pystr) (k : A -> B)
    (l : list A) w :
  Forall (fun a => g (h a ++ w) = k a /\ g (h a) = k a) l ->
  List.map g (app_last (List.map h l) w) = List.map k l.
Proof.
  intros H. apply (Forall2_app_last (fun a x => g x = k a)) in H.
  induction H as [|a x l xs Hax _ IH]; [reflexivity|]. cbn. now rewrite Hax, IH.
Qed.

(** Splitting a written row: at the comma, or at the tab when the row has
    one field. *)
Lemma split_row (delim : N) parts w :
  parts <> [] ->
  delim = COMMA \/ length parts = 1 ->
  Forall (fun part => delim ∉ part) parts ->
  delim ∉ w ->
  split delim (join [COMMA] parts ++ w) = app_last parts w.
Proof.
  intros Hne [->|Hone] Hall Hw.
  - now apply split_join.
  - destruct parts as [|p [|p' parts]]; try discriminate.
    cbn. apply Forall_cons in Hall as [Hp _].
    apply split_no_sep. rewrite elem_of_app. tauto.
Qed.

Lemma crlf_lines_nonempty t texts : crlf_lines (t :: texts) <> [].
Proof. destruct texts; discriminate. Qed.

Lemma crlf_text_join texts :
  texts <> [] ->
  crlf_text texts = join [NEWLINE] (crlf_lines texts) ++ [CR; NEWLINE].
Proof.
  unfold crlf_text. induction texts as [|t texts IH]; [contradiction|]. intros _.
  destruct texts as [|t' texts].
  - cbn. now rewrite app_nil_r.
  - rewrite (map_cons _ t), concat_cons, IH by discriminate.
    change (crlf_lines (t :: t' :: texts))
      with ((t ++ [CR]) :: crlf_lines (t' :: texts)).
    pose proof (crlf_lines_nonempty t' texts) as Hne.
    destruct (crlf_lines (t' :: texts)) as [|x xs]; [contradiction|].
    change (join [NEWLINE] ((t ++ [CR]) :: x :: xs))
      with ((t ++ [CR]) ++ [NEWLINE] ++ join [NEWLINE] (x :: xs)).
    rewrite <- !app_assoc. reflexivity.
Qed.

Lemma crlf_lines_Forall2 texts :
  Forall2 (fun line t => exists w, cr_or_none w /\ line = t ++ w)
          (crlf_lines texts) texts.
Proof.
  induction texts as [|t [|t' texts] IH]; [constructor| |].
  - cbn. constructor; [|constructor]. exists []. split; [now left|].
    now rewrite app_nil_r.
  - change (crlf_lines (t :: t' :: texts))
      with ((t ++ [CR]) :: crlf_lines (t' :: texts)).
    constructor; [|exact IH]. exists [CR]. split; [now right | reflexivity].
Qed.

Lemma head_clear_app p s w : head_clear p s -> head_clear p (s ++ w).
Proof. intros (x & rest & -> & Hx). exists x, (rest ++ w). auto. Qed.

Lemma last_clear_app p s w : last_clear p w -> last_clear p (s ++ w).
Proof.
  intros (init & y & -> & Hy). exists (s ++ init), y.
  split; [now rewrite app_assoc | exact Hy].
Qed.

Lemma strip_by_head_last p s :
  head_clear p s -> last_clear p s -> strip_by p s = s.
Proof.
  intros (x & rest & Hs & Hx) (init & y & Hs' & Hy).
  apply strip_by_clear, ends_clear_first_last.
  - intros x' rest' H. rewrite H in Hs. now injection Hs as -> _.
  - intros y' init' H. rewrite H in Hs'. now apply app_inj_tail in Hs' as [_ ->].
Qed.

Lemma join_crlf_lines_head p t texts :
  head_clear p t -> head_clear p (join [NEWLINE] (crlf_lines (t :: texts))).
Proof.
  intros H. destruct texts as [|t' texts]; [exact H|].
  change (crlf_lines (t :: t' :: texts))
    with ((t ++ [CR]) :: crlf_lines (t' :: texts)).
  pose proof (crlf_lines_nonempty t' texts) as Hne.
  destruct (crlf_lines (t' :: texts)) as [|x xs]; [contradiction|].
  change (join [NEWLINE] ((t ++ [CR]) :: x :: xs))
    with ((t ++ [CR]) ++ [NEWLINE] ++ join [NEWLINE] (x :: xs)).
  rewrite <- app_assoc. now apply head_clear_app.
Qed.

Lemma join_crlf_lines_last p texts t :
  last_clear p t -> last_clear p (join [NEWLINE] (crlf_lines (texts ++ [t]))).
Proof.
  intros H. induction texts as [|t0 texts IH]; [exact H|].
  cbn [app]. destruct (texts ++ [t]) as [|t1 rest] eqn:Hrest;
    [now destruct texts|].
  change (crlf_lines (t0 :: t1 :: rest))
    with ((t0 ++ [CR]) :: crlf_lines (t1 :: rest)).
  pose proof (crlf_lines_nonempty t1 rest) as Hne.
  destruct (crlf_lines (t1 :: rest)) as [|x xs]; [contradiction|].
  change (join [NEWLINE] ((t0 ++ [CR]) :: x :: xs))
    with ((t0 ++ [CR]) ++ [NEWLINE] ++ join [NEWLINE] (x :: xs)).
  rewrite app_assoc. now apply last_clear_app.
Qed.

Lemma crlf_lines_no_newline texts :
  Forall (fun x => NEWLINE ∉ x) texts ->
  Forall (fun x => NEWLINE ∉ x) (crlf_lines texts).
Proof.
  intros Hnl. pose proof (crlf_lines_Forall2 texts) as H2.
  induction H2 as [|line x lines l (w & Hw & ->) _ IH]; [constructor|].
  apply Forall_cons in Hnl as [Hx Hnl]. constructor; [|now apply IH].
  rewrite elem_of_app. intros [?|Hin]; [contradiction|].
  destruct Hw as [-> | ->]; [now apply elem_of_nil in Hin|].
  apply list_elem_of_singleton in Hin. discriminate.
Qed.

(** The lines the parser sees in an exported text. *)
Lemma exported_lines t texts t' :
  head_clear isspace t ->
  last_clear isspace t' ->
  Forall (fun x => NEWLINE ∉ x) (t :: texts ++ [t']) ->
  split NEWLINE (strip (crlf_text (t :: texts ++ [t'])))
  = crlf_lines (t :: texts ++ [t']).
Proof.
  intros Hh Hl Hnl. rewrite crlf_text_join by discriminate.
  unfold strip. rewrite strip_by_app_drop by (repeat constructor).
  rewrite strip_by_head_last.
  - rewrite <- (app_nil_r (join _ _)), split_join.
    + apply app_last_nil.
    + apply crlf_lines_nonempty.
    + now apply crlf_lines_no_newline.
    + apply not_elem_of_nil.
  - now apply join_crlf_lines_head.
  - change (t :: texts ++ [t']) with ((t :: texts) ++ [t']).
    now apply join_crlf_lines_last.
Qed.

End Lines.

(** ** Reading an exported text back *)

Section RoundTrip.

Variable py_float : pystr -> option float.
Variable float_str : float -> pystr.
Variable file_open : pystr -> option exn.
Variable file_write : pystr -> pystr -> option exn.
Variable file_close : pystr -> option exn.

Implicit Types (s w name cell : pystr) (names cells : list pystr)
  (r : DatalogRecord.t) (recs : list DatalogRecord.t).

Lemma cr_or_none_space w : cr_or_none w -> Forall (fun c => isspace c = true) w.
Proof. intros [-> | ->]; repeat constructor. Qed.

Lemma ends_clear_head_last (p : N -> bool) s :
  ends_clear p s -> s <> [] -> head_clear p s /\ last_clear p s.
Proof.
  intros [->|(x & mid & y & [[-> Hx]|(-> & Hx & Hy)])] Hne; [contradiction| |].
  - split; [exists x, [] | exists [], x]; auto.
  - split; [exists x, (mid ++ [y]) | exists (x :: mid), y]; auto.
Qed.

Lemma plain_cell_reads cell w :
  plain_cell cell = true -> cr_or_none w ->
  strip_quotes (strip (cell ++ w)) = cell.
Proof.
  intros [_ Hall]%plain_cell_chars Hw. unfold strip, strip_quotes.
  rewrite strip_by_app_drop by now apply cr_or_none_space.
  rewrite (strip_by_none isspace cell)
    by (eapply Forall_impl; [exact Hall|]; cbn; tauto).
  apply strip_by_none. eapply Forall_impl; [exact Hall|]. cbv beta.
  intros c (_ & _ & Hq). apply N.eqb_neq. congruence.
Qed.

Lemma parse_field_cell (v : float) w :
  plain_cell (float_str v) = true -> py_float (float_str v) = Some v ->
  cr_or_none w ->
  parse_field py_float (float_str v ++ w) = v.
Proof.
  intros Hp Hv Hw. unfold parse_field. now rewrite plain_cell_reads, Hv.
Qed.

Lemma no_quote_strip name :
  contains QUOTE name = false -> strip_quotes name = name.
Proof.
  intros H%contains_false. apply strip_by_none, Forall_forall.
  intros c Hc. apply N.eqb_neq. intros <-. contradiction.
Qed.

Lemma header_field_reads names name w :
  name ∈ names -> name_ok name -> contains QUOTE name = false ->
  cr_or_none w ->
  strip_quotes (strip (header_field names name ++ w)) = name.
Proof.
  intros Hin (Hc & Hn & Hs & _) Hq Hw. unfold strip.
  rewrite strip_by_app_drop by now apply cr_or_none_space.
  unfold header_field. destruct (decide (names = [[]])) as [->|Hne].
  - rewrite bool_decide_eq_true_2 by reflexivity.
    apply list_elem_of_singleton in Hin. subst name. reflexivity.
  - rewrite bool_decide_eq_false_2 by exact Hne.
    apply contains_false in Hc, Hn. pose proof Hq as Hq'.
    apply contains_false in Hq'.
    destruct (field_name name Hq' Hc Hn) as [-> | ->].
    + fold (strip name). rewrite Hs. now apply no_quote_strip.
    + rewrite strip_by_head_last.
      * apply strip_by_wrapped; [apply N.eqb_refl|].
        apply Forall_forall. intros c Hc'. apply N.eqb_neq. intros <-. contradiction.
      * exists QUOTE, (name ++ [QUOTE]). auto.
      * exists (QUOTE :: name), QUOTE. auto.
Qed.

Lemma header_delimiter names :
  names <> [] ->
  Forall (fun name => contains QUOTE name = false /\ name_ok name) names ->
  let delim := if contains COMMA (row_text names ++ [CR]) then COMMA else TAB in
  (delim = COMMA /\ 2 <= length names) \/ (delim = TAB /\ length names = 1).
Proof.
  intros Hne Hall. cbn zeta. rewrite row_text_header.
  destruct names as [|n [|n' names]]; [contradiction| |].
  - right. split; [|reflexivity].
    apply Forall_cons in Hall as [(Hq & Hc & Hn & _) _].
    apply contains_false in Hq, Hc, Hn. cbn [List.map join].
    assert (Hno : contains COMMA (header_field [n] n ++ [CR]) = false).
    { apply contains_false. rewrite elem_of_app, list_elem_of_singleton.
      intros [Hin|?]; [|discriminate].
      apply header_field_elem in Hin as [?|?]; auto. discriminate. }
    now rewrite Hno.
  - left. split; [|cbn; lia].
    assert (Hyes : contains COMMA
                     (join [COMMA] (List.map (header_field (n :: n' :: names))
                                             (n :: n' :: names)) ++ [CR]) = true).
    { apply contains_true. rewrite elem_of_app. left. apply join_contains_sep. }
    now rewrite Hyes.
Qed.

Lemma last_clear_join (p : N -> bool) (sep : pystr) (parts : list pystr) part :
  last_clear p part -> last_clear p (join sep (parts ++ [part])).
Proof.
  intros H. induction parts as [|q parts IH]; [exact H|].
  cbn [app]. destruct (parts ++ [part]) as [|x xs] eqn:Hx; [now destruct parts|].
  change (join sep (q :: x :: xs)) with (q ++ sep ++ join sep (x :: xs)).
  rewrite app_assoc. now apply last_clear_app.
Qed.

Lemma plain_cell_last cell :
  plain_cell cell = true -> last_clear isspace cell.
Proof.
  intros [Hne Hall]%plain_cell_chars.
  destruct cell as [|y cell _] using rev_ind; [contradiction|].
  apply Forall_app in Hall as [_ Hy]. apply Forall_cons in Hy as [(Hy & _) _].
  exists cell, y. auto.
Qed.

Lemma name_head_clear name :
  name <> [] -> strip name = name -> head_clear isspace name.
Proof.
  intros Hne Hs. apply ends_clear_head_last; [|exact Hne].
  rewrite <- Hs. apply strip_by_ends_clear.
Qed.

Lemma header_head_clear names :
  names <> [] ->
  Forall (fun name => contains QUOTE name = false /\ name_ok name) names ->
  head_clear isspace (row_text names).
Proof.
  intros Hne Hall. rewrite row_text_header.
  destruct names as [|n rest]; [contradiction|].
  apply Forall_cons in Hall as [(Hq & Hc & Hn & Hs & _) _].
  apply contains_false in Hq, Hc, Hn.
  assert (Hfield : n <> [] -> head_clear isspace (Csv.field n)).
  { intros Hnn. destruct (field_name n Hq Hc Hn) as [-> | ->].
    - now apply name_head_clear.
    - exists QUOTE, (n ++ [QUOTE]). auto. }
  unfold header_field. destruct (decide (n :: rest = [[]])) as [Heq|Hneq].
  - rewrite bool_decide_eq_true_2 by exact Heq. injection Heq as -> ->.
    cbn. exists QUOTE, [QUOTE]. auto.
  - rewrite bool_decide_eq_false_2 by exact Hneq.
    destruct rest as [|n' rest].
    + cbn. apply Hfield. intros ->. contradiction.
    + change (List.map Csv.field (n :: n' :: rest))
        with (Csv.field n :: List.map Csv.field (n' :: rest)).
      change (join [COMMA] (Csv.field n :: List.map Csv.field (n' :: rest)))
        with (Csv.field n ++ [COMMA] ++ join [COMMA] (List.map Csv.field (n' :: rest))).
      destruct n as [|c n].
      * cbn. eexists COMMA, _. split; [reflexivity | reflexivity].
      * apply head_clear_app, Hfield. discriminate.
Qed.

Lemma header_no_newline names :
  Forall (fun name => contains QUOTE name = false /\ name_ok name) names ->
  NEWLINE ∉ row_text names.
Proof.
  intros Hall Hin. rewrite row_text_header in Hin.
  apply join_elem in Hin as [?|(part & Hpart & Hin)]; [discriminate|].
  rewrite list_elem_of_In in Hpart. apply in_map_iff in Hpart as (n & <- & Hn).
  rewrite Forall_forall in Hall. apply list_elem_of_In in Hn.
  destruct (Hall _ Hn) as (Hq & Hc & Hnl & _).
  apply contains_false in Hq, Hc, Hnl.
  apply header_field_elem in Hin as [?|?]; auto. discriminate.
Qed.

(** The cells of a well-formed record are plain. *)
Lemma record_cells_plain names r :
  record_ok float_str py_float names r ->
  Forall (fun cell => plain_cell cell = true) (record_cells float_str names r).
Proof.
  intros [Hdom Hvals]. unfold record_cells. apply Forall_forall.
  intros cell Hin. rewrite list_elem_of_In in Hin.
  apply in_map_iff in Hin as (key & <- & Hkey).
  apply list_elem_of_In, Hdom in Hkey as [v Hv]. rewrite Hv.
  exact (proj1 (Hvals _ _ Hv)).
Qed.

Lemma plain_cell_not_elem cell c :
  plain_cell cell = true -> isspace c = true \/ c = COMMA -> c ∉ cell.
Proof.
  intros [_ Hall]%plain_cell_chars Hc Hin. rewrite Forall_forall in Hall.
  destruct (Hall _ Hin) as (Hs & Hcm & _). destruct Hc; congruence.
Qed.

(** A written record line, split at the delimiter of the header, gives
    the record back. *)
Lemma record_line_reads (delim : N) names r w :
  names <> [] ->
  (delim = COMMA /\ 2 <= length names) \/ (delim = TAB /\ length names = 1) ->
  record_ok float_str py_float names r ->
  cr_or_none w ->
  let values := split delim (row_text (record_cells float_str names r) ++ w) in
  (length values =? length names) = true
  /\ build_record py_float names values = r.
Proof.
  intros Hne Hdelim Hok Hw. cbn zeta.
  pose proof (record_cells_plain names r Hok) as Hplain.
  rewrite (row_text_plain _ Hplain).
  assert (Hlen : length (record_cells float_str names r) = length names)
    by (unfold record_cells; apply length_map).
  rewrite split_row.
  - split; [rewrite length_app_last, Hlen; apply Nat.eqb_refl|].
    destruct Hok as [Hdom Hvals]. apply build_record_cells; [exact Hdom|].
    unfold record_cells. apply Forall2_app_last, Forall_forall.
    intros key Hkey. apply Hdom in Hkey as [v Hv]. rewrite Hv.
    destruct (Hvals _ _ Hv) as [Hp Hf].
    split; f_equal.
    + now apply parse_field_cell.
    + rewrite <- (app_nil_r (float_str v)). apply parse_field_cell; auto. now left.
  - intros Hnil. destruct names; [contradiction|].
    unfold record_cells in Hnil. discriminate.
  - destruct Hdelim as [[-> _]|[_ Hone]]; [now left | right; lia].
  - eapply Forall_impl; [exact Hplain|]. cbn. intros cell Hcell.
    apply plain_cell_not_elem; [exact Hcell|].
    destruct Hdelim as [[-> _]|[-> _]]; [now right | now left].
  - destruct Hdelim as [[-> _]|[-> _]]; destruct Hw as [-> | ->];
      try apply not_elem_of_nil; rewrite list_elem_of_singleton; discriminate.
Qed.

Lemma header_reads (delim : N) names :
  names <> [] ->
  Forall (fun name => contains QUOTE name = false /\ name_ok name) names ->
  (length names = 1 -> Forall (fun name => TAB ∉ name) names) ->
  (delim = COMMA /\ 2 <= length names) \/ (delim = TAB /\ length names = 1) ->
  List.map map_column
    (List.map (fun c => strip_quotes (strip c))
              (split delim (row_text names ++ [CR])))
  = names.
Proof.
  intros Hne Hall Htab Hdelim. rewrite row_text_header, split_row.
  - rewrite (map_app_last (fun c => strip_quotes (strip c))
               (header_field names) (fun name => name)).
    + rewrite map_id. clear -Hall.
      induction Hall as [|n names (_ & _ & _ & _ & Hm) _ IH]; [reflexivity|].
      cbn. now rewrite Hm, IH.
    + apply Forall_forall. intros name Hin. rewrite Forall_forall in Hall.
      destruct (Hall _ Hin) as [Hq Hok]. split.
      * apply header_field_reads; auto. now right.
      * rewrite <- (app_nil_r (header_field names name)).
        apply header_field_reads; auto. now left.
  - destruct names; [contradiction | discriminate].
  - rewrite length_map. destruct Hdelim as [[-> _]|[_ Hone]]; auto.
  - apply Forall_forall. intros part Hpart.
    rewrite list_elem_of_In in Hpart. apply in_map_iff in Hpart as (n & <- & Hn).
    apply list_elem_of_In in Hn. rewrite Forall_forall in Hall.
    destruct (Hall _ Hn) as (Hq & Hc & Hnl & _).
    apply contains_false in Hq, Hc, Hnl. intros Hin.
    apply header_field_elem in Hin as [Hin|Hin]; auto.
    + destruct Hdelim as [[-> _]|[-> _]]; discriminate.
    + destruct Hdelim as [[-> _]|[-> Hone]]; [contradiction|].
      specialize (Htab Hone). rewrite Forall_forall in Htab.
      now apply (Htab _ Hn).
  - destruct Hdelim as [[-> _]|[-> _]]; rewrite list_elem_of_singleton; discriminate.
Qed.

Lemma crlf_lines_cons t (rows : list pystr) :
  rows <> [] ->
  exists line more,
    crlf_lines (t :: rows) = (t ++ [CR]) :: line :: more
    /\ crlf_lines rows = line :: more.
Proof.
  intros Hne. destruct rows as [|x xs]; [contradiction|].
  pose proof (crlf_lines_nonempty x xs) as Hl.
  destruct (crlf_lines (x :: xs)) as [|line more] eqn:Hc; [contradiction|].
  exists line, more. split; [|reflexivity].
  change (crlf_lines (t :: x :: xs)) with ((t ++ [CR]) :: crlf_lines (x :: xs)).
  now rewrite Hc.
Qed.

Lemma record_lines_read (delim : N) names (lines : list pystr) recs :
  names <> [] ->
  (delim = COMMA /\ 2 <= length names) \/ (delim = TAB /\ length names = 1) ->
  Forall (record_ok float_str py_float names) recs ->
  Forall2 (fun line r =>
             exists w, cr_or_none w
                       /\ line = row_text (record_cells float_str names r) ++ w)
          lines recs ->
  List.map (build_record py_float names)
    (List.filter (fun values => length values =? length names)
                 (List.map (split delim) lines))
  = recs.
Proof.
  intros Hne Hdelim Hok H2.
  induction H2 as [|line r lines recs (w & Hw & ->) _ IH]; [reflexivity|].
  apply Forall_cons in Hok as [Hr Hok].
  destruct (record_line_reads delim names r w Hne Hdelim Hr Hw) as [Hlen Hbuild].
  cbn zeta in Hlen, Hbuild. cbn [List.map List.filter]. rewrite Hlen.
  cbn [List.map]. now rewrite Hbuild, (IH Hok).
Qed.

(** Parsing the text written for channel names in normal form and
    well-formed records gives those names and those records. *)
Lemma reparse_exported names recs (filepath : pystr) :
  names <> [] ->
  Forall (fun name => contains QUOTE name = false /\ name_ok name) names ->
  (length names = 1 -> Forall (fun name => TAB ∉ name) names) ->
  recs <> [] ->
  Forall (record_ok float_str py_float names) recs ->
  _parse_text_datalog py_float
    (crlf_text (row_text names
                :: List.map (fun r => row_text (record_cells float_str names r)) recs))
    filepath
  = parsed_datalog names recs filepath.
Proof.
  intros Hne Hall Htab Hrecs Hok.
  set (rt := fun r => row_text (record_cells float_str names r)).
  pose proof (parse_text_unfold py_float
                (crlf_text (row_text names :: List.map rt recs)) filepath) as Hp.
  assert (Hsplit : split NEWLINE (strip (crlf_text (row_text names :: List.map rt recs)))
                   = crlf_lines (row_text names :: List.map rt recs)).
  { assert (Hnl : Forall (fun x => NEWLINE ∉ x) (List.map rt recs)).
    { apply Forall_forall. intros x Hx. rewrite list_elem_of_In in Hx.
      apply in_map_iff in Hx as (r & <- & Hr). apply list_elem_of_In in Hr.
      rewrite Forall_forall in Hok. specialize (Hok _ Hr).
      pose proof (record_cells_plain names r Hok) as Hplain.
      unfold rt. rewrite (row_text_plain _ Hplain). intros Hin.
      apply join_elem in Hin as [?|(cell & Hcell & Hin)]; [discriminate|].
      rewrite Forall_forall in Hplain.
      apply (plain_cell_not_elem cell NEWLINE (Hplain _ Hcell)); auto. }
    destruct recs as [|rl recs' _] using rev_ind; [contradiction|].
    rewrite map_app in *. cbn [List.map] in *. apply exported_lines.
    - now apply header_head_clear.
    - apply Forall_app in Hok as [_ Hrl]. apply Forall_cons in Hrl as [Hrl _].
      pose proof (record_cells_plain names rl Hrl) as Hplain.
      unfold rt. rewrite (row_text_plain _ Hplain).
      destruct (record_cells float_str names rl) as [|cell cells _] eqn:Hc
        using rev_ind.
      { destruct names; [contradiction | discriminate]. }
      apply last_clear_join, plain_cell_last.
      apply Forall_app in Hplain as [_ Hcell]. now apply Forall_cons in Hcell as [? _].
    - constructor; [now apply header_no_newline | exact Hnl]. }
  rewrite Hsplit in Hp.
  destruct (crlf_lines_cons (row_text names) (List.map rt recs))
    as (line & more & Hlines & Hrows).
  { destruct recs; [contradiction | discriminate]. }
  rewrite Hlines in Hp. cbn zeta in Hp. rewrite Hp. clear Hp.
  pose proof (header_delimiter names Hne Hall) as Hdelim. cbn zeta in Hdelim.
  rewrite (header_reads _ names Hne Hall Htab Hdelim).
  unfold parsed_datalog. f_equal.
  rewrite <- Hrows. apply record_lines_read; auto.
  pose proof (crlf_lines_Forall2 (List.map rt recs)) as H2.
  apply Forall2_fmap_r in H2. exact H2.
Qed.

(** The text of a loop that ended without an exception. *)
Lemma write_rows_text names recs :
  forall out out',
  SniperDatalog.write_rows float_str file_write names recs out = (out', None) ->
  out' = out ++ crlf_text
                  (List.map (fun r => row_text (record_cells float_str names r)) recs).
Proof.
  induction recs as [|r recs IH]; intros out out';
    cbn [SniperDatalog.write_rows List.map].
  - intros [= <-]. unfold crlf_text. cbn. now rewrite app_nil_r.
  - unfold SniperDatalog.dict_writerow.
    destruct (bool_decide _); [|discriminate].
    fold (record_cells float_str names r).
    destruct (file_write out _); [discriminate|].
    intros H. apply IH in H. rewrite H. unfold crlf_text. cbn [List.map concat].
    rewrite writerow_row_text, <- !app_assoc. reflexivity.
Qed.

(** The text of an export that raised nothing. *)
Lemma to_csv_text (d : SniperDatalog.t) (export_path : pystr)
    (res : option pystr) :
  SniperDatalog.records d <> [] ->
  SniperDatalog.to_csv float_str file_open file_write file_close d export_path
  = inr res ->
  res = Some (crlf_text
                (row_text (SniperDatalog.channels d)
                 :: List.map (fun r => row_text (record_cells float_str
                                                  (SniperDatalog.channels d) r))
                             (SniperDatalog.records d))).
Proof.
  intros Hne. unfold SniperDatalog.to_csv.
  destruct (SniperDatalog.records d) as [|r recs] eqn:Hrecs; [contradiction|].
  destruct (file_open export_path); [discriminate|].
  destruct (file_write [] _); [destruct (file_close []); discriminate|].
  destruct (SniperDatalog.write_rows _ _ _ _ _) as [text raised] eqn:Hw.
  destruct (file_close text); [discriminate|].
  destruct raised; [discriminate|]. intros [= <-].
  apply write_rows_text in Hw. rewrite Hw, writerow_row_text.
  unfold crlf_text. cbn [List.map concat]. now rewrite <- app_assoc.
Qed.

(** What the parser guarantees of a datalog it returns with records. *)
Lemma parser_output_shaped (text filepath : pystr) :
  let d := _parse_text_datalog py_float text filepath in
  SniperDatalog.records d <> [] ->
  d = parsed_datalog (SniperDatalog.channels d) (SniperDatalog.records d) filepath
  /\ SniperDatalog.channels d <> []
  /\ Forall name_ok (SniperDatalog.channels d)
  /\ (length (SniperDatalog.channels d) = 1 ->
      Forall (fun name => TAB ∉ name) (SniperDatalog.channels d))
  /\ Forall (fun r => forall key,
               is_Some (DatalogRecord.data r !! key)
               <-> key ∈ SniperDatalog.channels d)
            (SniperDatalog.records d).
Proof.
  cbn zeta. pose proof (parse_text_unfold py_float text filepath) as Hp.
  pose proof (split_parts NEWLINE (strip text)) as Hlines.
  destruct (split NEWLINE (strip text)) as [|header [|line more]];
    try (rewrite Hp; cbn; intros H; now contradiction H).
  cbn zeta in Hp. rewrite Hp. clear Hp. cbn [SniperDatalog.records SniperDatalog.channels parsed_datalog].
  intros _. apply Forall_cons in Hlines as [[Hnl _] _].
  set (delim := if contains COMMA header then COMMA else TAB).
  pose proof (split_parts delim header) as Hparts.
  remember (length (split delim header)) as L eqn:HL.
  assert (Hcols : Forall (fun part => (COMMA ∉ part) /\ (NEWLINE ∉ part)
                            /\ (delim = TAB -> L = 1 -> TAB ∉ part))
                         (split delim header)).
  { eapply Forall_impl; [exact Hparts|]. cbn. intros part [Hsep Hsub].
    split_and!.
    - unfold delim in Hsep. destruct (contains COMMA header) eqn:Hc; [exact Hsep|].
      apply contains_false in Hc. intros Hin. apply Hc, Hsub, Hin.
    - intros Hin. apply Hnl, Hsub, Hin.
    - intros Hd Hone Hin. apply Hsub in Hin. rewrite <- Hd in Hin.
      apply split_length_sep in Hin. lia. }
  clear Hparts.
  set (names := List.map map_column
                  (List.map (fun c => strip_quotes (strip c)) (split delim header))).
  assert (Hnames : Forall (fun name => name_ok name
                             /\ (delim = TAB -> L = 1 -> TAB ∉ name)) names).
  { unfold names. clear -Hcols.
    induction Hcols as [|part parts (Hc & Hn & Ht) _ IH]; [constructor|].
    cbn [List.map]. constructor; [|exact IH].
    assert (Hsub : forall c, c ∈ strip_quotes (strip part) -> c ∈ part).
    { intros c Hc'. now apply strip_by_elem, strip_by_elem in Hc'. }
    destruct (map_column_ok (strip_quotes (strip part))) as [Hok Htab].
    - intros Hin. apply Hc, Hsub, Hin.
    - intros Hin. apply Hn, Hsub, Hin.
    - split; [exact Hok|]. intros Hd Hone. apply Htab. intros Hin.
      apply (Ht Hd Hone), Hsub, Hin. }
  split_and!.
  - reflexivity.
  - unfold names. pose proof (split_nonempty delim header).
    destruct (split delim header); [contradiction | discriminate].
  - eapply Forall_impl; [exact Hnames|]. cbn. tauto.
  - intros Hone. unfold names in Hone. rewrite !length_map in Hone.
    rewrite <- HL in Hone.
    assert (Hd : delim = TAB).
    { unfold delim. destruct (contains COMMA header) eqn:Hc; [|reflexivity].
      assert (Hd : delim = COMMA) by (unfold delim; try rewrite Hc; reflexivity).
      apply contains_true in Hc. apply split_length_sep in Hc.
      rewrite Hd in HL. lia. }
    eapply Forall_impl; [exact Hnames|]. cbn. intros name [_ Ht]. now apply Ht.
  - apply Forall_forall. intros r Hr. rewrite list_elem_of_In in Hr.
    apply in_map_iff in Hr as (values & <- & Hv).
    apply filter_In in Hv as [_ Hlen]. apply Nat.eqb_eq in Hlen.
    intros key. now apply build_record_dom.
Qed.

(** The channel names of a text with a header line of code points up to
    U+00FF are in that range. *)
Lemma parsed_channels_latin1 (text filepath : pystr) :
  latin1 (header_line text) = true ->
  Forall (fun name => latin1 name = true)
         (SniperDatalog.channels (_parse_text_datalog py_float text filepath)).
Proof.
  unfold header_line. intros Hlatin.
  pose proof (parse_text_unfold py_float text filepath) as Hp.
  destruct (split NEWLINE (strip text)) as [|header [|line more]];
    try (rewrite Hp; constructor).
  cbn zeta in Hp. rewrite Hp. cbn [SniperDatalog.channels parsed_datalog hd] in *.
  set (delim := if contains COMMA header then COMMA else TAB).
  pose proof (split_parts delim header) as Hparts.
  rewrite Forall_forall in Hparts.
  apply Forall_forall. intros name Hname.
  apply list_elem_of_In, in_map_iff in Hname as (col & <- & Hcol).
  apply in_map_iff in Hcol as (part & <- & Hpart).
  apply map_column_latin1.
  unfold latin1 in *. rewrite forallb_forall in *. intros c Hc.
  apply Hlatin. apply list_elem_of_In.
  apply list_elem_of_In in Hc, Hpart.
  apply strip_by_elem, strip_by_elem in Hc.
  destruct (Hparts part Hpart) as [_ Hsub]. now apply Hsub.
Qed.

(** C6, amended: take a datalog the text parser returns with at least one
    record, from a text whose header line holds only code points up to
    U+00FF, without a double quote in its channel names, whose values [str]
    writes without white space, comma or quote and [float] reads back as
    the same values.  Whenever [to_csv] exports it without raising, the file
    holds one header row and one row per record, and parsing that text
    gives the same datalog: the same channels in the same order and the
    same records in the same order, under whatever name the file is read;
    the channel names are again of code points up to U+00FF. *)
Theorem text_round_trip (text filepath export_path : pystr)
    (res : option pystr) :
  let d := _parse_text_datalog py_float text filepath in
  has_records d = true ->
  quote_free d ->
  numbers_round_trip float_str py_float d ->
  latin1 (header_line text) = true ->
  SniperDatalog.to_csv float_str file_open file_write file_close d export_path
  = inr res ->
  exists out,
    res = Some out
    /\ out = crlf_text
               (row_text (SniperDatalog.channels d)
                :: List.map (fun r => row_text (record_cells float_str
                                                 (SniperDatalog.channels d) r))
                            (SniperDatalog.records d))
    /\ _parse_text_datalog py_float out filepath = d
    /\ SniperDatalog.channels (_parse_text_datalog py_float out export_path)
       = SniperDatalog.channels d
    /\ SniperDatalog.records (_parse_text_datalog py_float out export_path)
       = SniperDatalog.records d
    /\ Forall (fun name => latin1 name = true) (SniperDatalog.channels d).
Proof.
  cbn zeta. intros Hrec Hquote Hnum Hlatin Hexport.
  pose proof (parsed_channels_latin1 text filepath Hlatin) as Hchan.
  set (d := _parse_text_datalog py_float text filepath) in *.
  assert (Hne : SniperDatalog.records d <> []).
  { unfold has_records in Hrec. destruct (SniperDatalog.records d); [discriminate|].
    discriminate. }
  destruct (parser_output_shaped text filepath Hne)
    as (Hd & Hnames & Hok & Htab & Hdom).
  fold d in Hd, Hnames, Hok, Htab, Hdom.
  assert (Hrok : Forall (record_ok float_str py_float (SniperDatalog.channels d))
                        (SniperDatalog.records d)).
  { unfold numbers_round_trip in Hnum. rewrite Forall_forall in Hdom, Hnum.
    apply Forall_forall. intros r Hr. split; [apply Hdom, Hr | apply Hnum, Hr]. }
  assert (Hqok : Forall (fun name => contains QUOTE name = false /\ name_ok name)
                        (SniperDatalog.channels d)).
  { unfold quote_free in Hquote. rewrite Forall_forall in Hquote, Hok.
    apply Forall_forall. intros n Hn. split; [apply Hquote, Hn | apply Hok, Hn]. }
  pose proof (reparse_exported (SniperDatalog.channels d) (SniperDatalog.records d)
                filepath Hnames Hqok Htab Hne Hrok) as Hre.
  pose proof (reparse_exported (SniperDatalog.channels d) (SniperDatalog.records d)
                export_path Hnames Hqok Htab Hne Hrok) as Hre'.
  rewrite <- Hd in Hre.
  eexists. split; [exact (to_csv_text d export_path res Hne Hexport)|].
  split; [reflexivity|].
  rewrite Hre, Hre'. auto.
Qed.

End RoundTrip.


(** C6, as stated, fails twice, on a file that takes every write.  A
    column name with a quote inside is written between quotes with the
    quote doubled, and the parser, which only strips quotes at the ends of
    a field, reads a different name back.  A datalog without records (here:
    the only data line has one field for two columns) is not written at
    all, so its channels cannot be read back. *)
Lemma export_round_trip_fails :
  has_records quoted_name_log = true
  /\ SniperDatalog.channels quoted_name_log = [[97; 34; 98]; [99]]%N
  /\ SniperDatalog.get_channel_data quoted_name_log [99%N] = [of_Z 2]
  /\ SniperDatalog.to_csv float_str_fixed opens_any writes_any closes_any
       quoted_name_log (u "out.csv")
     = inr (Some quoted_name_export)
  /\ SniperDatalog.channels
       (_parse_text_datalog float_of_plain_decimal quoted_name_export (u "out.csv"))
     = [[97; 34; 34; 98]; [99]]%N
  /\ SniperDatalog.channels short_row_log = [u "a"; u "b"]
  /\ SniperDatalog.to_csv float_str_fixed opens_any writes_any closes_any
       short_row_log (u "out.csv")
     = inr None.
Proof. split_and!; vm_compute; reflexivity. Qed.

Lemma text_round_trip_witness :
  exists out,
    Some sample_csv_export = Some out
    /\ out = crlf_text
               (row_text (SniperDatalog.channels sample_csv_log)
                :: List.map (fun r => row_text (record_cells float_str_fixed
                                                 (SniperDatalog.channels sample_csv_log) r))
                            (SniperDatalog.records sample_csv_log))
    /\ _parse_text_datalog float_of_plain_decimal out (u "log.csv") = sample_csv_log
    /\ SniperDatalog.channels
         (_parse_text_datalog float_of_plain_decimal out (u "out.csv"))
       = SniperDatalog.channels sample_csv_log
    /\ SniperDatalog.records
         (_parse_text_datalog float_of_plain_decimal out (u "out.csv"))
       = SniperDatalog.records sample_csv_log
    /\ Forall (fun name => latin1 name = true)
              (SniperDatalog.channels sample_csv_log).
Proof.
  apply (text_round_trip float_of_plain_decimal float_str_fixed
           opens_any writes_any closes_any
           sample_csv_text (u "log.csv") (u "out.csv") (Some sample_csv_export)).
  - vm_compute. reflexivity.
  - apply (bool_decide_unpack _). vm_compute. exact I.
  - apply (bool_decide_unpack _). vm_compute. exact I.
  - vm_compute. reflexivity.
  - vm_compute. reflexivity.
Defined.

(** ** The order of the floats *)

Section FloatOrder.

Lemma SFcompare_antisym (x y : float) (c : comparison) :
  SFcompare x y = Some c -> SFcompare y x = Some (CompOpp c).
Proof.
  destruct x as [[]|[]| |[] mx ex], y as [[]|[]| |[] my ey]; cbn;
    try discriminate; intros [= <-]; try reflexivity.
  all: rewrite (Z.compare_antisym ex ey); destruct (ex ?= ey)%Z; cbn;
    try reflexivity.
  all: change (PosDef.Pos.compare_cont Eq ?a ?b) with (Pos.compare a b).
  all: rewrite (Pos.compare_antisym mx my); destruct (mx ?= my)%positive;
    reflexivity.
Qed.

Lemma SFcompare_total (x y : float) :
  x <> S754_nan -> y <> S754_nan -> exists c, SFcompare x y = Some c.
Proof.
  destruct x as [[]|[]| |[] mx ex], y as [[]|[]| |[] my ey]; cbn; intros;
    try congruence; eauto.
Qed.

(** A float below another is not at or above it. *)
Lemma ltb_not_geb (x y : float) : ltb x y = true -> geb x y = false.
Proof.
  unfold ltb, geb, SFltb, SFleb. destruct (SFcompare x y) as [c|] eqn:Hc;
    [|discriminate].
  rewrite (SFcompare_antisym _ _ _ Hc). now destruct c.
Qed.

Lemma geb_not_ltb (x y : float) : geb x y = true -> ltb x y = false.
Proof.
  intros H. destruct (ltb x y) eqn:Hl; [|reflexivity].
  apply ltb_not_geb in Hl. congruence.
Qed.

(** Of two numbers, the second is greater or the first is at least it. *)
Lemma gtb_or_leb (x y : float) :
  x <> S754_nan -> y <> S754_nan -> gtb y x = false -> leb y x = true.
Proof.
  intros Hx Hy. unfold gtb, leb, SFltb, SFleb.
  destruct (SFcompare_total y x Hy Hx) as [c Hc].
  destruct (SFcompare x y) as [c'|] eqn:Hc'.
  - rewrite (SFcompare_antisym _ _ _ Hc') in Hc. injection Hc as <-.
    rewrite (SFcompare_antisym _ _ _ Hc'). now destruct c'.
  - apply SFcompare_antisym in Hc. congruence.
Qed.

Lemma leb_trans (x y z : float) :
  leb x y = true -> leb y z = true -> leb x z = true.
Proof.
  unfold leb, SFleb.
  destruct x as [[]|[]| |[] mx ex], y as [[]|[]| |[] my ey],
           z as [[]|[]| |[] mz ez]; cbn; try discriminate; try reflexivity.
  all: change (PosDef.Pos.compare_cont Eq ?a ?b) with (Pos.compare a b).
  all: destruct (Z.compare_spec ex ey), (Z.compare_spec ey ez),
         (Z.compare_spec ex ez);
    try discriminate; try reflexivity; try lia; subst.
  all: destruct (Pos.compare_spec mx my), (Pos.compare_spec my mz),
         (Pos.compare_spec mx mz);
    cbn; try discriminate; try reflexivity; try lia.
Qed.

Lemma leb_gtb_trans (x y z : float) :
  leb x y = true -> gtb z y = true -> leb x z = true.
Proof.
  unfold leb, gtb, SFleb, SFltb.
  destruct x as [[]|[]| |[] mx ex], y as [[]|[]| |[] my ey],
           z as [[]|[]| |[] mz ez]; cbn; try discriminate; try reflexivity.
  all: change (PosDef.Pos.compare_cont Eq ?a ?b) with (Pos.compare a b).
  all: destruct (Z.compare_spec ex ey), (Z.compare_spec ey ez),
         (Z.compare_spec ex ez);
    try discriminate; try reflexivity; try lia; subst.
  all: destruct (Pos.compare_spec mx my), (Pos.compare_spec my mz),
         (Pos.compare_spec mx mz);
    cbn; try discriminate; try reflexivity; try lia.
Qed.

Lemma leb_refl (x : float) : x <> S754_nan -> leb x x = true.
Proof.
  unfold leb, SFleb. destruct x as [[]|[]| |[] mx ex]; cbn; try congruence;
    intros _; rewrite Z.compare_refl;
    change (PosDef.Pos.compare_cont Eq ?a ?b) with (Pos.compare a b);
    now rewrite Pos.compare_refl.
Qed.

End FloatOrder.

(** ** What the reported runs say of the samples *)

Section Runs.

Import SniperDatalog.

Lemma wot_step_samples (recs : list DatalogRecord.t) (thr : float)
    (st : wot_state) (i : nat) (rec : DatalogRecord.t) :
  recs !! i = Some rec ->
  wot_samples_inv recs thr st i ->
  wot_samples_inv recs thr (wot_step thr st i rec) (S i).
Proof.
  intros Hrec (Hruns & Hin & Hout). unfold wot_step. fold (tps_of rec).
  assert (Hlast : forall r, recs !! (S i - 1) = Some r -> r = rec).
  { intros r. replace (S i - 1) with i by lia. congruence. }
  destruct (geb (tps_of rec) thr) eqn:Hge, (in_wot st) eqn:Hw; cbn [andb negb].
  - (* at or above the threshold, inside a run *)
    rewrite (geb_not_ltb _ _ Hge). cbn [andb].
    destruct (Hin eq_refl) as (Hlt & Hfirst & Hmid & Hprev).
    unfold wot_samples_inv. rewrite Hw. split_and!; [exact Hruns | | discriminate].
    intros _. split_and!; [lia | exact Hfirst | | exact Hprev].
    intros j r Hj Hr. destruct (decide (j = i)) as [->|Hne].
    + assert (r = rec) by congruence. subst r. now apply geb_not_ltb.
    + apply (Hmid j r); [lia | exact Hr].
  - (* at or above the threshold, outside: a run starts *)
    unfold wot_samples_inv. cbn [runs in_wot start_idx].
    split_and!; [exact Hruns | | discriminate].
    intros _. split_and!; [lia | eauto | |].
    + intros j r Hj Hr. assert (j = i) by lia. subst j.
      assert (r = rec) by congruence. subst r. now apply geb_not_ltb.
    + intros r Hpos Hr. now apply (Hout eq_refl r).
  - (* not at or above the threshold, inside a run *)
    destruct (Hin eq_refl) as (Hlt & Hfirst & Hmid & Hprev).
    destruct (ltb (tps_of rec) thr) eqn:Hlow; cbn [andb].
    + unfold wot_samples_inv. cbn [runs in_wot start_idx].
      split_and!; [| discriminate |].
      * destruct (3 <? i - start_idx st); [|exact Hruns].
        apply Forall_app. split; [exact Hruns|]. constructor; [|constructor].
        cbn [fst snd]. split_and!; eauto.
      * intros _ r _ Hr. apply Hlast in Hr. subst r. exact Hge.
    + unfold wot_samples_inv. rewrite Hw.
      split_and!; [exact Hruns | | discriminate].
      intros _. split_and!; [lia | exact Hfirst | | exact Hprev].
      intros j r Hj Hr. destruct (decide (j = i)) as [->|Hne].
      * assert (r = rec) by congruence. now subst r.
      * apply (Hmid j r); [lia | exact Hr].
  - (* not at or above the threshold, outside *)
    rewrite andb_false_r. unfold wot_samples_inv. rewrite Hw.
    split_and!; [exact Hruns | discriminate |].
    intros _ r _ Hr. apply Hlast in Hr. subst r. exact Hge.
Qed.

Lemma wot_loop_samples (recs : list DatalogRecord.t) (thr : float) :
  forall (rest done : list DatalogRecord.t) (st : wot_state),
  recs = done ++ rest ->
  wot_samples_inv recs thr st (length done) ->
  wot_samples_inv recs thr (wot_loop thr st (length done) rest) (length recs).
Proof.
  induction rest as [|rec rest IH]; intros done st Hrecs Hinv; cbn [wot_loop].
  - rewrite app_nil_r in Hrecs. subst recs. exact Hinv.
  - specialize (IH (done ++ [rec]) (wot_step thr st (length done) rec)).
    rewrite length_app in IH. cbn [length] in IH. rewrite Nat.add_1_r in IH.
    apply IH.
    + rewrite Hrecs, <- app_assoc. reflexivity.
    + apply wot_step_samples; [|exact Hinv].
      rewrite Hrecs, lookup_app_r, Nat.sub_diag by lia. reflexivity.
Qed.

(** X1: the segments [get_wot_runs] reports are in ascending order and
    pairwise disjoint, each ends inside the data, and each spans more than
    3 indices, except that the segment of a run still open at the end of
    the data ends at the last index and may span exactly 3. *)
Theorem wot_runs_ordered (self : t) (thr : float) :
  segments_sorted (get_wot_runs self thr)
  /\ Forall (fun run =>
       fst run < snd run < length (records self)
       /\ (3 < snd run - fst run
           \/ (snd run = length (records self) - 1 /\ 3 <= snd run - fst run)))
     (get_wot_runs self thr).
Proof.
  destruct (get_wot_runs_segments self thr) as [Hs Hall].
  split; [exact Hs|].
  eapply Forall_impl; [exact Hall|]. cbn. unfold segment_length.
  intros run. lia.
Qed.

(** X2: every segment [get_wot_runs] reports starts at a sample at or
    above the threshold whose predecessor is not, holds no sample that
    compares below the threshold, and either is closed by a sample below
    the threshold or ends at the last sample of the data. *)
Theorem wot_runs_sound (self : t) (thr : float) :
  Forall (wot_run_sound (records self) thr) (get_wot_runs self thr).
Proof.
  unfold get_wot_runs.
  pose proof (wot_loop_samples (records self) thr (records self) []
                {| runs := []; in_wot := false; start_idx := 0 |} eq_refl)
    as Hinv.
  cbn [length] in Hinv.
  destruct Hinv as (Hruns & Hin & _).
  { unfold wot_samples_inv. cbn. split_and!;
      [constructor | discriminate | intros _ r H; lia]. }
  set (st := wot_loop thr _ 0 (records self)) in *.
  assert (Hold : Forall (wot_run_sound (records self) thr) (runs st)).
  { eapply Forall_impl; [exact Hruns|]. cbn. unfold wot_run_sound.
    intros run (H1 & H2 & H3 & H4). split_and!; auto. }
  destruct (in_wot st) eqn:Hw; cbn [andb]; [|exact Hold].
  destruct (3 <? length (records self) - start_idx st) eqn:Hmin; [|exact Hold].
  apply Nat.ltb_lt in Hmin.
  destruct (Hin eq_refl) as (Hlt & Hfirst & Hmid & Hprev).
  apply Forall_app. split; [exact Hold|]. constructor; [|constructor].
  unfold wot_run_sound. cbn [fst snd]. split_and!; [exact Hfirst | | exact Hprev |].
  - intros i r Hi. apply Hmid. lia.
  - right. split; [reflexivity|]. intros r. apply Hmid. lia.
Qed.

Lemma ae_step_samples (recs : list DatalogRecord.t) (st : ae_state) (i : nat)
    (rec : DatalogRecord.t) :
  recs !! i = Some rec ->
  ae_samples_inv recs st i ->
  exists st',
    ae_step recs st i rec = Some st' /\ ae_samples_inv recs st' (S i).
Proof.
  intros Hrec (Hev & Hsort & Hbound & Hin & Hout).
  pose proof (lookup_lt_Some _ _ _ Hrec) as Hlen.
  assert (Hlast : forall r, recs !! (S i - 1) = Some r -> r = rec).
  { intros r. replace (S i - 1) with i by lia. congruence. }
  unfold ae_step. fold (ae_flag rec).
  destruct (ae_flag rec) eqn:Hf, (ae_active st) eqn:Ha; cbn [andb negb].
  - exists st. split; [reflexivity|]. unfold ae_samples_inv. rewrite Ha.
    destruct (Hin eq_refl) as (Hlt & Hmid & Hprev).
    split_and!; [exact Hev | exact Hsort | exact Hbound | | discriminate].
    intros _. split_and!; [lia | | exact Hprev].
    intros j r Hj Hr. destruct (decide (j = i)) as [->|Hne].
    + assert (r = rec) by congruence. now subst r.
    + apply (Hmid j r); [lia | exact Hr].
  - eexists. split; [reflexivity|]. unfold ae_samples_inv.
    cbn [ae_acc ae_active ae_start_idx].
    split_and!; [exact Hev | exact Hsort | exact Hbound | | discriminate].
    intros _. split_and!; [lia | |].
    + intros j r Hj Hr. assert (j = i) by lia. subst j.
      assert (r = rec) by congruence. now subst r.
    + intros r Hpos Hr. now apply (Hout eq_refl r).
  - destruct (Hin eq_refl) as (Hlt & Hmid & Hprev).
    rewrite !comprehension_slice by lia.
    destruct (take (i - ae_start_idx st) (drop (ae_start_idx st) recs))
      as [|r0 rs] eqn:Hslice.
    { apply (f_equal length) in Hslice. rewrite length_take, length_drop in Hslice.
      cbn in Hslice. lia. }
    cbn. eexists. split; [reflexivity|]. unfold ae_samples_inv.
    cbn [ae_acc ae_active ae_start_idx].
    split_and!; [| | | discriminate |].
    + apply Forall_app. split; [exact Hev|]. constructor; [|constructor].
      unfold ae_event_exact. cbn [ev_start ev_end duration_samples peak_tps_roc
                                  afr_during].
      cbn zeta. rewrite Hslice.
      split_and!; try reflexivity; try lia; eauto.
    + rewrite fmap_app. apply segments_sorted_snoc; [exact Hsort|].
      apply Forall_fmap. eapply Forall_impl; [exact Hbound|]. cbn. intros; lia.
    + apply Forall_app. split.
      * eapply Forall_impl; [exact Hbound|]. cbn. intros; lia.
      * constructor; [cbn; lia | constructor].
    + intros _ r _ Hr. apply Hlast in Hr. now subst r.
  - exists st. split; [reflexivity|]. unfold ae_samples_inv. rewrite Ha.
    split_and!; [exact Hev | exact Hsort | | discriminate |].
    + eapply Forall_impl; [exact Hbound|]. cbn. intros; lia.
    + intros _ r _ Hr. apply Hlast in Hr. now subst r.
Qed.

Lemma ae_loop_samples (recs : list DatalogRecord.t) :
  forall (rest done : list DatalogRecord.t) (st : ae_state),
  recs = done ++ rest ->
  ae_samples_inv recs st (length done) ->
  exists st',
    ae_loop recs st (length done) rest = Some st'
    /\ ae_samples_inv recs st' (length recs).
Proof.
  induction rest as [|rec rest IH]; intros done st Hrecs Hinv; cbn [ae_loop].
  - exists st. split; [reflexivity|]. rewrite app_nil_r in Hrecs. subst recs.
    exact Hinv.
  - destruct (ae_step_samples recs st (length done) rec) as (st1 & Hstep & Hinv1);
      [|exact Hinv|].
    { rewrite Hrecs, lookup_app_r, Nat.sub_diag by lia. reflexivity. }
    rewrite Hstep. cbn.
    specialize (IH (done ++ [rec]) st1).
    rewrite length_app in IH. cbn [length] in IH. rewrite Nat.add_1_r in IH.
    apply IH; [|exact Hinv1].
    rewrite Hrecs, <- app_assoc. reflexivity.
Qed.

(** X3: the detection loop of [analyze_acceleration_enrichment] never
    raises; it lists one event per falling edge of the [ae_active] flag, in
    ascending order and disjoint; each event covers exactly a stretch of
    samples with the flag set, that starts after a sample with the flag
    clear (or at index 0) and ends at the first sample with the flag clear;
    its peak is the maximum of [tps_roc] over that stretch and its trace is
    the [afr] channel from the start to 10 samples past the end, cut at the
    end of the data. *)
Theorem ae_events_exact (self : t) :
  exists events,
    ae_detect self = Some events
    /\ length events = falling_edges false (List.map ae_flag (records self))
    /\ segments_sorted (ev_range <$> events)
    /\ Forall (ae_event_exact (records self)) events.
Proof.
  destruct (ae_detect_spec self) as (events & Hdet & Hcount & _).
  exists events. split; [exact Hdet|]. split; [exact Hcount|].
  unfold ae_detect in Hdet.
  destruct (ae_loop_samples (records self) (records self) []
              {| ae_acc := []; ae_active := false; ae_start_idx := 0 |} eq_refl)
    as (st & Hloop & Hev & Hsort & _).
  { unfold ae_samples_inv. cbn.
    split_and!;
      [ constructor | intros j k r1 r2 _ Hj; discriminate | constructor
      | discriminate | intros _ r H; lia ]. }
  cbn [length] in Hloop. rewrite Hloop in Hdet. cbn in Hdet.
  injection Hdet as <-. split; assumption.
Qed.

End Runs.

(** ** The analysis methods *)

Section Analysis.

Import SniperDatalog.

Lemma bind_inr {A B : Type} (x : A) (k : A -> raised + B) :
  (inr x ≫= k) = k x.
Proof. reflexivity. Qed.

Lemma bind_inl {A B : Type} (e : raised) (k : A -> raised + B) :
  (inl e ≫= k) = inl e.
Proof. reflexivity. Qed.

Lemma one_bits : of_Z 1 = S754_finite false 4503599627370496 (-52).
Proof. vm_compute. reflexivity. Qed.

(** X4: [duration_seconds] never divides by zero, whatever the sample
    rate is: an empty log lasts 0.0, and a rate that is zero, negative or
    otherwise below 1 is replaced by 1, so that the duration is the number
    of records. *)
Theorem duration_seconds_defined (self : t) :
  exists d,
    duration_seconds self = inr d
    /\ (records self = [] -> d = zero)
    /\ (records self <> [] -> gtb (of_Z 1) (sample_rate_hz self) = true ->
        d = div (of_Z (Z.of_nat (length (records self)))) (of_Z 1))
    /\ (records self <> [] -> gtb (of_Z 1) (sample_rate_hz self) = false ->
        d = div (of_Z (Z.of_nat (length (records self)))) (sample_rate_hz self)).
Proof.
  unfold duration_seconds, max2.
  destruct (records self) as [|r recs] eqn:Hrecs.
  { exists zero. split_and!; [reflexivity | reflexivity | congruence | congruence]. }
  destruct (gtb (of_Z 1) (sample_rate_hz self)) eqn:Hone.
  - exists (div (of_Z (Z.of_nat (length (r :: recs)))) (of_Z 1)).
    split_and!; [now rewrite one_bits | discriminate | reflexivity | discriminate].
  - destruct (sample_rate_hz self) as [s|s| |s m e] eqn:Hrate.
    + exfalso. revert Hone. rewrite one_bits. now destruct s.
    + eexists. split_and!; [reflexivity | discriminate | discriminate | reflexivity].
    + eexists. split_and!; [reflexivity | discriminate | discriminate | reflexivity].
    + eexists. split_and!; [reflexivity | discriminate | discriminate | reflexivity].
Qed.

Lemma ltb_leb (x y : float) : ltb x y = true -> leb x y = true.
Proof.
  unfold ltb, leb, SFltb, SFleb. now destruct (SFcompare x y) as [[]|].
Qed.

Lemma max_from_elem (x : float) (xs : list float) : max_from x xs ∈ x :: xs.
Proof.
  unfold max_from. revert x. induction xs as [|y xs IH]; intros x; cbn [fold_left].
  - left.
  - specialize (IH (if gtb y x then y else x)).
    apply elem_of_cons in IH as [->|IH].
    + destruct (gtb y x); [right; left | left].
    + right. now right.
Qed.

Lemma min_from_elem (x : float) (xs : list float) : min_from x xs ∈ x :: xs.
Proof.
  unfold min_from. revert x. induction xs as [|y xs IH]; intros x; cbn [fold_left].
  - left.
  - specialize (IH (if ltb y x then y else x)).
    apply elem_of_cons in IH as [->|IH].
    + destruct (ltb y x); [right; left | left].
    + right. now right.
Qed.

Lemma max_from_upper (xs : list float) :
  forall x,
  x <> S754_nan -> Forall (fun v => v <> S754_nan) xs ->
  Forall (fun v => leb v (max_from x xs) = true) (x :: xs).
Proof.
  unfold max_from. induction xs as [|y xs IH]; intros x Hx Hxs; cbn [fold_left].
  - constructor; [now apply leb_refl | constructor].
  - apply Forall_cons in Hxs as [Hy Hxs].
    set (m := if gtb y x then y else x).
    assert (Hm : m <> S754_nan) by (unfold m; now destruct (gtb y x)).
    specialize (IH m Hm Hxs). apply Forall_cons in IH as [Hmax IH].
    assert (Hxm : leb x m = true).
    { unfold m. destruct (gtb y x) eqn:Hg; [now apply ltb_leb | now apply leb_refl]. }
    assert (Hym : leb y m = true).
    { unfold m. destruct (gtb y x) eqn:Hg; [now apply leb_refl | now apply gtb_or_leb]. }
    repeat constructor; [| |exact IH]; eapply leb_trans; eauto.
Qed.

(** X5: [max_rpm] and [max_tps] are 0 on an empty log and otherwise one
    of the readings of the channel (an absent reading counting as 0),
    whatever the readings are; when no reading is a NaN, no reading is
    above the value returned. *)
Theorem max_channel_bound (self : t) (channel : pystr) :
  (records self = [] -> max_channel self channel = zero)
  /\ (records self <> [] ->
      max_channel self channel ∈ get_channel_data self channel)
  /\ (Forall (fun v => is_nan v = false) (get_channel_data self channel) ->
      Forall (fun v => leb v (max_channel self channel) = true)
             (get_channel_data self channel)).
Proof.
  unfold max_channel, get_channel_data.
  destruct (records self) as [|r recs]; cbn [List.map] in *.
  { split_and!; [reflexivity | congruence | constructor]. }
  split_and!; [discriminate | intros _; apply max_from_elem |].
  intros Hnan.
  assert (Hn : forall v, is_nan v = false -> v <> S754_nan)
    by (intros v Hv ->; discriminate).
  apply Forall_cons in Hnan as [Hx Hxs].
  apply max_from_upper; [now apply Hn|].
  eapply Forall_impl; [exact Hxs | exact Hn].
Qed.

Lemma count_exclusive (xs : list float) :
  count_if (fun a => gtb a LEAN_LIMIT) xs + count_if (fun a => ltb a RICH_LIMIT) xs
  <= length xs.
Proof.
  unfold count_if. induction xs as [|x xs IH]; [reflexivity|].
  cbn [List.filter length].
  destruct (ltb x RICH_LIMIT) eqn:Hr.
  - rewrite (rich_excludes_lean _ Hr). cbn [length]. lia.
  - destruct (gtb x LEAN_LIMIT); cbn [length]; lia.
Qed.

Lemma samples_nonempty (recs : list DatalogRecord.t) (a b : nat) :
  a < b <= length recs -> exists r rs, samples recs a b = r :: rs.
Proof.
  intros H. unfold samples.
  destruct (take (b - a) (drop a recs)) as [|r rs] eqn:Hs; [|eauto].
  apply (f_equal length) in Hs. rewrite length_take, length_drop in Hs.
  cbn in Hs. lia.
Qed.

Lemma wot_run_result_ok (recs : list DatalogRecord.t) (results : list wot_result)
    (run : nat * nat) :
  fst run < snd run < length recs ->
  exists w,
    wot_run_result recs results run = inr (results ++ [w])
    /\ w_range w = run
    /\ wot_result_ok recs w.
Proof.
  destruct run as [a b]. cbn [fst snd]. intros Hab.
  unfold wot_run_result. rewrite !comprehension_slice by lia.
  cbn [or_raise]. rewrite !bind_inr. fold (samples recs a b).
  destruct (samples_nonempty recs a b) as (r & rs & Hs); [lia|].
  rewrite Hs. cbn [fmap list_fmap]. unfold mean. cbn [length truediv_len].
  rewrite !bind_inr. cbn [py_min py_max or_raise]. rewrite !bind_inr.
  eexists. split; [reflexivity|]. split; [reflexivity|].
  unfold wot_result_ok. cbn [w_start_idx w_end_idx w_avg_afr w_peak_rpm
                             w_lean_spikes w_rich_spots].
  rewrite Hs. split_and!; [lia | lia | reflexivity | reflexivity |].
  etransitivity; [apply count_exclusive|].
  change (length (afr_of <$> samples recs a b) <= b - a) || idtac.
  apply (f_equal length) in Hs. unfold samples in Hs.
  rewrite length_take, length_drop in Hs. cbn [length] in *.
  rewrite length_fmap. lia.
Qed.

Lemma wot_results_loop_ok (recs : list DatalogRecord.t) (runs : list (nat * nat)) :
  Forall (fun run => fst run < snd run < length recs) runs ->
  forall results,
  exists more,
    wot_results_loop recs runs results = inr (results ++ more)
    /\ w_range <$> more = runs
    /\ Forall (wot_result_ok recs) more.
Proof.
  induction 1 as [|run runs Hrun _ IH]; intros results; cbn [wot_results_loop].
  - exists []. rewrite app_nil_r. split_and!; [reflexivity | reflexivity | constructor].
  - destruct (wot_run_result_ok recs results run Hrun) as (w & Hw & Hr & Hok).
    rewrite Hw, bind_inr.
    destruct (IH (results ++ [w])) as (more & Hloop & Hranges & Hall).
    exists (w :: more). rewrite Hloop, <- app_assoc. cbn [app fmap list_fmap].
    split_and!; [reflexivity | | constructor; assumption].
    now rewrite <- Hr, <- Hranges.
Qed.

(** X6: [analyze_wot_afr] never raises: no slice leaves the data, no
    minimum or maximum is taken of nothing and nothing is divided by zero.
    It reports one entry per segment of [get_wot_runs] at 85 %, in the same
    order; each entry averages the samples from its start index up to, not
    including, its end index, and counts no sample both as a lean spike
    and as a rich spot. *)
Theorem analyze_wot_afr_total (self : t) :
  exists a,
    analyze_wot_afr self = inr a
    /\ total_wot_runs a = length (get_wot_runs self (of_Z 85))
    /\ w_range <$> wot_runs a = get_wot_runs self (of_Z 85)
    /\ Forall (wot_result_ok (records self)) (wot_runs a).
Proof.
  unfold analyze_wot_afr.
  destruct (get_wot_runs_segments self (of_Z 85)) as [_ Hall].
  destruct (wot_results_loop_ok (records self) (get_wot_runs self (of_Z 85)))
    with (results := @nil wot_result) as (more & Hloop & Hranges & Hok).
  { eapply Forall_impl; [exact Hall|]. cbn. unfold segment_length.
    intros run. lia. }
  rewrite Hloop, bind_inr. cbn [app].
  assert (Hover : exists o,
            match more with
            | [] => inr zero
            | _ :: _ => truediv_len (sum (List.map w_avg_afr more)) (length more)
            end = inr o).
  { destruct more; cbn [length truediv_len]; eauto. }
  destruct Hover as [o Ho]. rewrite Ho, bind_inr.
  eexists. split; [reflexivity|]. cbn [total_wot_runs wot_runs].
  split_and!; [|exact Hranges | exact Hok].
  now rewrite <- Hranges, length_fmap.
Qed.

Lemma mean_cons (x : float) (xs : list float) :
  mean (x :: xs) = inr (div (sum (x :: xs)) (of_Z (Z.of_nat (S (length xs))))).
Proof. reflexivity. Qed.

Lemma spread_cons (x : float) (xs : list float) :
  spread (x :: xs) = inr (sub (max_from x xs) (min_from x xs)).
Proof. reflexivity. Qed.

(** X7: [analyze_idle] never raises; it reports no idle data exactly
    when no record has an engine speed between 400 and 1200 rpm with the
    throttle below 5 %, and otherwise counts these records, at least one
    and no more than the log holds. *)
Theorem analyze_idle_defined (self : t) :
  match analyze_idle self with
  | inl _ => False
  | inr None => Forall (fun r => is_idle r = false) (records self)
  | inr (Some d) =>
      idle_samples d = length (List.filter is_idle (records self))
      /\ 0 < idle_samples d <= length (records self)
      /\ mean (rpm_of <$> List.filter is_idle (records self)) = inr (i_avg_rpm d)
  end.
Proof.
  unfold analyze_idle.
  destruct (List.filter is_idle (records self)) as [|r rs] eqn:Hf.
  - apply Forall_forall. intros r Hr.
    destruct (is_idle r) eqn:Hi; [|reflexivity].
    assert (Hin : r ∈ List.filter is_idle (records self)).
    { apply list_elem_of_In, filter_In. split; [now apply list_elem_of_In | exact Hi]. }
    rewrite Hf in Hin. now apply elem_of_nil in Hin.
  - cbn [List.map]. rewrite !mean_cons, !spread_cons, !bind_inr.
    cbn [idle_samples i_avg_rpm]. split_and!; [reflexivity | cbn; lia | | reflexivity].
    rewrite <- Hf. apply filter_length_le.
Qed.

Lemma five_hundred_bits : of_Z 500 = S754_finite false 8796093022208000 (-44).
Proof. vm_compute. reflexivity. Qed.

(** A reading above 500 is +infinity or has an integer part. *)
Lemma above_500_cases (rpm : float) :
  gtb rpm (of_Z 500) = true ->
  rpm = PLUS_INFINITY
  \/ (rpm <> PLUS_INFINITY /\ exists n, py_int rpm = inr n).
Proof.
  unfold gtb. rewrite five_hundred_bits.
  destruct rpm as [s|[]| |[] m e]; cbn; try discriminate; intros _.
  - now left.
  - right. split; [discriminate | eauto].
Qed.

Lemma not_above_500_finite (rpm : float) :
  gtb rpm (of_Z 500) = false -> rpm <> PLUS_INFINITY.
Proof.
  unfold gtb. rewrite five_hundred_bits. intros H ->. discriminate.
Qed.

Lemma combine_fmap {A B C : Type} (f : A -> B) (g : A -> C) (l : list A) :
  combine (f <$> l) (g <$> l) = (fun x => (f x, g x)) <$> l.
Proof. induction l as [|x l IH]; [reflexivity|]. cbn. now rewrite IH. Qed.

Lemma filter_filter {A : Type} (p q : A -> bool) (l : list A) :
  List.filter p (List.filter q l) = List.filter (fun x => q x && p x) l.
Proof.
  induction l as [|x l IH]; [reflexivity|]. cbn [List.filter].
  destruct (q x); cbn [andb List.filter]; [|exact IH].
  destruct (p x); now rewrite IH.
Qed.

Lemma band_loop_spec (rs : list DatalogRecord.t) :
  Forall (fun r => above_500 r = true) rs ->
  forall m,
  match band_loop ((fun r => (timing_of r, rpm_of r)) <$> rs) m with
  | inl e => e = OverflowError /\ Exists (fun r => rpm_of r = PLUS_INFINITY) rs
  | inr m' =>
      Forall (fun r => rpm_of r <> PLUS_INFINITY) rs
      /\ forall b, m' !! b
                   = grouped (m !! b) (timing_of <$> List.filter (in_band b) rs)
  end.
Proof.
  induction 1 as [|r rs Hr _ IH]; intros m; cbn [fmap list_fmap band_loop].
  { split; [constructor | reflexivity]. }
  unfold above_500 in Hr. fold (rpm_of r) in Hr.
  destruct (above_500_cases _ Hr) as [Hinf|[Hfin [n Hn]]].
  - unfold rpm_band. rewrite Hinf. cbn. split; [reflexivity|].
    now apply Exists_cons_hd.
  - unfold rpm_band at 1. rewrite Hn, !bind_inr.
    set (band := (n / 500 * 500)%Z).
    set (m1 := <[ band := _ ]> m).
    specialize (IH m1).
    destruct (band_loop _ m1) as [e|m'].
    + destruct IH as [-> Hex]. split; [reflexivity | now apply Exists_cons_tl].
    + destruct IH as [Hall Hlook]. split; [now constructor|].
      intros b. rewrite Hlook. cbn [List.filter].
      unfold in_band at 2, rpm_band. rewrite Hn, bind_inr. fold band.
      destruct (Z.eqb_spec band b) as [<-|Hne].
      * unfold m1. rewrite lookup_insert_eq. cbn [fmap list_fmap].
        destruct (timing_of <$> List.filter (in_band band) rs) as [|t g];
          cbn [grouped]; destruct (m !! band); cbn; rewrite <- ?app_assoc;
          reflexivity.
      * unfold m1. now rewrite lookup_insert_ne.
Qed.

Lemma summarize_cons (x : float) (xs : list float) :
  exists s, summarize (x :: xs) = inr s.
Proof. unfold summarize. rewrite mean_cons, bind_inr. cbn. eauto. Qed.

Lemma summarize_nil : summarize [] = inl ZeroDivisionError.
Proof. reflexivity. Qed.

Lemma summary_loop_spec (items : list (Z * list float)) :
  NoDup items.*1 ->
  Forall (fun it => it.2 <> []) items ->
  forall acc,
  exists res,
    summary_loop items acc = inr res
    /\ forall b, res !! b
                 = match (list_to_map items : gmap Z (list float)) !! b with
                   | Some g => summary_value g
                   | None => acc !! b
                   end.
Proof.
  induction items as [|[b0 g0] items IH]; intros Hnd Hne acc; cbn [summary_loop].
  { exists acc. split; [reflexivity|]. intros b.
    now rewrite list_to_map_nil, lookup_empty. }
  cbn in Hnd. apply NoDup_cons in Hnd as [Hb0 Hnd].
  apply Forall_cons in Hne as [Hg0 Hne]. cbn [snd] in Hg0.
  destruct g0 as [|x xs]; [congruence|].
  destruct (summarize_cons x xs) as [s Hs]. rewrite Hs, bind_inr.
  destruct (IH Hnd Hne (<[ b0 := s ]> acc)) as (res & Hloop & Hlook).
  exists res. split; [exact Hloop|]. intros b. rewrite Hlook.
  rewrite list_to_map_cons.
  destruct (decide (b0 = b)) as [<-|Hneq].
  - rewrite lookup_insert_eq.
    rewrite (not_elem_of_list_to_map_1 _ _ Hb0), lookup_insert_eq.
    unfold summary_value. now rewrite Hs.
  - now rewrite !lookup_insert_ne.
Qed.

(** What [analyze_timing] does, in one statement. *)
Lemma analyze_timing_spec (self : t) :
  match analyze_timing self with
  | inl e =>
      e = OverflowError
      /\ Exists (fun r => rpm_of r = PLUS_INFINITY) (records self)
  | inr None =>
      Forall (fun r => above_500 r = false) (records self)
  | inr (Some d) =>
      Forall (fun r => rpm_of r <> PLUS_INFINITY) (records self)
      /\ mean (timing_of <$> List.filter above_500 (records self))
         = inr (t_overall_avg d)
      /\ forall b, by_rpm_band d !! b = summary_value (timing_group self b)
  end.
Proof.
  unfold analyze_timing.
  fold timing_of. fold rpm_of.
  change (List.map timing_of ?l) with (timing_of <$> l).
  change (List.map rpm_of ?l) with (rpm_of <$> l).
  rewrite combine_fmap.
  assert (Hkept : Forall (fun r => above_500 r = true)
                         (List.filter above_500 (records self))).
  { apply Forall_forall. intros r Hr. apply list_elem_of_In, filter_In in Hr. tauto. }
  assert (Hrest : Forall (fun r => rpm_of r <> PLUS_INFINITY)
                         (List.filter above_500 (records self)) ->
                  Forall (fun r => rpm_of r <> PLUS_INFINITY) (records self)).
  { intros H. apply Forall_forall. intros r Hr.
    destruct (above_500 r) eqn:Ha.
    - rewrite Forall_forall in H. apply H.
      apply list_elem_of_In, filter_In. split; [now apply list_elem_of_In | exact Ha].
    - now apply not_above_500_finite. }
  assert (Hex : Exists (fun r => rpm_of r = PLUS_INFINITY)
                       (List.filter above_500 (records self)) ->
                Exists (fun r => rpm_of r = PLUS_INFINITY) (records self)).
  { rewrite !Exists_exists. intros (r & Hr & Hinf). exists r. split; [|exact Hinf].
    apply list_elem_of_In, filter_In in Hr. now apply list_elem_of_In. }
  pose proof (band_loop_spec _ Hkept ∅) as Hband.
  destruct (List.filter above_500 (records self)) as [|r rs] eqn:Hf.
  { cbn. apply Forall_forall. intros r Hr.
    destruct (above_500 r) eqn:Ha; [|reflexivity].
    assert (Hin : r ∈ List.filter above_500 (records self)).
    { apply list_elem_of_In, filter_In. split; [now apply list_elem_of_In | exact Ha]. }
    rewrite Hf in Hin. now apply elem_of_nil in Hin. }
  cbn [fmap list_fmap] in *.
  destruct (band_loop _ ∅) as [e|m'].
  { rewrite bind_inl. destruct Hband as [-> Hinf]. split; [reflexivity | auto]. }
  destruct Hband as [Hall Hlook]. rewrite bind_inr.
  destruct (summary_loop_spec (map_to_list m')) with (acc := (∅ : gmap Z band_summary))
    as (res & Hloop & Hres).
  { apply NoDup_fst_map_to_list. }
  { apply Forall_forall. intros [b g] Hbg. apply elem_of_map_to_list in Hbg.
    cbn [snd]. rewrite Hlook, lookup_empty in Hbg.
    destruct (timing_of <$> List.filter (in_band b) (r :: rs)); cbn in Hbg;
      [discriminate|]. injection Hbg as <-. discriminate. }
  rewrite Hloop, bind_inr.
  change (timing_of r :: (timing_of <$> rs)) with (timing_of <$> (r :: rs)).
  cbn [fmap list_fmap]. rewrite mean_cons, bind_inr.
  cbn [py_max py_min or_raise]. rewrite !bind_inr.
  cbn [t_overall_avg by_rpm_band].
  split_and!; [auto | reflexivity |].
  intros b. rewrite Hres, list_to_map_to_list, Hlook, lookup_empty.
  unfold timing_group. rewrite <- filter_filter, Hf.
  destruct (timing_of <$> List.filter (in_band b) (r :: rs)) as [|t g];
    cbn [grouped default app]; reflexivity.
Qed.

(** X8: [analyze_timing] raises exactly when a record holds +infinity
    as its engine speed, and what it raises is the [OverflowError] of
    [int]; a NaN or a negative infinity never reaches [int], and on a log
    without +infinity the method returns, with no timing data exactly when
    no record is above 500 rpm. *)
Theorem analyze_timing_overflow (self : t) :
  match analyze_timing self with
  | inl e =>
      e = OverflowError
      /\ Exists (fun r => rpm_of r = PLUS_INFINITY) (records self)
  | inr None =>
      Forall (fun r => rpm_of r <> PLUS_INFINITY) (records self)
      /\ Forall (fun r => above_500 r = false) (records self)
  | inr (Some d) =>
      Forall (fun r => rpm_of r <> PLUS_INFINITY) (records self)
      /\ Exists (fun r => above_500 r = true) (records self)
  end.
Proof.
  pose proof (analyze_timing_spec self) as H.
  destruct (analyze_timing self) as [e|[d|]] eqn:Ht.
  - exact H.
  - destruct H as (Hfin & _ & Hb). split; [exact Hfin|].
    unfold analyze_timing in Ht.
    destruct (List.filter above_500 (records self)) as [|r rs] eqn:Hf.
    { cbn in Ht. discriminate. }
    assert (Hin : In r (List.filter above_500 (records self)))
      by (rewrite Hf; now left).
    apply filter_In in Hin as [Hin Ha]. apply Exists_exists. exists r.
    split; [now apply list_elem_of_In | exact Ha].
  - split; [|exact H]. eapply Forall_impl; [exact H|]. cbn.
    intros r Hr. now apply not_above_500_finite.
Qed.

(** X9: when [analyze_timing] returns timing data, [by_rpm_band] has a
    key for exactly the bands that hold a record above 500 rpm, each key is
    a multiple of 500, and the summary stored for a band is taken over the
    timing readings of the records of that band, in the order of the log;
    the overall average is taken over all records above 500 rpm. *)
Theorem timing_bands_grouped (self : t) (d : timing_data) :
  analyze_timing self = inr (Some d) ->
  (forall b, by_rpm_band d !! b = summary_value (timing_group self b))
  /\ (forall b, is_Some (by_rpm_band d !! b) <-> timing_group self b <> [])
  /\ (forall b, is_Some (by_rpm_band d !! b) -> (b mod 500 = 0)%Z)
  /\ mean (timing_of <$> List.filter above_500 (records self))
     = inr (t_overall_avg d).
Proof.
  intros Ht. pose proof (analyze_timing_spec self) as H. rewrite Ht in H.
  destruct H as (_ & Havg & Hb).
  assert (Hsome : forall b, is_Some (by_rpm_band d !! b)
                            <-> timing_group self b <> []).
  { intros b. rewrite Hb. unfold summary_value.
    destruct (timing_group self b) as [|x xs].
    - rewrite summarize_nil. split; [intros [? [=]] | congruence].
    - destruct (summarize_cons x xs) as [s ->]. split; [discriminate | eauto]. }
  split_and!; [exact Hb | exact Hsome | | exact Havg].
  intros b Hs. apply Hsome in Hs. unfold timing_group in Hs.
  clear Havg Ht.
  destruct (List.filter (fun r => above_500 r && in_band b r) (records self))
    as [|r rs] eqn:Hf; [now contradiction Hs|].
  assert (Hin : In r (List.filter (fun r => above_500 r && in_band b r)
                                  (records self)))
    by (rewrite Hf; now left).
  apply filter_In in Hin as [_ Hin]. apply andb_prop in Hin as [_ Hin].
  unfold in_band, rpm_band in Hin.
  destruct (py_int (rpm_of r)) as [e|n]; [discriminate|].
  rewrite bind_inr in Hin. apply Z.eqb_eq in Hin. subst b.
  apply Z.mod_mul. discriminate.
Qed.

Lemma duration_seconds_returns (self : t) :
  exists d, duration_seconds self = inr d.
Proof.
  unfold duration_seconds, max2.
  destruct (records self) as [|r recs]; [eauto|].
  destruct (gtb (of_Z 1) (sample_rate_hz self)) eqn:Hone.
  - rewrite one_bits. cbn. eauto.
  - destruct (sample_rate_hz self) as [s|s| |s m e]; cbn; eauto.
    exfalso. revert Hone. rewrite one_bits. now destruct s.
Qed.

Lemma analyze_wot_afr_returns (self : t) :
  exists a, analyze_wot_afr self = inr a.
Proof.
  unfold analyze_wot_afr.
  destruct (get_wot_runs_segments self (of_Z 85)) as [_ Hall].
  destruct (wot_results_loop_ok (records self) (get_wot_runs self (of_Z 85)))
    with (results := @nil wot_result) as (more & Hloop & _).
  { eapply Forall_impl; [exact Hall|]. cbn. unfold segment_length.
    intros run. lia. }
  rewrite Hloop, bind_inr. cbn [app].
  destruct more; cbn [length truediv_len]; rewrite bind_inr; eauto.
Qed.

Lemma analyze_idle_returns (self : t) :
  exists o, analyze_idle self = inr o.
Proof.
  unfold analyze_idle.
  destruct (List.filter is_idle (records self)) as [|r rs]; [eauto|].
  cbn [List.map]. rewrite !mean_cons, !spread_cons, !bind_inr. eauto.
Qed.

Lemma analyze_acceleration_enrichment_returns (self : t) :
  exists a, analyze_acceleration_enrichment self = Some a.
Proof.
  unfold analyze_acceleration_enrichment.
  destruct (ae_detect_spec self) as (events & -> & _). cbn. eauto.
Qed.

(** X10: [get_full_analysis] raises exactly when [analyze_timing] does,
    with the same exception: none of the other analyses and none of the
    properties it reads ever raises.  When it returns, each entry of the
    result is what the method of that entry returns and [total_records] is
    the number of records. *)
Theorem get_full_analysis_composes (self : t) :
  match get_full_analysis self with
  | inl e => analyze_timing self = inl e
  | inr f =>
      duration_seconds self = inr (f_duration_sec f)
      /\ analyze_wot_afr self = inr (f_wot_analysis f)
      /\ analyze_acceleration_enrichment self = Some (f_ae_analysis f)
      /\ analyze_idle self = inr (f_idle_analysis f)
      /\ analyze_timing self = inr (f_timing_analysis f)
      /\ f_total_records f = length (records self)
      /\ f_max_rpm f = max_rpm self
      /\ f_max_tps f = max_tps self
      /\ f_file f = filename self
  end.
Proof.
  unfold get_full_analysis.
  destruct (duration_seconds_returns self) as [d ->].
  destruct (analyze_wot_afr_returns self) as [a ->].
  destruct (analyze_acceleration_enrichment_returns self) as [ae ->].
  destruct (analyze_idle_returns self) as [o ->].
  cbn [or_raise]. rewrite !bind_inr.
  destruct (analyze_timing self) as [e|timing]; [reflexivity|].
  rewrite bind_inr. cbn. split_and!; reflexivity.
Qed.

End Analysis.

Lemma max_channel_bound_witness :
  Forall (fun v => leb v (SniperDatalog.max_tps (tps_log [2; 90; 5]%Z)) = true)
         (SniperDatalog.get_channel_data (tps_log [2; 90; 5]%Z) (u "tps_pct"))
  /\ SniperDatalog.max_tps (tps_log [2; 90; 5]%Z) = of_Z 90.
Proof.
  split; [|vm_compute; reflexivity].
  destruct (max_channel_bound (tps_log [2; 90; 5]%Z) (u "tps_pct"))
    as (_ & _ & H).
  apply H. vm_compute. repeat constructor.
Defined.

Lemma timing_bands_grouped_witness :
  exists d,
    SniperDatalog.analyze_timing sample_timing_log = inr (Some d)
    /\ (forall b, SniperDatalog.by_rpm_band d !! b
                  = summary_value (timing_group sample_timing_log b))
    /\ timing_group sample_timing_log 2500 = [of_Z 28; of_Z 30]
    /\ timing_group sample_timing_log 0 = [].
Proof.
  eexists. split; [vm_compute; reflexivity|].
  split; [|split; vm_compute; reflexivity].
  apply (timing_bands_grouped sample_timing_log). vm_compute. reflexivity.
Defined.

Section AnalysisOfFiles.

Variable zlib_decompress : Z -> bytes -> option bytes.
Variable py_float : pystr -> option float.

Lemma infinite_rpm_file :
  match parse_dlz_file zlib_decompress py_float (fs_with infinite_rpm_buffer)
                       (u "run.dl") with
  | inr o =>
      length (SniperDatalog.records (returned o)) = 10
      /\ SniperDatalog.parse_errors (returned o) = []
      /\ SniperDatalog.get_full_analysis (returned o) = inl OverflowError
  | inl _ => False
  end.
Proof. vm_compute. split_and!; reflexivity. Qed.

(** X11: [get_full_analysis] is not defined on everything that
    [parse_dlz_file] returns: a file of 64 header bytes and 10 rows of 12
    single-precision floats that hold +infinity in the place of the engine
    speed is parsed into 10 records without any parse error, and the
    analysis of that datalog raises [OverflowError]. *)
Theorem analysis_raises_on_parsed_file :
  exists o,
    parse_dlz_file zlib_decompress py_float (fs_with infinite_rpm_buffer)
                   (u "run.dl") = inr o
    /\ length (SniperDatalog.records (returned o)) = 10
    /\ SniperDatalog.parse_errors (returned o) = []
    /\ SniperDatalog.get_full_analysis (returned o) = inl OverflowError.
Proof.
  pose proof infinite_rpm_file as H.
  destruct (parse_dlz_file _ _ _ _) as [e|o]; [contradiction|].
  exists o. split; [reflexivity | exact H].
Qed.

End AnalysisOfFiles.

(** ** The text parser, row by row *)

Section TextRows.

Variable py_float : pystr -> option float.

(** X12: the text parser records no parse error and names the datalog
    after the file.  A text of fewer than two lines after stripping gives
    no channel and no record.  Otherwise there is one channel per header
    field, one record per later line that splits into as many fields as
    the header, any other line being dropped without a trace, and the keys
    of every record are exactly the channel names. *)
Theorem text_parser_rows (text filepath : pystr) :
  let d := _parse_text_datalog py_float text filepath in
  SniperDatalog.parse_errors d = []
  /\ SniperDatalog.filename d = basename filepath
  /\ match split NEWLINE (strip text) with
     | header :: line :: more =>
         let delim := if contains COMMA header then COMMA else TAB in
         length (SniperDatalog.channels d) = length (split delim header)
         /\ length (SniperDatalog.records d)
            = length (List.filter
                        (fun l => length (split delim l)
                                  =? length (split delim header))
                        (line :: more))
         /\ Forall (fun r => forall key,
                      is_Some (DatalogRecord.data r !! key)
                      <-> key ∈ SniperDatalog.channels d)
                   (SniperDatalog.records d)
     | _ => SniperDatalog.channels d = [] /\ SniperDatalog.records d = []
     end.
Proof.
  cbn zeta. pose proof (parse_text_unfold py_float text filepath) as Hp.
  destruct (split NEWLINE (strip text)) as [|header [|line more]];
    try (rewrite Hp; cbn; now split_and!).
  cbn zeta in Hp. rewrite Hp. clear Hp.
  cbn [SniperDatalog.records SniperDatalog.channels SniperDatalog.parse_errors
       SniperDatalog.filename parsed_datalog].
  set (delim := if contains COMMA header then COMMA else TAB).
  set (names := List.map map_column _).
  assert (Hnames : length names = length (split delim header)).
  { unfold names. now rewrite !length_map. }
  split_and!; [reflexivity | reflexivity | exact Hnames | |].
  - rewrite length_map, <- Hnames.
    generalize (line :: more). intros ls.
    induction ls as [|l ls IH]; [reflexivity|].
    cbn [List.map List.filter].
    destruct (length (split delim l) =? length names); cbn [length]; now rewrite IH.
  - apply Forall_forall. intros r Hr. rewrite list_elem_of_In in Hr.
    apply in_map_iff in Hr as (values & <- & Hv).
    apply filter_In in Hv as [_ Hlen]. apply Nat.eqb_eq in Hlen.
    intros key. now apply build_record_dom.
Qed.

Lemma combine_app_same {A B : Type} (l1 l2 : list A) (k1 k2 : list B) :
  length l1 = length k1 ->
  combine (l1 ++ l2) (k1 ++ k2) = combine l1 k1 ++ combine l2 k2.
Proof.
  revert k1. induction l1 as [|x l1 IH]; intros [|y k1] H; cbn in *;
    try discriminate; [reflexivity|].
  f_equal. apply IH. lia.
Qed.

(** X13: when several header columns are mapped to the same channel
    name, the record keeps the field of the last of them. *)
Theorem duplicate_column_last_wins (names values : list pystr) (i : nat)
    (key cell : pystr) :
  length values = length names ->
  names !! i = Some key ->
  values !! i = Some cell ->
  (forall j, i < j -> names !! j <> Some key) ->
  DatalogRecord.data (build_record py_float names values) !! key
  = Some (parse_field py_float cell).
Proof.
  intros Hlen Hname Hcell Hlast.
  unfold build_record. cbn [DatalogRecord.data].
  rewrite <- (take_drop_middle names i key Hname).
  rewrite <- (take_drop_middle values i cell Hcell).
  assert (Hti : length (take i names) = length (take i values)).
  { rewrite !length_take. lia. }
  rewrite combine_app_same by exact Hti.
  cbn [combine]. rewrite fold_left_app. cbn [fold_left fst snd].
  rewrite fold_insert_other.
  - apply lookup_insert_eq.
  - intros Hin. apply list_elem_of_fmap in Hin as ([k c] & Hk & Hkc).
    cbn in Hk. subst k. apply list_elem_of_In, in_combine_l in Hkc.
    apply list_elem_of_In, list_elem_of_lookup in Hkc as [j Hj].
    rewrite lookup_drop in Hj. apply (Hlast (S i + j)); [lia | exact Hj].
Qed.

End TextRows.

Lemma duplicate_column_last_wins_witness :
  DatalogRecord.data
    (build_record float_of_plain_decimal [u "rpm"; u "afr"; u "rpm"]
                  [u "900"; u "13"; u "950"]) !! u "rpm"
  = Some (of_Z 950).
Proof.
  apply (duplicate_column_last_wins float_of_plain_decimal
           [u "rpm"; u "afr"; u "rpm"] [u "900"; u "13"; u "950"] 2
           (u "rpm") (u "950")); try reflexivity.
  intros [|[|[|j]]] Hj; try lia; discriminate.
Defined.

(** X14: for a header column of code points up to U+00FF, the channel
    name the text parser gives it does not depend on the case of the
    column or on white space around it, and it is in normal form: a name
    the parser produced is mapped to itself. *)
Theorem map_column_normalizes (col : pystr) :
  latin1 col = true ->
  map_column (lower col) = map_column col
  /\ map_column (strip col) = map_column col
  /\ map_column (map_column col) = map_column col
  /\ latin1 (map_column col) = true.
Proof.
  intros Hlatin. split_and!.
  - unfold map_column. now rewrite lower_idem.
  - unfold map_column.
    rewrite (strip_lower (strip col)), strip_lower.
    unfold strip. now rewrite strip_by_idem.
  - unfold map_column at 2 3.
    set (cl := strip (lower col)).
    destruct (column_map !! cl) as [v|] eqn:Hlook.
    { apply column_map_entry in Hlook as (_ & Hok & _). apply Hok. }
    set (n := replace SPACE UNDERSCORE cl).
    assert (Hstrip : strip n = n).
    { apply strip_by_clear. apply ends_clear_map.
      - intros c Hc. destruct (N.eqb_spec c SPACE); [reflexivity | exact Hc].
      - apply strip_by_ends_clear. }
    assert (Hlower : lower n = n).
    { unfold n, cl. now rewrite lower_replace, <- strip_lower, lower_idem. }
    unfold map_column. rewrite Hlower, Hstrip.
    destruct (column_map !! n) as [v|] eqn:Hlook'.
    + exfalso. destruct (column_map_entry _ _ Hlook') as (Hund & _).
      destruct (decide (SPACE ∈ cl)) as [Hsp|Hsp].
      * apply Hund. now apply replace_with_space.
      * unfold n in Hlook'. rewrite (replace_no_space _ Hsp) in Hlook'. congruence.
    + apply replace_no_space.
      intros Hin. apply replace_elem in Hin as [Hu|[_ Hne]];
        [discriminate | congruence].
  - now apply map_column_latin1.
Qed.

Lemma map_column_normalizes_witness :
  map_column (lower (u " Oil Temp ")) = u "oil_temp"
  /\ map_column (strip (u " Oil Temp ")) = u "oil_temp"
  /\ map_column (u "oil_temp") = u "oil_temp"
  /\ map_column (u "ENGINE RPM") = map_column (u "engine rpm").
Proof.
  destruct (map_column_normalizes (u " Oil Temp ")) as (H1 & H2 & H3 & _);
    [vm_compute; reflexivity|].
  assert (Hm : map_column (u " Oil Temp ") = u "oil_temp")
    by (vm_compute; reflexivity).
  rewrite Hm in H1, H2, H3. split_and!; [exact H1 | exact H2 | exact H3 |].
  destruct (map_column_normalizes (u "ENGINE RPM")) as (H4 & _);
    [vm_compute; reflexivity|].
  rewrite <- H4. vm_compute. reflexivity.
Defined.

(** ** The records of a binary layout *)

Section Layout.

Lemma catalog_names_distinct : NoDup SNIPER_CHANNELS_keys.
Proof. apply (bool_decide_unpack _). vm_compute. reflexivity. Qed.

Lemma decode_record_lookup (data : bytes) (row_offset : nat)
    (named : list (nat * pystr)) :
  NoDup named.*2 ->
  forall m,
  (forall k name, (k, name) ∈ named ->
     dec_val (decode_record data row_offset named m) !! name
     = Some (default zero (unpack_from_f data (row_offset + k * 4))))
  /\ (forall key, key ∉ named.*2 ->
      dec_val (decode_record data row_offset named m) !! key = m !! key).
Proof.
  induction named as [|[k0 n0] named IH]; intros Hnd m.
  { split; [intros k name H; now apply elem_of_nil in H | reflexivity]. }
  cbn in Hnd. apply NoDup_cons in Hnd as [Hn0 Hnd].
  cbn [decode_record]. rewrite dec_val_bind. cbn [unpack dec_val].
  destruct (IH Hnd (<[ n0 := match unpack_from_f data (row_offset + k0 * 4) with
                             | Some val => val
                             | None => zero
                             end ]> m)) as [Hin Hout].
  split.
  - intros k name Hk. apply elem_of_cons in Hk as [[= -> ->]|Hk].
    + rewrite (Hout _ Hn0), lookup_insert_eq.
      now destruct (unpack_from_f data (row_offset + k0 * 4)).
    + now apply Hin.
  - intros key Hkey. cbn in Hkey. apply not_elem_of_cons in Hkey as [Hne Hkey].
    rewrite (Hout _ Hkey). now apply lookup_insert_ne.
Qed.

Lemma decode_rows_spec (data : bytes) (start row_size : nat)
    (names : list pystr) (n : nat) :
  forall (a : nat) (d : SniperDatalog.t),
  start + (a + n) * row_size <= length data ->
  dec_val (decode_rows data start row_size names (seq a n) d)
  = SniperDatalog.set_records d
      (SniperDatalog.records d
       ++ List.map
            (fun r =>
               DatalogRecord.Build
                 (dec_val (decode_record data (start + r * row_size)
                             (combine (seq 0 (length names)) names) ∅)))
            (seq a n)).
Proof.
  induction n as [|n IH]; intros a d Hlen; cbn [seq decode_rows List.map].
  { rewrite app_nil_r. now destruct d. }
  destruct (Nat.ltb_spec (length data) (start + a * row_size + row_size)); [nia|].
  rewrite dec_val_bind, IH by nia.
  unfold SniperDatalog.append_record, SniperDatalog.set_records.
  cbn [SniperDatalog.records SniperDatalog.channels SniperDatalog.sample_rate_hz
       SniperDatalog.metadata SniperDatalog.filename SniperDatalog.parse_errors].
  now rewrite <- app_assoc.
Qed.

Lemma combine_seq_elem (names : list pystr) (k : nat) (name : pystr) :
  names !! k = Some name -> (k, name) ∈ combine (seq 0 (length names)) names.
Proof.
  intros H. apply list_elem_of_lookup. exists k.
  change (combine ?a ?b) with (zip a b).
  rewrite lookup_zip_with, lookup_seq_lt by (eapply lookup_lt_Some; eauto).
  cbn. now rewrite H.
Qed.

Lemma combine_seq_snd (names : list pystr) :
  (combine (seq 0 (length names)) names).*2 = names.
Proof.
  change (combine ?a ?b) with (zip a b). apply snd_zip. now rewrite length_seq.
Qed.

(** The datalog of a layout, row by row. *)
Lemma layout_datalog_rows (data : bytes) (filepath : pystr) (off nc : nat) :
  let names := take nc SNIPER_CHANNELS_keys in
  let rows := (length data - off) / (nc * 4) in
  (rows = 0 \/ off + rows * (nc * 4) <= length data)
  /\ layout_datalog data filepath (off, nc)
     = SniperDatalog.set_records
         (SniperDatalog.set_channels
            (SniperDatalog.set_filename SniperDatalog.init (basename filepath))
            names)
         (List.map
            (fun r =>
               DatalogRecord.Build
                 (dec_val (decode_record data (off + r * (nc * 4))
                             (combine (seq 0 (length names)) names) ∅)))
            (seq 0 rows)).
Proof.
  intros names rows. unfold layout_datalog. cbn [fst snd]. fold names. fold rows.
  assert (Hrows : rows = 0 \/ off + rows * (nc * 4) <= length data).
  { destruct (decide (off <= length data)) as [Hle|Hgt].
    - right. pose proof (Nat.Div0.mul_div_le (length data - off) (nc * 4)).
      fold rows in H. lia.
    - left. unfold rows. replace (length data - off) with 0 by lia.
      now apply Nat.Div0.div_0_l. }
  split; [exact Hrows|].
  destruct Hrows as [->|Hrows]; [reflexivity|].
  now rewrite decode_rows_spec by (cbn; lia).
Qed.

(** The keys of every record of a layout are its channels. *)
Lemma layout_record_keys (data : bytes) (filepath : pystr) (off nc : nat) :
  let d := layout_datalog data filepath (off, nc) in
  SniperDatalog.parse_errors d = []
  /\ SniperDatalog.filename d = basename filepath
  /\ SniperDatalog.sample_rate_hz d = of_Z 10
  /\ Forall (fun rec => forall key,
               is_Some (DatalogRecord.data rec !! key)
               <-> key ∈ SniperDatalog.channels d)
            (SniperDatalog.records d).
Proof.
  cbn zeta. destruct (layout_datalog_rows data filepath off nc) as [_ ->].
  cbn [SniperDatalog.set_records SniperDatalog.set_channels
       SniperDatalog.set_filename SniperDatalog.records SniperDatalog.channels
       SniperDatalog.parse_errors SniperDatalog.filename SniperDatalog.init
       SniperDatalog.sample_rate_hz].
  split_and!; try reflexivity.
  set (names := take nc SNIPER_CHANNELS_keys).
  apply Forall_forall. intros rec Hrec. rewrite list_elem_of_In in Hrec.
  apply in_map_iff in Hrec as (r & <- & _). cbn [DatalogRecord.data].
  assert (Hnd : NoDup (combine (seq 0 (length names)) names).*2).
  { rewrite combine_seq_snd. unfold names.
    pose proof catalog_names_distinct as Hd.
    rewrite <- (take_drop nc SNIPER_CHANNELS_keys) in Hd.
    now apply NoDup_app in Hd as [Hd _]. }
  destruct (decode_record_lookup data (off + r * (nc * 4)) _ Hnd ∅) as [Hin Hout].
  intros key. destruct (decide (key ∈ names)) as [Hk|Hk].
  - split; [auto|]. intros _.
    apply list_elem_of_lookup in Hk as [k Hk].
    rewrite (Hin k key (combine_seq_elem _ _ _ Hk)). eauto.
  - rewrite Hout, lookup_empty by now rewrite combine_seq_snd.
    split; [intros [? [=]] | contradiction].
Qed.

(** X15: the datalog decoded with a layout of [nc] channels from offset
    [off] has the first [nc] catalog names (21 at most) as channels, no
    parse error, and one record per complete row of [4 * nc] bytes, the
    bytes left over being ignored; in the record of row [r], the channel
    with index [k] holds the float at byte [off + r * 4 * nc + 4 * k], and
    the columns past the 21st are not stored. *)
Theorem binary_layout_records (data : bytes) (filepath : pystr) (off nc : nat) :
  0 < nc ->
  let d := layout_datalog data filepath (off, nc) in
  let names := take nc SNIPER_CHANNELS_keys in
  SniperDatalog.channels d = names
  /\ SniperDatalog.parse_errors d = []
  /\ SniperDatalog.filename d = basename filepath
  /\ length (SniperDatalog.records d) = (length data - off) / (nc * 4)
  /\ forall r rec,
       SniperDatalog.records d !! r = Some rec ->
       (forall key, is_Some (DatalogRecord.data rec !! key) <-> key ∈ names)
       /\ forall k name,
            names !! k = Some name ->
            is_Some (unpack_from_f data (off + r * (nc * 4) + k * 4))
            /\ DatalogRecord.data rec !! name
               = unpack_from_f data (off + r * (nc * 4) + k * 4).
Proof.
  intros Hnc d names.
  destruct (layout_record_keys data filepath off nc) as (_ & _ & _ & Hkeys).
  fold d in Hkeys.
  destruct (layout_datalog_rows data filepath off nc) as [Hrows Hd].
  fold d in Hd. fold names in Hd. cbn zeta in Hrows.
  set (rows := (length data - off) / (nc * 4)) in *.
  assert (Hch : SniperDatalog.channels d = names) by now rewrite Hd.
  assert (Hrecs : SniperDatalog.records d
                  = List.map
                      (fun r =>
                         DatalogRecord.Build
                           (dec_val (decode_record data (off + r * (nc * 4))
                                       (combine (seq 0 (length names)) names) ∅)))
                      (seq 0 rows)) by now rewrite Hd.
  split_and!; [exact Hch | now rewrite Hd | now rewrite Hd
              | now rewrite Hrecs, length_map, length_seq |].
  intros r rec Hrec. split.
  { rewrite <- Hch. rewrite Forall_lookup in Hkeys. exact (Hkeys r rec Hrec). }
  rewrite Hrecs in Hrec.
  assert (Hr : r < rows).
  { apply lookup_lt_Some in Hrec. now rewrite length_map, length_seq in Hrec. }
  destruct Hrows as [Hz|Hrows]; [lia|].
  change (List.map ?f ?l) with (f <$> l) in Hrec.
  rewrite list_lookup_fmap, lookup_seq_lt in Hrec by exact Hr.
  cbn in Hrec. injection Hrec as <-. cbn [DatalogRecord.data].
  assert (Hnd : NoDup (combine (seq 0 (length names)) names).*2).
  { rewrite combine_seq_snd. unfold names.
    pose proof catalog_names_distinct as Hdis.
    rewrite <- (take_drop nc SNIPER_CHANNELS_keys) in Hdis.
    now apply NoDup_app in Hdis as [Hdis _]. }
  destruct (decode_record_lookup data (off + r * (nc * 4)) _ Hnd ∅) as [Hin _].
  intros k name Hk.
  assert (Hlt : k < nc).
  { apply lookup_lt_Some in Hk. unfold names in Hk.
    rewrite length_take in Hk. lia. }
  destruct (unpack_from_f_Some data (off + r * (nc * 4) + k * 4)) as [v Hv];
    [nia|].
  rewrite (Hin k name (combine_seq_elem _ _ _ Hk)), Hv. eauto.
Qed.

(** What the binary parser returns: its fresh datalog, or the datalog of a
    layout, which has records. *)
Lemma binary_result_cases (data : bytes) (filepath : pystr) :
  dec_val (_parse_binary_datalog data filepath)
  = SniperDatalog.set_filename SniperDatalog.init (basename filepath)
  \/ exists off nc,
       dec_val (_parse_binary_datalog data filepath)
       = layout_datalog data filepath (off, nc).
Proof.
  unfold _parse_binary_datalog.
  destruct (length data <? 64); [now left|].
  rewrite !dec_val_bind.
  pose proof (offsets_loop_spec data filepath
                (seq 64 (Nat.min (length data) 512 - 64))) as Ho.
  cbn zeta in Ho. rewrite Ho.
  destruct (List.find _ _) as [[off nc]|]; [right; eauto | now left].
Qed.

End Layout.

Lemma binary_layout_records_witness :
  length (SniperDatalog.records
            (layout_datalog sixteen_channel_buffer (u "pass.dl") (64, 16)))
  = 10
  /\ SniperDatalog.channels
       (layout_datalog sixteen_channel_buffer (u "pass.dl") (64, 16))
     = take 16 SNIPER_CHANNELS_keys.
Proof.
  destruct (binary_layout_records sixteen_channel_buffer (u "pass.dl") 64 16)
    as (Hch & _ & _ & Hlen & _); [lia|].
  split; [|exact Hch].
  rewrite Hlen. vm_compute. reflexivity.
Defined.

(** ** The result of the pipeline, and its export *)

Section CsvExport.

Variable zlib_decompress : Z -> bytes -> option bytes.
Variable py_float : pystr -> option float.
Variable float_str : float -> pystr.
Variable file_open : pystr -> option exn.
Variable file_write : pystr -> pystr -> option exn.
Variable file_close : pystr -> option exn.


Lemma keys_within_dec (names : list pystr) (r : DatalogRecord.t) :
  Forall (fun k => k ∈ names) (map_to_list (DatalogRecord.data r)).*1
  <-> keys_within names r.
Proof.
  unfold keys_within. rewrite Forall_forall. split.
  - intros H key [v Hv]. apply H. apply list_elem_of_fmap.
    exists (key, v). split; [reflexivity | now apply elem_of_map_to_list].
  - intros H key Hkey. apply list_elem_of_fmap in Hkey as ([k v] & -> & Hkv).
    apply elem_of_map_to_list in Hkv. apply H. cbn. eauto.
Qed.

Lemma write_rows_spec (names : list pystr) (recs : list DatalogRecord.t) :
  forall text,
  match SniperDatalog.write_rows float_str file_write names recs text with
  | (text', None) =>
      Forall (keys_within names) recs
      /\ text' = text ++ concat (List.map
                                   (fun r => Csv.writerow
                                               (record_cells float_str names r))
                                   recs)
  | (_, Some e) =>
      (exists sofar line, file_write sofar line = Some e)
      \/ ((exists msg, e = ValueError msg)
          /\ Exists (fun r => ~ keys_within names r) recs)
  end.
Proof.
  induction recs as [|r recs IH]; intros text; cbn [SniperDatalog.write_rows].
  { split; [constructor | cbn; now rewrite app_nil_r]. }
  unfold SniperDatalog.dict_writerow.
  destruct (bool_decide _) eqn:Hd.
  - apply bool_decide_eq_true_1, keys_within_dec in Hd.
    fold (record_cells float_str names r).
    destruct (file_write text _) as [e|] eqn:Hw; [left; eauto|].
    specialize (IH (text ++ Csv.writerow (record_cells float_str names r))).
    destruct (SniperDatalog.write_rows _ _ _ _ _) as [text' [e|]].
    + destruct IH as [Hfile|[Hmsg Hex]]; [now left|].
      right. split; [exact Hmsg | now apply Exists_cons_tl].
    + destruct IH as [Hall ->]. split; [now constructor|].
      cbn [List.map concat]. now rewrite <- app_assoc.
  - apply bool_decide_eq_false_1 in Hd. right. split; [eauto|].
    apply Exists_cons_hd. intros Hk. apply Hd. now apply keys_within_dec.
Qed.

(** What [to_csv] does, case by case. *)
Lemma to_csv_cases (self : SniperDatalog.t) (filepath : pystr) :
  match SniperDatalog.to_csv float_str file_open file_write file_close
          self filepath with
  | inl e =>
      SniperDatalog.records self <> []
      /\ (file_open filepath = Some e
          \/ (exists text line, file_write text line = Some e)
          \/ (exists text, file_close text = Some e)
          \/ ((exists msg, e = ValueError msg)
              /\ Exists (fun r => ~ keys_within (SniperDatalog.channels self) r)
                        (SniperDatalog.records self)))
  | inr None => SniperDatalog.records self = []
  | inr (Some text) =>
      SniperDatalog.records self <> []
      /\ file_open filepath = None
      /\ Forall (keys_within (SniperDatalog.channels self))
                (SniperDatalog.records self)
      /\ text = csv_export float_str self
  end.
Proof.
  unfold SniperDatalog.to_csv, csv_export.
  destruct (SniperDatalog.records self) as [|r recs] eqn:Hrecs; [reflexivity|].
  destruct (file_open filepath) as [e|] eqn:Hopen.
  { split; [discriminate | now left]. }
  destruct (file_write [] _) as [e|] eqn:Hhead.
  { destruct (file_close []) as [e'|] eqn:Hclose;
      (split; [discriminate | eauto 6]). }
  pose proof (write_rows_spec (SniperDatalog.channels self) (r :: recs)
                (Csv.writerow (SniperDatalog.channels self))) as H.
  destruct (SniperDatalog.write_rows _ _ _ _ _) as [text [e|]].
  - destruct (file_close text) as [e'|] eqn:Hclose;
      (split; [discriminate|]); [eauto 6|].
    destruct H as [Hfile|Hkeys]; [eauto 6 | auto 6].
  - destruct H as [Hall ->].
    destruct (file_close _) as [e'|] eqn:Hclose.
    + split; [discriminate | eauto 6].
    + split_and!; [discriminate | reflexivity | exact Hall | reflexivity].
Qed.

(** X16: [to_csv] returns without opening a file when the datalog has
    no record.  Otherwise what [open] raises is raised as it is.  The
    only exceptions of the method are those of opening,
    writing and closing the file and the [ValueError] of a record with a
    key that is not among the channels; on a file that opens and takes every
    write, [ValueError] is raised exactly when there is such a record.
    When the method returns after writing, the file holds the header row
    followed by one row per record, in order, a channel the record lacks
    being written as an empty cell. *)
Theorem to_csv_outcome (self : SniperDatalog.t) (filepath : pystr) :
  match SniperDatalog.to_csv float_str file_open file_write file_close
          self filepath with
  | inl e =>
      SniperDatalog.records self <> []
      /\ (file_open filepath = Some e
          \/ (exists text line, file_write text line = Some e)
          \/ (exists text, file_close text = Some e)
          \/ ((exists msg, e = ValueError msg)
              /\ Exists (fun r => ~ keys_within (SniperDatalog.channels self) r)
                        (SniperDatalog.records self)))
  | inr None => SniperDatalog.records self = []
  | inr (Some text) =>
      SniperDatalog.records self <> []
      /\ Forall (keys_within (SniperDatalog.channels self))
                (SniperDatalog.records self)
      /\ text = csv_export float_str self
  end
  /\ (forall e, SniperDatalog.records self <> [] ->
      file_open filepath = Some e ->
      SniperDatalog.to_csv float_str file_open file_write file_close self filepath
      = inl e)
  /\ (file_open filepath = None ->
      (forall text line, file_write text line = None) ->
      (forall text, file_close text = None) ->
      SniperDatalog.records self <> [] ->
      (Exists (fun r => ~ keys_within (SniperDatalog.channels self) r)
              (SniperDatalog.records self)
       <-> exists msg,
             SniperDatalog.to_csv float_str file_open file_write file_close
               self filepath
             = inl (ValueError msg))).
Proof.
  pose proof (to_csv_cases self filepath) as H. split_and!.
  - destruct (SniperDatalog.to_csv float_str file_open file_write file_close
                self filepath) as [e|[text|]]; [exact H | | exact H].
    destruct H as (H1 & _ & H3 & H4). auto.
  - intros e Hne Hopen. unfold SniperDatalog.to_csv.
    destruct (SniperDatalog.records self); [contradiction|]. now rewrite Hopen.
  - intros Hopen Hwrite Hclose Hne.
    destruct (SniperDatalog.to_csv float_str file_open file_write file_close
                self filepath) as [e|[text|]].
    + destruct H as [_ [Ho|[(t & l & Hw)|[(t & Hc)|[[msg ->] Hex]]]]].
      * congruence.
      * rewrite Hwrite in Hw. discriminate.
      * rewrite Hclose in Hc. discriminate.
      * split; [eauto | intros _; exact Hex].
    + destruct H as (_ & _ & Hall & _). split; [|intros [? [=]]].
      intros Hex. exfalso. apply Exists_exists in Hex as (r & Hr & Hbad).
      rewrite Forall_forall in Hall. apply Hbad, Hall, Hr.
    + contradiction.
Qed.

Lemma text_result_well_formed (text filepath : pystr) :
  let d := _parse_text_datalog py_float text filepath in
  well_formed filepath d /\ SniperDatalog.parse_errors d = [].
Proof.
  cbn zeta. unfold well_formed.
  pose proof (parse_text_unfold py_float text filepath) as Hp.
  destruct (split NEWLINE (strip text)) as [|header [|line more]];
    try (rewrite Hp; cbn; split_and!; try reflexivity; constructor).
  cbn zeta in Hp. rewrite Hp. clear Hp.
  cbn [SniperDatalog.records SniperDatalog.channels SniperDatalog.parse_errors
       SniperDatalog.filename SniperDatalog.sample_rate_hz parsed_datalog].
  split_and!; try reflexivity.
  apply Forall_forall. intros r Hr. rewrite list_elem_of_In in Hr.
  apply in_map_iff in Hr as (values & <- & Hv).
  apply filter_In in Hv as [_ Hlen]. apply Nat.eqb_eq in Hlen.
  intros key. now apply build_record_dom.
Qed.

Lemma binary_result_well_formed (data : bytes) (filepath : pystr) :
  let d := dec_val (_parse_binary_datalog data filepath) in
  well_formed filepath d /\ SniperDatalog.parse_errors d = [].
Proof.
  cbn zeta. unfold well_formed.
  destruct (binary_result_cases data filepath) as [->|(off & nc & ->)].
  - cbn. split_and!; try reflexivity. constructor.
  - destruct (layout_record_keys data filepath off nc) as (H1 & H2 & H3 & H4).
    auto.
Qed.

Lemma raw_result_well_formed (data : bytes) (filepath : pystr) :
  let d := dec_val (_extract_from_raw data filepath) in
  well_formed filepath d
  /\ SniperDatalog.parse_errors d = []
  /\ SniperDatalog.records d = []
  /\ SniperDatalog.channels d = SNIPER_CHANNELS_keys.
Proof.
  cbn zeta. unfold well_formed, _extract_from_raw. rewrite dec_val_bind.
  destruct (dec_val (raw_scan data _ [])); cbn;
    split_and!; try reflexivity; constructor.
Qed.

Lemma returned_well_formed (fs : pystr -> exn + bytes) (filepath : pystr) :
  exists o,
    parse_dlz_file zlib_decompress py_float fs filepath = inr o
    /\ well_formed filepath (returned o).
Proof.
  unfold parse_dlz_file. destruct (fs filepath) as [e|raw_data]; cbn [try_except].
  { eexists. split; [reflexivity|]. cbn. unfold well_formed. cbn.
    split_and!; try reflexivity. constructor. }
  set (decompressed := decompress zlib_decompress filepath raw_data).
  set (text_data := decode_utf8_replace decompressed).
  destruct (text_result_well_formed text_data filepath) as [Ht1 _].
  destruct (binary_result_well_formed decompressed filepath) as [Hb1 _].
  destruct (raw_result_well_formed decompressed filepath) as (Hr1 & _).
  destruct (_ && has_records (_parse_text_datalog _ _ _));
    [eexists; split; [reflexivity | assumption]|].
  destruct (has_records (dec_val (_parse_binary_datalog _ _)));
    eexists; (split; [reflexivity | assumption]).
Qed.

(** X17: whatever the file system holds, the datalog [parse_dlz_file]
    returns is named after the file, has the sample rate 10, and has in
    each record exactly its channels as keys.  Its [parse_errors] holds the
    read error when the file cannot be read and is empty whenever the file
    can be read, whether or not anything was parsed; when no record was
    recovered from a readable file, the channels are nevertheless the 21
    names of the catalog. *)
Theorem parse_dlz_file_result (fs : pystr -> exn + bytes) (filepath : pystr) :
  exists o,
    parse_dlz_file zlib_decompress py_float fs filepath = inr o
    /\ well_formed filepath (returned o)
    /\ match fs filepath with
       | inl e =>
           SniperDatalog.parse_errors (returned o)
           = [u "Error reading file: " ++ str_exn e]
           /\ SniperDatalog.records (returned o) = []
       | inr raw_data =>
           SniperDatalog.parse_errors (returned o) = []
           /\ (SniperDatalog.records (returned o) = [] ->
               SniperDatalog.channels (returned o) = SNIPER_CHANNELS_keys)
       end.
Proof.
  unfold parse_dlz_file. destruct (fs filepath) as [e|raw_data]; cbn [try_except].
  { eexists. split; [reflexivity|]. cbn. unfold well_formed. cbn.
    split_and!; try reflexivity. constructor. }
  set (decompressed := decompress zlib_decompress filepath raw_data).
  set (text_data := decode_utf8_replace decompressed).
  destruct (text_result_well_formed text_data filepath) as [Ht1 Ht2].
  destruct (binary_result_well_formed decompressed filepath) as [Hb1 Hb2].
  destruct (raw_result_well_formed decompressed filepath)
    as (Hr1 & Hr2 & Hr3 & Hr4).
  destruct (_ && has_records (_parse_text_datalog _ _ _)) eqn:Htext.
  { eexists. split; [reflexivity|]. cbn [returned].
    split_and!; [exact Ht1 | exact Ht2 |].
    apply andb_prop in Htext as [_ Hrec]. unfold has_records in Hrec.
    intros Hnil. rewrite Hnil in Hrec. discriminate. }
  destruct (has_records (dec_val (_parse_binary_datalog _ _))) eqn:Hbin.
  { eexists. split; [reflexivity|]. cbn [returned].
    split_and!; [exact Hb1 | exact Hb2 |].
    unfold has_records in Hbin. intros Hnil. rewrite Hnil in Hbin. discriminate. }
  eexists. split; [reflexivity|]. cbn [returned]. auto.
Qed.

(** X18: on a datalog returned by [parse_dlz_file], [to_csv] raises
    nothing of its own: the only exceptions are those of opening, writing
    and closing the file, never the [ValueError] of a key outside the
    channels.  When it returns, it has written nothing if no record was
    recovered and otherwise the header row and one row per record. *)
Theorem export_of_parsed_file (fs : pystr -> exn + bytes)
    (filepath export_path : pystr) :
  exists o,
    parse_dlz_file zlib_decompress py_float fs filepath = inr o
    /\ match SniperDatalog.to_csv float_str file_open file_write file_close
               (returned o) export_path with
       | inl e =>
           file_open export_path = Some e
           \/ (exists text line, file_write text line = Some e)
           \/ (exists text, file_close text = Some e)
       | inr res =>
           res = match SniperDatalog.records (returned o) with
                 | [] => None
                 | _ :: _ => Some (csv_export float_str (returned o))
                 end
       end.
Proof.
  destruct (returned_well_formed fs filepath) as (o & Ho & _ & _ & Hkeys).
  exists o. split; [exact Ho|].
  pose proof (to_csv_cases (returned o) export_path) as H.
  destruct (SniperDatalog.to_csv float_str file_open file_write file_close
              (returned o) export_path) as [e|[text|]].
  - destruct H as [_ [Hopen|[Hw|[Hc|[_ Hex]]]]]; auto.
    exfalso. apply Exists_exists in Hex as (r & Hr & Hbad).
    apply Hbad. intros key Hkey. rewrite Forall_forall in Hkeys.
    now apply (Hkeys r Hr).
  - destruct H as (Hne & _ & _ & ->).
    destruct (SniperDatalog.records (returned o)); [contradiction | reflexivity].
  - now rewrite H.
Qed.

Lemma ten_bits : of_Z 10 = S754_finite false 5629499534213120 (-49).
Proof. vm_compute. reflexivity. Qed.

(** X21: no parser reads a sample rate from the file, so the duration
    of every datalog [parse_dlz_file] returns is its number of records
    divided by 10, and 0.0 when it has no record, whatever time stamps the
    file holds. *)
Theorem parsed_duration (fs : pystr -> exn + bytes) (filepath : pystr) :
  exists o,
    parse_dlz_file zlib_decompress py_float fs filepath = inr o
    /\ SniperDatalog.duration_seconds (returned o)
       = inr (match SniperDatalog.records (returned o) with
              | [] => zero
              | _ :: _ =>
                  div (of_Z (Z.of_nat (length (SniperDatalog.records (returned o)))))
                      (of_Z 10)
              end).
Proof.
  destruct (returned_well_formed fs filepath) as (o & Ho & _ & Hrate & _).
  exists o. split; [exact Ho|].
  unfold SniperDatalog.duration_seconds, max2. rewrite Hrate.
  destruct (SniperDatalog.records (returned o)) as [|r recs]; [reflexivity|].
  assert (Hgt : gtb (of_Z 1) (of_Z 10) = false) by (vm_compute; reflexivity).
  rewrite Hgt, ten_bits. reflexivity.
Qed.

End CsvExport.

(** ** The rpm bands of the timing analysis *)

Section Bands.

Import SniperDatalog.

Lemma digits2_pos_lower (m : positive) :
  (2 ^ (Z.pos (digits2_pos m) - 1) <= Z.pos m)%Z.
Proof.
  induction m as [m IH|m IH|]; cbn [digits2_pos].
  - replace (Z.pos (Pos.succ (digits2_pos m)) - 1)%Z
      with (Z.succ (Z.pos (digits2_pos m) - 1))%Z by lia.
    rewrite Z.pow_succ_r by lia. lia.
  - replace (Z.pos (Pos.succ (digits2_pos m)) - 1)%Z
      with (Z.succ (Z.pos (digits2_pos m) - 1))%Z by lia.
    rewrite Z.pow_succ_r by lia. lia.
  - cbn. lia.
Qed.

(** The integer part of a double above 500 is at least 500. *)
Lemma int_above_500 (x : float) (n : Z) :
  is_double x = true ->
  gtb x (of_Z 500) = true ->
  py_int x = inr n ->
  (500 <= n)%Z.
Proof.
  unfold is_double, gtb. rewrite five_hundred_bits.
  destruct x as [s|[]| |[] m e]; cbn [valid_binary]; try discriminate.
  intros Hvalid Hgt Hint. cbn [py_int] in Hint. injection Hint as <-.
  unfold bounded, canonical_mantissa, fexp, emin, prec, emax in Hvalid.
  apply andb_prop in Hvalid as [Hcan _]. apply Z.eqb_eq in Hcan.
  change (IntDef.Z.max ?a ?b) with (Z.max a b) in Hcan.
  unfold SFltb in Hgt. cbn [SFcompare] in Hgt.
  change (PosDef.Pos.compare_cont Eq ?a ?b) with (Pos.compare a b) in Hgt.
  destruct (Z.compare_spec (-44) e) as [He|He|He]; [| |discriminate].
  - subst e. cbn [Z.leb Z.compare Z.opp].
    destruct (Pos.compare_spec 8796093022208000 m) as [?|Hm|?]; try discriminate.
    apply Z.div_le_lower_bound; [reflexivity | lia].
  - assert (Hd : Z.pos (digits2_pos m) = 53%Z) by lia.
    pose proof (digits2_pos_lower m) as Hlow. rewrite Hd in Hlow.
    change (2 ^ (53 - 1))%Z with 4503599627370496%Z in Hlow.
    destruct (Z.leb_spec 0 e) as [Hpos|Hneg].
    + assert (1 <= 2 ^ e)%Z by (apply (Z.pow_le_mono_r 2 0 e); lia). nia.
    + assert (Hpow : (0 < 2 ^ (- e) <= 2 ^ 43)%Z).
      { split; [apply Z.pow_pos_nonneg; lia|].
        apply Z.pow_le_mono_r; lia. }
      apply Z.div_le_lower_bound; [lia|].
      change (2 ^ 43)%Z with 8796093022208%Z in Hpow. nia.
Qed.

Lemma band_has_record (self : t) (d : timing_data) (b : Z) :
  analyze_timing self = inr (Some d) ->
  is_Some (by_rpm_band d !! b) ->
  exists r, r ∈ records self /\ above_500 r = true
            /\ rpm_band (rpm_of r) = inr b.
Proof.
  intros Ht Hs. pose proof (analyze_timing_spec self) as H. rewrite Ht in H.
  destruct H as (_ & _ & Hb). rewrite Hb in Hs. clear Hb Ht.
  unfold timing_group in Hs.
  destruct (List.filter (fun r => above_500 r && in_band b r) (records self))
    as [|r rs] eqn:Hf.
  { cbn in Hs. destruct Hs as [? [=]]. }
  assert (Hin : In r (List.filter (fun r => above_500 r && in_band b r)
                                  (records self)))
    by (rewrite Hf; now left).
  apply filter_In in Hin as [Hin Hr]. apply andb_prop in Hr as [Ha Hband].
  exists r. split_and!; [now apply list_elem_of_In | exact Ha |].
  unfold in_band in Hband. destruct (rpm_band (rpm_of r)) as [e|b']; [discriminate|].
  apply Z.eqb_eq in Hband. now subst.
Qed.

(** X19: on a log whose engine speeds are doubles, as all floats of
    Python are, no key of [by_rpm_band] is below 500: a record above 500 rpm
    falls in the band of 500 or in a higher one. *)
Theorem timing_bands_from_500 (self : t) (d : timing_data) :
  Forall (fun r => is_double (rpm_of r) = true) (records self) ->
  analyze_timing self = inr (Some d) ->
  forall b, is_Some (by_rpm_band d !! b) -> (500 <= b)%Z.
Proof.
  intros Hvalid Ht b Hs.
  destruct (band_has_record self d b Ht Hs) as (r & Hr & Ha & Hb).
  rewrite Forall_forall in Hvalid. specialize (Hvalid r Hr).
  unfold rpm_band in Hb. destruct (py_int (rpm_of r)) as [e|n] eqn:Hn;
    [discriminate|].
  rewrite bind_inr in Hb. injection Hb as <-.
  pose proof (int_above_500 _ _ Hvalid Ha Hn) as H500.
  assert (1 <= n / 500)%Z by (apply Z.div_le_lower_bound; lia). lia.
Qed.

End Bands.

Lemma timing_bands_from_500_witness :
  exists d,
    SniperDatalog.analyze_timing sample_timing_log = inr (Some d)
    /\ forall b, is_Some (SniperDatalog.by_rpm_band d !! b) -> (500 <= b)%Z.
Proof.
  eexists. split; [vm_compute; reflexivity|].
  apply (timing_bands_from_500 sample_timing_log).
  - vm_compute. repeat constructor.
  - vm_compute. reflexivity.
Defined.

(** ** The number of decoding attempts *)

Section Work.

Lemma header_scan_calls (data : bytes) (offsets : list nat) :
  forall acc, dec_calls (header_scan data offsets acc) = length offsets.
Proof.
  induction offsets as [|o offsets IH]; intros acc; [reflexivity|].
  cbn [header_scan]. rewrite dec_calls_bind, IH. reflexivity.
Qed.

Lemma raw_scan_calls (data : bytes) (offsets : list nat) :
  forall acc, dec_calls (raw_scan data offsets acc) = length offsets.
Proof.
  induction offsets as [|o offsets IH]; intros acc; [reflexivity|].
  cbn [raw_scan]. rewrite dec_calls_bind, IH. reflexivity.
Qed.

Lemma read_row_calls (data : bytes) (row_offset : nat) (chs : list nat) :
  forall acc, dec_calls (read_row data row_offset chs acc) <= length chs.
Proof.
  induction chs as [|ch chs IH]; intros acc; [reflexivity|].
  cbn [read_row]. rewrite dec_calls_bind. cbn [unpack dec_calls dec_val].
  destruct (unpack_from_f data _) as [val|]; [|cbn; lia].
  specialize (IH (acc ++ [val])). cbn [length]. lia.
Qed.

Lemma test_rows_loop_calls (data : bytes) (start row_size nc : nat)
    (row_idxs : list nat) :
  forall acc,
  dec_calls (test_rows_loop data start row_size nc row_idxs acc)
  <= length row_idxs * nc.
Proof.
  induction row_idxs as [|i row_idxs IH]; intros acc; [reflexivity|].
  cbn [test_rows_loop]. rewrite dec_calls_bind.
  pose proof (read_row_calls data (start + i * row_size) (seq 0 nc) []) as Hrow.
  rewrite length_seq in Hrow.
  destruct (dec_val (read_row data _ _ [])) as [row|]; [|cbn; lia].
  destruct (has_rpm_like row && has_map_like row); [|cbn; lia].
  specialize (IH (acc ++ [row])). cbn [length]. lia.
Qed.

Lemma decode_record_calls (data : bytes) (row_offset : nat)
    (named : list (nat * pystr)) :
  forall m, dec_calls (decode_record data row_offset named m) = length named.
Proof.
  induction named as [|[k name] named IH]; intros m; [reflexivity|].
  cbn [decode_record]. rewrite dec_calls_bind, IH. reflexivity.
Qed.

(** Decoding costs one attempt per channel of every record it appends. *)
Lemma decode_rows_calls (data : bytes) (start row_size : nat)
    (names : list pystr) (row_idxs : list nat) :
  forall d,
  let res := decode_rows data start row_size names row_idxs d in
  length (SniperDatalog.records d) <= length (SniperDatalog.records (dec_val res))
  /\ length (SniperDatalog.records (dec_val res))
     <= length (SniperDatalog.records d) + length row_idxs
  /\ dec_calls res
     = length names * (length (SniperDatalog.records (dec_val res))
                       - length (SniperDatalog.records d)).
Proof.
  induction row_idxs as [|i row_idxs IH]; intros d; cbn zeta; cbn [decode_rows].
  { cbn. split_and!; [lia | lia | ]. rewrite Nat.sub_diag. lia. }
  destruct (length data <? start + i * row_size + row_size).
  { cbn. split_and!; [lia | lia | ]. rewrite Nat.sub_diag. lia. }
  rewrite dec_calls_bind, dec_val_bind, decode_record_calls.
  set (d1 := SniperDatalog.append_record d _).
  destruct (IH d1) as (H1 & H2 & H3). rewrite H3.
  assert (Hd1 : length (SniperDatalog.records d1)
                = S (length (SniperDatalog.records d))).
  { unfold d1. cbn. rewrite length_app. cbn. lia. }
  rewrite Hd1 in *.
  assert (Hn : length (combine (seq 0 (length names)) names) = length names).
  { rewrite length_combine, length_seq. lia. }
  rewrite Hn. cbn [length]. split_and!; [lia | lia | nia].
Qed.

Lemma rows_per_word (len start nc : nat) :
  0 < nc ->
  Nat.min nc 21 * ((len - start) / (nc * 4)) <= len / 4.
Proof.
  intros Hnc.
  pose proof (Nat.Div0.mul_div_le (len - start) (nc * 4)) as Hq.
  apply Nat.div_le_lower_bound; [lia|]. nia.
Qed.

Lemma channels_loop_calls (data : bytes) (start : nat) (counts : list nat) :
  Forall (fun nc => 0 < nc) counts ->
  forall d,
  SniperDatalog.records d = [] ->
  let res := channels_loop data start counts d in
  dec_calls res
  <= 10 * list_sum counts + (if snd (dec_val res) then length data / 4 else 0)
  /\ (snd (dec_val res) = false ->
      SniperDatalog.records (fst (dec_val res)) = []).
Proof.
  induction 1 as [|nc counts Hnc _ IH]; intros d Hd; cbn zeta;
    cbn [channels_loop list_sum].
  { cbn. split; [lia | auto]. }
  change (list_sum (nc :: counts)) with (nc + list_sum counts).
  destruct (length data <? start + nc * 4 * 10).
  { destruct (IH d Hd) as [Hc Hr]. split; [lia | exact Hr]. }
  rewrite dec_calls_bind, dec_val_bind.
  pose proof (test_rows_loop_calls data start (nc * 4) nc (seq 0 10) []) as Htest.
  rewrite length_seq in Htest.
  destruct (dec_val (test_rows_loop data start (nc * 4) nc (seq 0 10) []))
    as [rows_valid test_rows].
  destruct (rows_valid && (5 <=? length test_rows)).
  - rewrite dec_calls_bind, dec_val_bind.
    set (d1 := SniperDatalog.set_channels d _).
    destruct (decode_rows_calls data start (nc * 4)
                (take nc SNIPER_CHANNELS_keys)
                (seq 0 ((length data - start) / (nc * 4))) d1)
      as (_ & Hup & Hcalls).
    cbn zeta in Hup, Hcalls.
    assert (Hd1 : SniperDatalog.records d1 = []) by (unfold d1; now cbn).
    rewrite Hd1, length_seq in Hup. rewrite Hd1 in Hcalls.
    cbn [length] in Hup, Hcalls. rewrite Nat.sub_0_r in Hcalls.
    assert (Hnames : length (take nc SNIPER_CHANNELS_keys) = Nat.min nc 21).
    { rewrite length_take. reflexivity. }
    rewrite Hnames in Hcalls.
    pose proof (rows_per_word (length data) start nc Hnc) as Hword.
    destruct (SniperDatalog.records (dec_val (decode_rows _ _ _ _ _ d1)))
      as [|r rs] eqn:Hrecs.
    + cbn [length] in Hcalls.
      destruct (IH (dec_val (decode_rows data start (nc * 4)
                               (take nc SNIPER_CHANNELS_keys)
                               (seq 0 ((length data - start) / (nc * 4))) d1))
                   Hrecs) as [Hc Hr].
      split; [lia | exact Hr].
    + cbn [dec_calls dec_val mret Dec_ret snd fst]. split; [|discriminate].
      assert (Nat.min nc 21 * length (r :: rs) <= length data / 4); [|lia].
      etransitivity; [|exact Hword]. apply Nat.mul_le_mono_l. exact Hup.
  - destruct (IH d Hd) as [Hc Hr]. split; [lia | exact Hr].
Qed.

Lemma offsets_loop_calls (data : bytes) (starts : list nat) :
  forall d,
  SniperDatalog.records d = [] ->
  let res := offsets_loop data starts d in
  dec_calls res
  <= 1320 * length starts + (if snd (dec_val res) then length data / 4 else 0)
  /\ (snd (dec_val res) = false ->
      SniperDatalog.records (fst (dec_val res)) = []).
Proof.
  induction starts as [|s starts IH]; intros d Hd; cbn zeta; cbn [offsets_loop].
  { cbn. split; [lia | auto]. }
  rewrite dec_calls_bind, dec_val_bind.
  destruct (channels_loop_calls data s CHANNEL_COUNTS) with (d := d) as [Hc Hr];
    [repeat constructor; lia | exact Hd |].
  cbn zeta in Hc, Hr. change (list_sum CHANNEL_COUNTS) with 132 in Hc.
  destruct (dec_val (channels_loop data s CHANNEL_COUNTS d)) as [d1 returned].
  cbn [fst snd] in *. destruct returned.
  - cbn [dec_calls dec_val mret Dec_ret snd fst length]. split; [lia | discriminate].
  - destruct (IH d1 (Hr eq_refl)) as [Hc' Hr']. cbn [length].
    split; [lia | exact Hr'].
Qed.

(** X20: the work of the binary recovery is linear in the size of the
    file: the binary parser makes at most 256 + 1320 * 448 decoding attempts
    while it looks for a layout (256 on the header and 1320 for each of at
    most 448 offsets) and at most one per 4 bytes of the file when it decodes, which
    it does once at most; the raw extraction makes one attempt per
    aligned offset below [len - 4]. *)
Theorem binary_recovery_work (data : bytes) (filepath : pystr) :
  dec_calls (_parse_binary_datalog data filepath)
  <= 256 + 1320 * 448 + length data / 4
  /\ dec_calls (_extract_from_raw data filepath) = (length data - 4 + 3) / 4.
Proof.
  split.
  - unfold _parse_binary_datalog.
    destruct (length data <? 64); [cbn [dec_calls mret Dec_ret]; lia|].
    rewrite !dec_calls_bind, header_scan_calls, length_seq.
    destruct (offsets_loop_calls data (seq 64 (Nat.min (length data) 512 - 64)))
      with (d := SniperDatalog.set_filename SniperDatalog.init (basename filepath))
      as [Hc _]; [reflexivity|].
    cbn zeta in Hc. rewrite length_seq in Hc.
    destruct (dec_val (offsets_loop _ _ _)) as [d returned].
    cbn [dec_calls mret Dec_ret snd] in *.
    destruct returned; lia.
  - unfold _extract_from_raw. rewrite dec_calls_bind, raw_scan_calls.
    unfold range4. rewrite length_map, length_seq. cbn. lia.
Qed.

End Work.

(** ** Every long enough run is reported *)

Section RunsComplete.

Import SniperDatalog.

Lemma wot_loop_app (thr : float) (l1 l2 : list DatalogRecord.t) :
  forall (st : wot_state) (i : nat),
  wot_loop thr st i (l1 ++ l2)
  = wot_loop thr (wot_loop thr st i l1) (i + length l1) l2.
Proof.
  induction l1 as [|rec l1 IH]; intros st i; cbn [app wot_loop length].
  - now rewrite Nat.add_0_r.
  - rewrite IH. now replace (S i + length l1) with (i + S (length l1)) by lia.
Qed.

(** The list of segments only grows at its end. *)
Lemma wot_loop_runs_grow (thr : float) (l : list DatalogRecord.t) :
  forall (st : wot_state) (i : nat),
  exists more, runs (wot_loop thr st i l) = runs st ++ more.
Proof.
  induction l as [|rec l IH]; intros st i; cbn [wot_loop].
  - exists []. now rewrite app_nil_r.
  - destruct (IH (wot_step thr st i rec) (S i)) as [more Hmore].
    rewrite Hmore. unfold wot_step.
    destruct (geb _ thr && negb (in_wot st)); [now exists more|].
    destruct (ltb _ thr && in_wot st); [|now exists more].
    cbn [runs]. destruct (3 <? i - start_idx st); [|now exists more].
    rewrite <- app_assoc. eauto.
Qed.

(** After a sample below the threshold no run is open. *)
Lemma wot_step_low (thr : float) (st : wot_state) (i : nat)
    (rec : DatalogRecord.t) :
  ltb (tps_of rec) thr = true -> in_wot (wot_step thr st i rec) = false.
Proof.
  intros Hlow. unfold wot_step. fold (tps_of rec).
  rewrite (ltb_not_geb _ _ Hlow), Hlow. cbn [andb].
  destruct (in_wot st) eqn:Hin; [reflexivity | exact Hin].
Qed.

(** Samples that are not below the threshold leave an open run open. *)
Lemma wot_loop_stays (thr : float) (l : list DatalogRecord.t) :
  Forall (fun r => ltb (tps_of r) thr = false) l ->
  forall (st : wot_state) (i : nat),
  in_wot st = true -> wot_loop thr st i l = st.
Proof.
  induction 1 as [|rec l Hrec _ IH]; intros st i Hin; cbn [wot_loop];
    [reflexivity|].
  assert (Hstep : wot_step thr st i rec = st).
  { unfold wot_step. fold (tps_of rec). rewrite Hin, Hrec, andb_false_r.
    reflexivity. }
  rewrite Hstep. now apply IH.
Qed.

(** The state after the samples before a run that starts at [s]. *)
Lemma wot_loop_before (thr : float) (before : list DatalogRecord.t) :
  (before = [] \/ exists init r, before = init ++ [r] /\ ltb (tps_of r) thr = true) ->
  in_wot (wot_loop thr {| runs := []; in_wot := false; start_idx := 0 |} 0 before)
  = false.
Proof.
  intros [->|(init & r & -> & Hlow)]; [reflexivity|].
  rewrite wot_loop_app. cbn [wot_loop]. now apply wot_step_low.
Qed.

(** The state once the first sample of a run and the samples after it that
    are not below the threshold have been read. *)
Lemma wot_loop_opened (thr : float) (before inside : list DatalogRecord.t)
    (first : DatalogRecord.t) :
  (before = [] \/ exists init r, before = init ++ [r] /\ ltb (tps_of r) thr = true) ->
  geb (tps_of first) thr = true ->
  Forall (fun r => ltb (tps_of r) thr = false) inside ->
  let st := wot_loop thr {| runs := []; in_wot := false; start_idx := 0 |} 0
              (before ++ first :: inside) in
  in_wot st = true /\ start_idx st = length before.
Proof.
  intros Hbefore Hfirst Hinside. cbn zeta.
  rewrite wot_loop_app. cbn [wot_loop Nat.add].
  pose proof (wot_loop_before thr before Hbefore) as Hout.
  set (st0 := wot_loop thr _ 0 before) in *.
  assert (Hstep : wot_step thr st0 (length before) first
                  = {| runs := runs st0; in_wot := true;
                       start_idx := length before |}).
  { unfold wot_step. fold (tps_of first). now rewrite Hfirst, Hout. }
  rewrite Hstep, wot_loop_stays by (assumption || reflexivity).
  split; reflexivity.
Qed.

(** X22: [get_wot_runs] misses no run of more than 3 samples: whenever
    the sample at [s] is at or above the threshold and is the first of the
    data or follows a sample below the threshold, no sample after it and
    before [e] is below the threshold, and [s + 3 < e], then the segment
    [(s, e)] is reported if the sample at [e] is below the threshold, and
    the segment [(s, e - 1)] is reported if [e] is the length of the
    data. *)
Theorem wot_runs_complete (self : t) (thr : float)
    (before inside after : list DatalogRecord.t) (first : DatalogRecord.t) :
  records self = before ++ first :: inside ++ after ->
  (before = [] \/ exists init r, before = init ++ [r] /\ ltb (tps_of r) thr = true) ->
  geb (tps_of first) thr = true ->
  Forall (fun r => ltb (tps_of r) thr = false) inside ->
  3 <= length inside ->
  let s := length before in
  let e := s + 1 + length inside in
  (after = [] \/ exists last rest, after = last :: rest /\ ltb (tps_of last) thr = true) ->
  (match after with [] => (s, e - 1) | _ :: _ => (s, e) end)
  ∈ get_wot_runs self thr.
Proof.
  intros Hrecs Hbefore Hfirst Hinside Hlen s e Hafter.
  destruct (wot_loop_opened thr before inside first Hbefore Hfirst Hinside)
    as [Hin Hstart].
  cbn zeta in Hin, Hstart.
  set (st := wot_loop thr _ 0 (before ++ first :: inside)) in *.
  assert (Hpos : length (before ++ first :: inside) = e).
  { rewrite length_app. cbn [length]. unfold e, s. lia. }
  unfold get_wot_runs. rewrite Hrecs.
  replace (before ++ first :: inside ++ after)
    with ((before ++ first :: inside) ++ after)
    by (rewrite <- app_assoc; reflexivity).
  destruct Hafter as [->|(last & rest & -> & Hlow)].
  - rewrite app_nil_r. fold st. rewrite Hin, Hstart, Hpos. fold s.
    assert (H3 : (3 <? e - s) = true) by (apply Nat.ltb_lt; unfold e; lia).
    rewrite H3. cbn [andb]. apply elem_of_app. right. left.
  - rewrite wot_loop_app. fold st. cbn [wot_loop Nat.add]. rewrite Hpos.
    assert (Hstep : wot_step thr st e last
                    = {| runs := runs st ++ [(s, e)]; in_wot := false;
                         start_idx := s |}).
    { unfold wot_step. fold (tps_of last).
      rewrite (ltb_not_geb _ _ Hlow), Hlow, Hin, Hstart. fold s. cbn [andb].
      assert (H3 : (3 <? e - s) = true) by (apply Nat.ltb_lt; unfold e; lia).
      now rewrite H3. }
    rewrite Hstep.
    destruct (wot_loop_runs_grow thr rest
                {| runs := runs st ++ [(s, e)]; in_wot := false; start_idx := s |}
                (S e)) as [more Hmore].
    cbn [runs] in Hmore.
    assert (Hmem : (s, e) ∈ runs (wot_loop thr
                     {| runs := runs st ++ [(s, e)]; in_wot := false;
                        start_idx := s |} (S e) rest)).
    { rewrite Hmore. apply elem_of_app. left. apply elem_of_app. right. left. }
    destruct (in_wot _ && _); [apply elem_of_app; left|]; exact Hmem.
Qed.

End RunsComplete.

Lemma wot_runs_complete_witness :
  (2, 6) ∈ SniperDatalog.get_wot_runs (tps_log [2; 3; 90; 92; 95; 91; 4; 3]%Z)
                                       (of_Z 85)
  /\ (1, 4) ∈ SniperDatalog.get_wot_runs (tps_log [3; 90; 92; 95; 91]%Z) (of_Z 85).
Proof.
  split.
  - apply (wot_runs_complete (tps_log [2; 3; 90; 92; 95; 91; 4; 3]%Z) (of_Z 85)
             (List.map tps_record [2; 3]%Z) (List.map tps_record [92; 95; 91]%Z)
             (List.map tps_record [4; 3]%Z) (tps_record 90)).
    + reflexivity.
    + right. exists [tps_record 2], (tps_record 3). split; [reflexivity|].
      vm_compute. reflexivity.
    + vm_compute. reflexivity.
    + repeat constructor; vm_compute; reflexivity.
    + cbn. lia.
    + right. exists (tps_record 4), [tps_record 3]. split; [reflexivity|].
      vm_compute. reflexivity.
  - apply (wot_runs_complete (tps_log [3; 90; 92; 95; 91]%Z) (of_Z 85)
             (List.map tps_record [3]%Z) (List.map tps_record [92; 95; 91]%Z)
             [] (tps_record 90)).
    + reflexivity.
    + right. exists [], (tps_record 3). split; [reflexivity|].
      vm_compute. reflexivity.
    + vm_compute. reflexivity.
    + repeat constructor; vm_compute; reflexivity.
    + cbn. lia.
    + now left.
Defined.
